(** * y-prosemirror: the sync plugin, embedded and verified

    A shallow embedding of [src/plugins/sync-plugin.js] (the binding between a
    Yjs shared XML tree and a ProseMirror document) together with the small
    part of its collaborators (Yjs, prosemirror-model, lib0) that the plugin
    calls, followed by the properties of the plugin stated in the
    specification.

    Conventions:
    - JavaScript strings are [string]s of 8-bit code units;
    - JavaScript objects used as records of attributes are association lists
      in insertion order (that is the order of [for ... in]);
    - the JavaScript [Map] [meta.mapping] is a [gmap] keyed by the identity of
      the shared type;
    - object identity ([===] on objects) is an explicit reference number;
    - a JavaScript exception is the outcome [Throw], next to the state reached
      when it was raised. *)

From Stdlib Require Import ZArith String Ascii List Bool Lia.
From stdpp Require Import base gmap strings list.

Set Warnings "-register-all".

Local Open Scope string_scope.
Local Open Scope list_scope.
Local Open Scope nat_scope.

(* ===================================================================== *)
(** * Strings *)
(* ===================================================================== *)

Module Str.

(** [s.startsWith(p)] *)
Definition startsWith (p s : string) : bool := String.prefix p s.

(** [s.slice(n)] for [0 <= n] *)
Fixpoint drop (n : nat) (s : string) : string :=
  match n, s with
  | 0, _ => s
  | S n', String _ s' => drop n' s'
  | S _, EmptyString => EmptyString
  end.

(** [s.slice(0, n)] for [0 <= n] *)
Fixpoint take (n : nat) (s : string) : string :=
  match n, s with
  | 0, _ => EmptyString
  | S n', String c s' => String c (take n' s')
  | S _, EmptyString => EmptyString
  end.

(** [s.replace(pat, rep)] with a string pattern: the first occurrence only. *)
Fixpoint replace (pat rep s : string) : string :=
  if String.prefix pat s then rep +:+ drop (String.length pat) s
  else match s with
       | EmptyString => EmptyString
       | String c s' => String c (replace pat rep s')
       end.

(** The strings of this development are strings of 8-bit code units: the
    strings of JavaScript whose code units are all below 256. Among these
    units the line terminators of ECMAScript are LF and CR; the other two,
    U+2028 and U+2029, are not units of such a string. *)
Definition isLineTerminator (c : ascii) : bool :=
  (nat_of_ascii c =? 10) || (nat_of_ascii c =? 13).

Fixpoint hasLineTerminator (s : string) : bool :=
  match s with
  | EmptyString => false
  | String c s' => isLineTerminator c || hasLineTerminator s'
  end.

(** The number that a string of decimal digits writes, after the digits
    that make [acc]; [None] when a unit is not a digit. *)
Fixpoint digitsValue (s : string) (acc : N) : option N :=
  match s with
  | EmptyString => Some acc
  | String c s' =>
      let n := N_of_ascii c in
      if ((48 <=? n) && (n <=? 57))%N
      then digitsValue s' (10 * acc + (n - 48))%N
      else None
  end.

(** An array index of ECMAScript: the canonical decimal writing (no
    leading zero, except for [0] itself) of an integer below [2^32 - 1].
    [None] for every other string. *)
Definition arrayIndex (s : string) : option N :=
  match s with
  | EmptyString => None
  | String c s' =>
      if (N_of_ascii c =? 48)%N && negb (String.eqb s' EmptyString) then None
      else match digitsValue s 0 with
           | Some n => if (n <? 4294967295)%N then Some n else None
           | None => None
           end
  end.

End Str.

(* ===================================================================== *)
(** * Regular expressions: a backtracking matcher *)
(* ===================================================================== *)

(** The fragment of ECMAScript regular expressions that the plugin uses,
    matched the way the language defines it: by backtracking, greedy
    quantifiers first, the leftmost start position first. *)
Module Regex.

Inductive regex : Type :=
| Dot                                   (* .      any unit but a line terminator *)
| Class (p : ascii -> bool)             (* [...]  *)
| Lit (c : ascii)                       (* c      *)
| Star (r : regex)                      (* r*     greedy *)
| Repeat (n : nat) (r : regex)          (* r{n}   *)
| Seq (r1 r2 : regex)                   (* r1r2   *)
| Group (i : nat) (r : regex)           (* (r)    the i-th capture group *)
| Eos.                                  (* $      without the m flag *)

Abbreviation captures := (gmap nat string).

Definition cont := string -> captures -> option captures.

(** The loop of [r{n}]: [n] matches of the body in a row. *)
Fixpoint repeatLoop (body : string -> captures -> cont -> option captures)
    (k : cont) (n : nat) (s : string) (caps : captures) : option captures :=
  match n with
  | 0 => k s caps
  | S n' => body s caps (fun s' caps' => repeatLoop body k n' s' caps')
  end.

(** The loop of [r*]: one more match of the body is tried first (greedy);
    when that fails, or everything after it fails, the loop stops here. An
    iteration that consumes nothing is rejected, so [fuel] above the length
    of the input never runs out. *)
Fixpoint starLoop (body : string -> captures -> cont -> option captures)
    (k : cont) (fuel : nat) (s : string) (caps : captures) : option captures :=
  match fuel with
  | 0 => k s caps
  | S fuel' =>
      match body s caps (fun s' caps' =>
              if String.length s' <? String.length s
              then starLoop body k fuel' s' caps' else None) with
      | Some c => Some c
      | None => k s caps
      end
  end.

(** [m r s caps k]: match [r] at the start of [s], then continue with [k] on
    what is left; [None] is failure, on which an enclosing choice point
    backtracks. *)
Fixpoint m (r : regex) (s : string) (caps : captures) (k : cont)
    {struct r} : option captures :=
  match r with
  | Dot =>
      match s with
      | String c s' => if Str.isLineTerminator c then None else k s' caps
      | EmptyString => None
      end
  | Class p =>
      match s with
      | String c s' => if p c then k s' caps else None
      | EmptyString => None
      end
  | Lit c0 =>
      match s with
      | String c s' => if Ascii.eqb c c0 then k s' caps else None
      | EmptyString => None
      end
  | Seq r1 r2 => m r1 s caps (fun s' caps' => m r2 s' caps' k)
  | Group i r1 =>
      m r1 s caps (fun s' caps' =>
        k s' (<[i := Str.take (String.length s - String.length s') s]> caps'))
  | Repeat n r1 => repeatLoop (m r1) k n s caps
  | Star r1 => starLoop (m r1) k (S (String.length s)) s caps
  | Eos =>
      match s with
      | EmptyString => k s caps
      | String _ _ => None
      end
  end.

(** [r.exec(s)] for a regular expression without flags: the first start
    position, from the left, at which [r] matches. *)
Fixpoint exec (r : regex) (s : string) : option captures :=
  match m r s ∅ (fun _ caps => Some caps) with
  | Some caps => Some caps
  | None =>
      match s with
      | EmptyString => None
      | String _ s' => exec r s'
      end
  end.

End Regex.

(* ===================================================================== *)
(** * JavaScript values *)
(* ===================================================================== *)

Module Js.

(** JSON-like values. An object carries the reference that [===] compares:
    [Some r] for an object whose identity is known, [None] for an object
    that was just built by a literal or by [toJSON()] and is therefore
    identical to no object met before. Its fields are in insertion order
    and have pairwise different keys. *)
Inductive value : Type :=
| Null
| Bool (b : bool)
| Num (z : Z)
| Str (s : string)
| Obj (ref : option nat) (fields : list (string * value)).

Abbreviation object := (list (string * value)).

(** [o[k]]; [None] is [undefined]. *)
Fixpoint get (o : object) (k : string) : option value :=
  match o with
  | [] => None
  | (k', v) :: o' => if String.eqb k' k then Some v else get o' k
  end.

(** [o[k] = v]: an existing key keeps its place. *)
Fixpoint set (k : string) (v : value) (o : object) : object :=
  match o with
  | [] => [(k, v)]
  | (k', v') :: o' =>
      if String.eqb k' k then (k, v) :: o' else (k', v') :: set k v o'
  end.

(** [delete o[k]] *)
Fixpoint remove (k : string) (o : object) : object :=
  match o with
  | [] => []
  | (k', v') :: o' =>
      if String.eqb k' k then o' else (k', v') :: remove k o'
  end.

(** [Object.keys(o)] *)
Definition keys (o : object) : list string := map fst o.

(** The fields of [o] in the order in which [for (const k in o)] visits
    them: first those whose key is an array index, in ascending order of
    the index, then the others in insertion order. *)
Fixpoint insertByIndex (n : N) (kv : string * value)
    (l : list (N * (string * value))) : list (N * (string * value)) :=
  match l with
  | [] => [(n, kv)]
  | (m, kv') :: l' =>
      if (n <? m)%N then (n, kv) :: l else (m, kv') :: insertByIndex n kv l'
  end.

Definition forIn (o : object) : object :=
  map snd
    (fold_left (fun acc kv =>
                  match Str.arrayIndex (fst kv) with
                  | Some n => insertByIndex n kv acc
                  | None => acc
                  end) o []) ++
  List.filter (fun kv => match Str.arrayIndex (fst kv) with
                         | Some _ => false
                         | None => true
                         end) o.

(** [Object.assign({}, a, b)] and [{ ...a, ...b }] *)
Definition assign (a b : object) : object :=
  fold_left (fun acc kv => set (fst kv) (snd kv) acc) b a.

(** [typeof v === 'object' && v !== null] *)
Definition isObject (v : value) : bool :=
  match v with Obj _ _ => true | _ => false end.

Definition isNull (v : value) : bool :=
  match v with Null => true | _ => false end.

(** [a === b] *)
Definition strictEq (a b : value) : bool :=
  match a, b with
  | Null, Null => true
  | Bool x, Bool y => Bool.eqb x y
  | Num x, Num y => Z.eqb x y
  | Str x, Str y => String.eqb x y
  | Obj (Some r1) _, Obj (Some r2) _ => Nat.eqb r1 r2
  | _, _ => false
  end.

(** [a === b] where either side may be [undefined] *)
Definition strictEqU (a b : option value) : bool :=
  match a, b with
  | None, None => true
  | Some x, Some y => strictEq x y
  | _, _ => false
  end.

(** lib0's [function.equalityDeep] on these values: identical, or objects
    with as many keys whose values are deeply equal key by key. *)
Fixpoint equalityDeep (a b : value) {struct a} : bool :=
  strictEq a b ||
  match a, b with
  | Obj _ fa, Obj _ fb =>
      (length fa =? length fb) &&
      (fix every (l : list (string * value)) : bool :=
         match l with
         | [] => true
         | (k, v) :: l' =>
             match get fb k with
             | Some w => equalityDeep v w
             | None => false
             end && every l'
         end) fa
  | _, _ => false
  end.

Definition equalityDeepU (a b : option value) : bool :=
  match a, b with
  | None, None => true
  | Some x, Some y => equalityDeep x y
  | _, _ => false
  end.

End Js.

(* ===================================================================== *)
(** * prosemirror-model: nodes, marks and the schema *)
(* ===================================================================== *)

Module PM.

(** A mark: [mark.type.name] and [mark.attrs]. *)
Record Mark : Type := { markName : string; markAttrs : Js.object }.

(** [mark.toJSON()]: a new object; [attrs] is present when the mark has at
    least one attribute. *)
Definition toJSON (mk : Mark) : Js.value :=
  Js.Obj None
    (("type", Js.Str (markName mk)) ::
     match markAttrs mk with
     | [] => []
     | _ :: _ => [("attrs", Js.Obj None (markAttrs mk))]
     end).

(** A node of the editable tree. Nodes are immutable and compared by
    identity ([===]), which is the reference [ref]. *)
Inductive Node : Type :=
| Text (ref : nat) (text : string) (marks : list Mark)
| Elem (ref : nat) (typeName : string) (attrs : Js.object)
       (content : list Node) (marks : list Mark).

Definition ref (n : Node) : nat :=
  match n with Text r _ _ => r | Elem r _ _ _ _ => r end.

Definition isText (n : Node) : bool :=
  match n with Text _ _ _ => true | Elem _ _ _ _ _ => false end.

(** [node.type.name] *)
Definition typeName (n : Node) : string :=
  match n with Text _ _ _ => "text" | Elem _ t _ _ _ => t end.

(** [node.text]; [None] is [undefined] *)
Definition text (n : Node) : option string :=
  match n with Text _ t _ => Some t | Elem _ _ _ _ _ => None end.

Definition marks (n : Node) : list Mark :=
  match n with Text _ _ mks => mks | Elem _ _ _ _ mks => mks end.

Definition attrs (n : Node) : Js.object :=
  match n with Text _ _ _ => [] | Elem _ _ a _ _ => a end.

(** [node.content.content] *)
Definition content (n : Node) : list Node :=
  match n with Text _ _ _ => [] | Elem _ _ _ c _ => c end.

(** [a === b] on nodes *)
Definition same (a b : Node) : bool := Nat.eqb (ref a) (ref b).

(** The schema of the editor, as far as the plugin calls it. Each
    constructor of nodes takes the identity of the node it builds and
    returns [None] where the library throws. *)
Record Schema : Type := {
  (** [schema.node(type, attrs, content, marks)] *)
  node : string -> Js.object -> list Node -> list Mark -> nat -> option Node;
  (** [schema.text(text, marks)] *)
  textNode : string -> list Mark -> nat -> option Node;
  (** [schema.mark(type, attrs)]; the attributes may be [undefined] *)
  mark : string -> option Js.value -> option Mark;
  (** [a.excludes(b)] on the mark types of these names *)
  excludes : string -> string -> bool
}.

End PM.

(* ===================================================================== *)
(** * Yjs: the shared types *)
(* ===================================================================== *)

Module Y.

Record ID : Type := { client : nat; clock : nat }.

(** The item that holds a shared type in its parent: its creation id and
    whether it is deleted. A deleted item stays in the list of its parent
    as a tombstone. *)
Record Item : Type := { id : ID; deleted : bool }.

(** One run of a text: a string and its formatting attributes. *)
Abbreviation span := (string * Js.object)%type.

(** The shared types the plugin meets. [ref] is the identity of the
    JavaScript object (the key of [meta.mapping]); [_item] is [None] for a
    root type. [XmlFragment] with a node name is a [Y.XmlElement] (which
    extends [Y.XmlFragment]); its [items] are all the children ever
    inserted and not garbage-collected, tombstones included, in document
    order. *)
Inductive AbstractType : Type :=
| XmlFragment (ref : nat) (_item : option Item) (nodeName : option string)
              (attrs : Js.object) (items : list AbstractType)
| XmlText (ref : nat) (_item : option Item) (spans : list span)
| XmlHook (ref : nat) (_item : option Item).

Definition ref (t : AbstractType) : nat :=
  match t with
  | XmlFragment r _ _ _ _ => r | XmlText r _ _ => r | XmlHook r _ => r
  end.

Definition _item (t : AbstractType) : option Item :=
  match t with
  | XmlFragment _ i _ _ _ => i | XmlText _ i _ => i | XmlHook _ i => i
  end.

(** [t._item.deleted] (a root type is never deleted) *)
Definition isDeleted (t : AbstractType) : bool :=
  match _item t with Some i => deleted i | None => false end.

(** [t instanceof Y.XmlElement] *)
Definition isXmlElement (t : AbstractType) : bool :=
  match t with XmlFragment _ _ (Some _) _ _ => true | _ => false end.

(** [t instanceof Y.XmlText], and also [t instanceof Y.Text] *)
Definition isXmlText (t : AbstractType) : bool :=
  match t with XmlText _ _ _ => true | _ => false end.

(** [t.nodeName]; [None] is [undefined] *)
Definition nodeName (t : AbstractType) : option string :=
  match t with XmlFragment _ _ n _ _ => n | _ => None end.

(** [t.getAttributes()] *)
Definition getAttributes (t : AbstractType) : Js.object :=
  match t with XmlFragment _ _ _ a _ => a | _ => [] end.

Definition items (t : AbstractType) : list AbstractType :=
  match t with XmlFragment _ _ _ _ l => l | _ => [] end.

(** [t.nodeName === name] *)
Definition nodeNameIs (t : AbstractType) (name : string) : bool :=
  match nodeName t with
  | Some n => String.eqb n name
  | None => false
  end.

Definition live (t : AbstractType) : bool := negb (isDeleted t).

(** The children that [toArray()] returns: those not deleted. *)
Definition visible (l : list AbstractType) : list AbstractType :=
  List.filter live l.

(** [t.toArray()] *)
Definition toArray (t : AbstractType) : list AbstractType := visible (items t).

(** [t._length] and [t.length] of a fragment *)
Definition _length (t : AbstractType) : nat := length (toArray t).

Definition markDeleted (i : option Item) : option Item :=
  match i with
  | Some it => Some {| id := id it; deleted := true |}
  | None => None
  end.

(** [t._item.delete(transaction)]: the item becomes a tombstone, and so does
    everything the type holds: its children, its attributes, its text. *)
Fixpoint deleteType (t : AbstractType) : AbstractType :=
  match t with
  | XmlFragment r i n _ l => XmlFragment r (markDeleted i) n [] (map deleteType l)
  | XmlText r i _ => XmlText r (markDeleted i) []
  | XmlHook r i => XmlHook r (markDeleted i)
  end.

(** [t.setAttribute(k, v)] *)
Definition setAttribute (k : string) (v : Js.value) (t : AbstractType) : AbstractType :=
  match t with
  | XmlFragment r i n a l => XmlFragment r i n (Js.set k v a) l
  | _ => t
  end.

(** [t.removeAttribute(k)] *)
Definition removeAttribute (k : string) (t : AbstractType) : AbstractType :=
  match t with
  | XmlFragment r i n a l => XmlFragment r i n (Js.remove k a) l
  | _ => t
  end.

Definition withItems (l : list AbstractType) (t : AbstractType) : AbstractType :=
  match t with
  | XmlFragment r i n a _ => XmlFragment r i n a l
  | _ => t
  end.

(** ** Lists of children, addressed by the index among the visible ones *)

(** Insert [new] after the [idx]-th visible child (at the very start for
    [idx = 0]); the plugin never inserts beyond the length, where Yjs
    throws and this model inserts at the end. *)
Fixpoint insertItems (idx : nat) (new : list AbstractType)
    (l : list AbstractType) : list AbstractType :=
  match idx with
  | 0 => new ++ l
  | S idx' =>
      match l with
      | [] => new
      | c :: l' =>
          c :: insertItems (if live c then idx' else idx) new l'
      end
  end.

(** Delete [len] visible children from the [idx]-th on; the plugin never
    deletes beyond the length, where Yjs throws and this model stops. *)
Fixpoint deleteItems (idx len : nat) (l : list AbstractType) : list AbstractType :=
  match len, l with
  | 0, _ => l
  | _, [] => []
  | S len', c :: l' =>
      if live c then
        match idx with
        | 0 => deleteType c :: deleteItems 0 len' l'
        | S idx' => c :: deleteItems idx' len l'
        end
      else c :: deleteItems idx len l'
  end.

(** The [idx]-th visible child replaced by [new]: the write-back of a
    mutation of that child. *)
Fixpoint replaceItem (idx : nat) (new : AbstractType)
    (l : list AbstractType) : list AbstractType :=
  match l with
  | [] => []
  | c :: l' =>
      if live c then
        match idx with
        | 0 => new :: l'
        | S idx' => c :: replaceItem idx' new l'
        end
      else c :: replaceItem idx new l'
  end.

(** [t.insert(idx, new)], [t.delete(idx, len)], [t.get(idx)],
    [t.slice(a, b)] *)
Definition insert (idx : nat) (new : list AbstractType) (t : AbstractType) :=
  withItems (insertItems idx new (items t)) t.
Definition delete (idx len : nat) (t : AbstractType) :=
  withItems (deleteItems idx len (items t)) t.
Definition get (idx : nat) (t : AbstractType) : option AbstractType :=
  toArray t !! idx.
Definition slice (a b : nat) (t : AbstractType) : list AbstractType :=
  take (b - a) (drop a (toArray t)).

End Y.

(* ===================================================================== *)
(** * Yjs: texts, snapshots, documents *)
(* ===================================================================== *)

Module YText.

(** One operation of a delta, as [toDelta()] returns it and [applyDelta()]
    takes it: [{ insert, attributes }] or [{ retain, attributes }]; absent
    attributes are [None]. *)
Inductive Op : Type :=
| Insert (insert : string) (attributes : option Js.object)
| Retain (retain : nat) (attributes : option Js.object).

Definition noAttributes (a : Js.object) : bool :=
  match a with [] => true | _ :: _ => false end.

(** The runs as Yjs keeps them: no empty run, and two neighbours without
    any formatting are one run (no format item separates them). *)
Fixpoint normalize (l : list Y.span) : list Y.span :=
  match l with
  | [] => []
  | (s, a) :: l' =>
      if String.eqb s "" then normalize l'
      else match normalize l' with
           | (s', a') :: l'' =>
               if noAttributes a && noAttributes a'
               then (s +:+ s', a) :: l''
               else (s, a) :: (s', a') :: l''
           | [] => [(s, a)]
           end
  end.

(** The attributes a run has after formatting it with [fmt]: a [null] value
    removes the key, another value sets it. *)
Definition format (fmt : Js.object) (a : Js.object) : Js.object :=
  fold_left (fun acc kv =>
               if Js.isNull (snd kv) then Js.remove (fst kv) acc
               else Js.set (fst kv) (snd kv) acc) fmt a.

(** The runs before and after position [n]. *)
Fixpoint splitAt (n : nat) (l : list Y.span) : list Y.span * list Y.span :=
  match n, l with
  | 0, _ => ([], l)
  | _, [] => ([], [])
  | _, (s, a) :: l' =>
      if String.length s <=? n then
        let '(before, after) := splitAt (n - String.length s) l' in
        ((s, a) :: before, after)
      else ([(Str.take n s, a)], (Str.drop n s, a) :: l')
  end.

(** [applyDelta(ops)], from the cursor between [before] and [after]: an
    insertion has exactly the attributes given with it; a retain moves the
    cursor and formats what it passes when it has attributes. *)
Fixpoint applyOps (ops : list Op) (before after : list Y.span) : list Y.span :=
  match ops with
  | [] => before ++ after
  | Insert s a :: ops' =>
      applyOps ops' (before ++ [(s, format (default [] a) [])]) after
  | Retain n a :: ops' =>
      let '(passed, after') := splitAt n after in
      let passed' :=
        match a with
        | Some fmt => map (fun sa => (fst sa, format fmt (snd sa))) passed
        | None => passed
        end in
      applyOps ops' (before ++ passed') after'
  end.

Definition textLength (l : list Y.span) : nat :=
  fold_right (fun sa n => String.length (fst sa) + n) 0 l.

(** The attributes in force just before position [n]: those of the unit
    that precedes it. *)
Definition attributesAt (n : nat) (l : list Y.span) : Js.object :=
  match n with
  | 0 => []
  | S _ => match last (fst (splitAt n l)) with
           | Some sa => snd sa
           | None => []
           end
  end.

(** [t.toDelta()] *)
Definition toDelta (t : Y.AbstractType) : list Op :=
  match t with
  | Y.XmlText _ _ spans =>
      map (fun sa => Insert (fst sa)
                       (if noAttributes (snd sa) then None else Some (snd sa)))
          spans
  | _ => []
  end.

(** [t.length] of a text *)
Definition length (t : Y.AbstractType) : nat :=
  match t with Y.XmlText _ _ spans => textLength spans | _ => 0 end.

(** What is written into a deleted type is deleted at once: a tombstone
    stays empty. *)
Definition withSpans (f : list Y.span -> list Y.span) (t : Y.AbstractType)
    : Y.AbstractType :=
  match t with
  | Y.XmlText r i spans =>
      if Y.isDeleted t then t else Y.XmlText r i (normalize (f spans))
  | _ => t
  end.

(** [t.applyDelta(ops)] *)
Definition applyDelta (ops : list Op) (t : Y.AbstractType) : Y.AbstractType :=
  withSpans (fun spans => applyOps ops [] spans) t.

(** [t.delete(index, len)] *)
Definition delete (index len : nat) (t : Y.AbstractType) : Y.AbstractType :=
  withSpans (fun spans =>
               let '(before, rest) := splitAt index spans in
               before ++ snd (splitAt len rest)) t.

(** [t.insert(index, s)] without attributes: the text takes the formatting
    in force at the position. It is kept as a run of its own unless it has
    no formatting; Yjs joins it with the run before it, so the runs of the
    model are those of Yjs up to such boundaries. *)
Definition insert (index : nat) (s : string) (t : Y.AbstractType) : Y.AbstractType :=
  withSpans (fun spans =>
               let '(before, after) := splitAt index spans in
               before ++ (s, attributesAt index spans) :: after) t.

End YText.

Module YDoc.

(** A set of deleted ids: per client, ranges [(clock, len)]. *)
Abbreviation DeleteSet := (gmap nat (list (nat * nat))).

(** [Y.isDeleted(ds, id)] *)
Definition isDeleted (ds : DeleteSet) (i : Y.ID) : bool :=
  match ds !! Y.client i with
  | Some ranges =>
      existsb (fun r => (fst r <=? Y.clock i) && (Y.clock i <? fst r + snd r)) ranges
  | None => false
  end.

(** A snapshot: the delete set and the state vector (per client, the first
    clock that is not part of it). *)
Record Snapshot : Type := { ds : DeleteSet; sv : gmap nat nat }.

(** Yjs's own visibility test, the one [typeListToArraySnapshot] uses. *)
Definition isVisible (i : Y.Item) (s : Snapshot) : bool :=
  match sv s !! Y.client (Y.id i) with
  | Some c => (Y.clock (Y.id i) <? c) && negb (isDeleted (ds s) (Y.id i))
  | None => false
  end.

(** [Y.typeListToArraySnapshot(type, snapshot)]: the children, tombstones
    included, that the snapshot sees. *)
Definition typeListToArraySnapshot (t : Y.AbstractType) (s : Snapshot)
    : list Y.AbstractType :=
  List.filter (fun c => match Y._item c with
                        | Some i => isVisible i s
                        | None => false
                        end) (Y.items t).

(** The document, as far as the plugin needs it: its client id and what
    gives the next shared type a new identity and a new creation id. *)
Record Doc : Type := { clientID : nat; nextClock : nat; nextRef : nat }.

End YDoc.

(* ===================================================================== *)
(** * lib0/diff *)
(* ===================================================================== *)

Module Diff.

Fixpoint commonPrefix (a b : list ascii) : nat :=
  match a, b with
  | x :: a', y :: b' => if Ascii.eqb x y then S (commonPrefix a' b') else 0
  | _, _ => 0
  end.

Record SimpleDiff : Type := { index : nat; remove : nat; insert : string }.

(** [simpleDiff(a, b)]: what is left of [a] and [b] between their longest
    common prefix and the longest common suffix of the rest. (There are no
    surrogate pairs among 8-bit code units.) *)
Definition simpleDiff (a b : string) : SimpleDiff :=
  let la := list_ascii_of_string a in
  let lb := list_ascii_of_string b in
  let left := commonPrefix la lb in
  let right := commonPrefix (rev (drop left la)) (rev (drop left lb)) in
  {| index := left;
     remove := String.length a - left - right;
     insert := Str.take (String.length b - right - left) (Str.drop left b) |}.

End Diff.

(* ===================================================================== *)
(** * Arrays *)
(* ===================================================================== *)

Module Arr.

Section Every.
Context {A : Type} (f : A -> nat -> bool).

Fixpoint everyFrom (i : nat) (l : list A) : bool :=
  match l with
  | [] => true
  | x :: l' => f x i && everyFrom (S i) l'
  end.

(** [l.every((x, i) => f(x, i))] *)
Definition every (l : list A) : bool := everyFrom 0 l.
End Every.

Section EveryVisible.
Context (f : Y.AbstractType -> nat -> bool).

Fixpoint everyVisibleFrom (i : nat) (l : list Y.AbstractType) : bool :=
  match l with
  | [] => true
  | c :: l' =>
      if Y.live c then f c i && everyVisibleFrom (S i) l'
      else everyVisibleFrom i l'
  end.

(** [t.toArray().every((c, i) => f(c, i))], in one pass over the items of
    [t]: see [everyVisible_toArray]. *)
Definition everyVisible (l : list Y.AbstractType) : bool :=
  everyVisibleFrom 0 l.
End EveryVisible.

End Arr.

(* ===================================================================== *)
(** * The sync plugin *)
(* ===================================================================== *)

Module Sync.

(** One slot of the normalized content of a node: the array of the text
    nodes of one run, or a node that is not a text. This is also what the
    mapping holds for a shared type. *)
Inductive Slot : Type :=
| TextNodes (nodes : list PM.Node)
| OneNode (node : PM.Node).

(** [BindingMetadata]: [mapping], a [Map] from shared types to what they
    were rendered to, and [isOMark], a [Map] from mark types (here: their
    names) to whether they overlap themselves. *)
Record BindingMetadata : Type := {
  mapping : gmap nat Slot;
  isOMark : gmap string bool
}.

Definition createEmptyMeta : BindingMetadata :=
  {| mapping := ∅; isOMark := ∅ |}.

Definition MarkPrefix : string := "_mark_".

(** [isVisible(item, snapshot)]; the snapshot may be [undefined] *)
Definition isVisible (item : Y.Item) (snapshot : option YDoc.Snapshot) : bool :=
  match snapshot with
  | None => negb (Y.deleted item)
  | Some s =>
      match YDoc.sv s !! Y.client (Y.id item) with
      | Some c =>
          (Y.clock (Y.id item) <? c) &&
          negb (YDoc.isDeleted (YDoc.ds s) (Y.id item))
      | None => false
      end
  end.

(** ** Mark names in attribute names *)

(** [[a-zA-Z0-9+/=]] *)
Definition hashChar (c : ascii) : bool :=
  let n := nat_of_ascii c in
  ((97 <=? n) && (n <=? 122)) || ((65 <=? n) && (n <=? 90)) ||
  ((48 <=? n) && (n <=? 57)) || (n =? 43) || (n =? 47) || (n =? 61).

(** The regular expression [hashedMarkNameRegex]: group 1 is any run of
    units ([.] starred), group 2 is two dashes and eight units of
    [[a-zA-Z0-9+/=]], and the match ends at the end of the input ([$]). *)
Definition hashedMarkNameRegex : Regex.regex :=
  Regex.Seq
    (Regex.Group 1 (Regex.Star Regex.Dot))
    (Regex.Seq
       (Regex.Group 2
          (Regex.Seq (Regex.Lit "-")
             (Regex.Seq (Regex.Lit "-")
                (Regex.Repeat 8 (Regex.Class hashChar)))))
       Regex.Eos).

(** [hashedMarkNameRegex.exec(attrName)?.[1] ?? attrName] *)
Definition yattr2markname (attrName : string) : string :=
  match Regex.exec hashedMarkNameRegex attrName with
  | Some caps =>
      match caps !! 1 with
      | Some g => g
      | None => attrName
      end
  | None => attrName
  end.

(** ** Normalized content *)

Definition flushTextNodes (textNodes : list PM.Node) : list Slot :=
  match textNodes with
  | [] => []
  | _ :: _ => [TextNodes textNodes]
  end.

(** The loop of [normalizePNodeContent]: [textNodes] collects the run of
    text nodes that is being read. *)
Fixpoint normalizeFrom (c : list PM.Node) (textNodes : list PM.Node) : list Slot :=
  match c with
  | [] => flushTextNodes textNodes
  | n :: c' =>
      if PM.isText n then normalizeFrom c' (textNodes ++ [n])
      else flushTextNodes textNodes ++ OneNode n :: normalizeFrom c' []
  end.

(** [normalizePNodeContent(pnode)] *)
Definition normalizePNodeContent (pnode : PM.Node) : list Slot :=
  normalizeFrom (PM.content pnode) [].

(** ** Attributes and marks *)

Definition notNull (kv : string * Js.value) : bool := negb (Js.isNull (snd kv)).

Definition notNullNorMark (kv : string * Js.value) : bool :=
  negb (Js.isNull (snd kv)) && negb (Str.startsWith MarkPrefix (fst kv)).

(** [equalAttrs(pattrs, yattrs)]. [pattrs] is any value: of those that are
    not objects, [null] is never passed, and a number or a boolean has no
    keys (a string, which has its indices as keys, is outside this model).
    [yattrs] is an object, or [undefined] ([None]). *)
Fixpoint equalAttrs (pattrs : Js.value) (yattrs : option Js.object)
    {struct pattrs} : bool :=
  let ycount :=
    match yattrs with
    | None => 0
    | Some yf => length (List.filter notNullNorMark yf)
    end in
  match pattrs with
  | Js.Obj _ pf =>
      (length (List.filter notNull pf) =? ycount) &&
      (fix loop (fs : list (string * Js.value)) : bool :=
         match fs with
         | [] => true
         | (key, l) :: fs' =>
             if Js.isNull l then loop fs'
             else
               let r := match yattrs with
                        | Some yf => Js.get yf key
                        | None => None
                        end in
               (String.eqb key "ychange" ||
                Js.strictEqU (Some l) r ||
                (Js.isObject l &&
                 match r with
                 | Some (Js.Obj _ rf) => equalAttrs l (Some rf)
                 | _ => false
                 end)) && loop fs'
         end) pf
  | _ => 0 =? ycount
  end.

(** [nodeMarksToAttributes(marks)] *)
Definition nodeMarksToAttributes (marks : list PM.Mark) : Js.object :=
  fold_left (fun pattrs mark =>
               if String.eqb (PM.markName mark) "ychange" then pattrs
               else Js.set (MarkPrefix +:+ PM.markName mark) (PM.toJSON mark) pattrs)
            marks [].

(** [equalMarks(pmarks, yattrs)] *)
Definition equalMarks (pmarks : list PM.Mark) (yattrs : Js.object) : bool :=
  let keys := List.filter (Str.startsWith MarkPrefix) (Js.keys yattrs) in
  let pMarkAttr := nodeMarksToAttributes pmarks in
  (length keys =? length pmarks) &&
  forallb (fun key =>
             String.eqb key "ychange" ||
             Js.equalityDeepU (Js.get pMarkAttr key) (Js.get yattrs key)) keys.

(** ** The structural-equality oracle *)

(** [matchNodeName(yElement, pNode)] *)
Definition matchNodeName (yElement : Y.AbstractType) (pNode : Slot) : bool :=
  match pNode with
  | TextNodes _ => false
  | OneNode n =>
      Y.nodeNameIs yElement (PM.typeName n)
  end.

(** [pmarks.find(mark => mark.type.name === markname)?.attrs] *)
Definition findMarkAttrs (pmarks : list PM.Mark) (markname : string)
    : option Js.object :=
  match List.find (fun mark => String.eqb (PM.markName mark) markname) pmarks with
  | Some mark => Some (PM.markAttrs mark)
  | None => None
  end.

(** [equalYTextPText(ytext, ptexts)] *)
Definition equalYTextPText (ytext : Y.AbstractType) (ptexts : list PM.Node) : bool :=
  let delta := YText.toDelta ytext in
  (length delta =? length ptexts) &&
  Arr.every (fun d i =>
    match d, ptexts !! i with
    | YText.Insert insert attributes, Some ptext =>
        match PM.text ptext with
        | Some t => String.eqb insert t
        | None => false
        end &&
        (length (Js.keys (default [] attributes)) =? length (PM.marks ptext)) &&
        forallb (fun kv =>
                   let markname := yattr2markname (fst kv) in
                   let pmarks := PM.marks ptext in
                   equalAttrs (snd kv) (findMarkAttrs pmarks markname))
                (default [] attributes)
    | _, _ => false
    end) delta.

(** [equalYTypePNode(ytype, pnode)] *)
Fixpoint equalYTypePNode (ytype : Y.AbstractType) (pnode : Slot) {struct ytype} : bool :=
  match ytype with
  | Y.XmlFragment _ _ (Some _) yattrs yitems =>
      match pnode with
      | OneNode p =>
          if matchNodeName ytype pnode then
            let normalizedContent := normalizePNodeContent p in
            (Y._length ytype =? length normalizedContent) &&
            equalAttrs (Js.Obj None (PM.attrs p)) (Some yattrs) &&
            equalMarks (PM.marks p) yattrs &&
            Arr.everyVisible
              (fun ychild i =>
                 match normalizedContent !! i with
                 | Some pchild => equalYTypePNode ychild pchild
                 | None => false
                 end) yitems
          else false
      | TextNodes _ => false
      end
  | Y.XmlText _ _ _ =>
      match pnode with
      | TextNodes ptexts => equalYTextPText ytype ptexts
      | OneNode _ => false
      end
  | _ => false
  end.

(** [mappedIdentity(mapped, pcontent)]; [mapped] may be [undefined]. An
    array is identical to itself only, and then equal to itself element by
    element, so the first disjunct adds nothing for arrays. *)
Definition mappedIdentity (mapped : option Slot) (pcontent : Slot) : bool :=
  match mapped, pcontent with
  | Some (OneNode a), OneNode b => PM.same a b
  | Some (TextNodes a), TextNodes b =>
      (length a =? length b) &&
      Arr.every (fun x i =>
                   match b !! i with
                   | Some y => PM.same y x
                   | None => false
                   end) a
  | _, _ => false
  end.

(** ** The child alignment *)

Record EqualityFactor : Type := {
  equalityFactor : nat;
  foundMappedChild : bool
}.

Section ChildEquality.
Context (meta : BindingMetadata).
Context (yChildren : list Y.AbstractType) (pChildren : list Slot).

(** The first loop of [computeChildEqualityFactor], with [n] iterations
    left before [left] reaches [minCnt]. *)
Fixpoint factorLeft (n left : nat) (found : bool) : nat * bool :=
  match n with
  | 0 => (left, found)
  | S n' =>
      match yChildren !! left, pChildren !! left with
      | Some leftY, Some leftP =>
          if mappedIdentity (mapping meta !! Y.ref leftY) leftP
          then factorLeft n' (S left) true
          else if negb (equalYTypePNode leftY leftP) then (left, found)
          else factorLeft n' (S left) found
      | _, _ => (left, found)
      end
  end.

(** The second loop, with [n] iterations left before [left + right]
    reaches [minCnt]. *)
Fixpoint factorRight (n right : nat) (found : bool) : nat * bool :=
  match n with
  | 0 => (right, found)
  | S n' =>
      match yChildren !! (length yChildren - right - 1),
            pChildren !! (length pChildren - right - 1) with
      | Some rightY, Some rightP =>
          if mappedIdentity (mapping meta !! Y.ref rightY) rightP
          then factorRight n' (S right) true
          else if negb (equalYTypePNode rightY rightP) then (right, found)
          else factorRight n' (S right) found
      | _, _ => (right, found)
      end
  end.
End ChildEquality.

(** [computeChildEqualityFactor(ytype, pnode, meta)] *)
Definition computeChildEqualityFactor (ytype : Y.AbstractType) (pnode : PM.Node)
    (meta : BindingMetadata) : EqualityFactor :=
  let yChildren := Y.toArray ytype in
  let pChildren := normalizePNodeContent pnode in
  let pChildCnt := length pChildren in
  let yChildCnt := length yChildren in
  let minCnt := Nat.min yChildCnt pChildCnt in
  let fromLeft := factorLeft meta yChildren pChildren minCnt 0 false in
  let left := fst fromLeft in
  let fromRight :=
    factorRight meta yChildren pChildren (minCnt - left) 0 (snd fromLeft) in
  let right := fst fromRight in
  {| equalityFactor := left + right; foundMappedChild := snd fromRight |}.

(** ** The state the plugin works on *)

(** What the calls below read and write, apart from the shared tree that
    is passed along: the binding metadata, the document, and the identity
    of the next editable node. *)
Record State : Type := {
  meta : BindingMetadata;
  doc : YDoc.Doc;
  nextNode : nat
}.

(** [meta.mapping.set(type, v)] *)
Definition mappingSet (type : Y.AbstractType) (v : Slot) (st : State) : State :=
  {| meta := {| mapping := <[Y.ref type := v]> (mapping (meta st));
                isOMark := isOMark (meta st) |};
     doc := doc st; nextNode := nextNode st |}.

(** [meta.mapping.delete(type)] *)
Definition mappingDelete (type : Y.AbstractType) (st : State) : State :=
  {| meta := {| mapping := delete (Y.ref type) (mapping (meta st));
                isOMark := isOMark (meta st) |};
     doc := doc st; nextNode := nextNode st |}.

(** The identity and the item of a shared type that is created now
    ([new Y.XmlText()], [new Y.XmlElement(name)]) and integrated into the
    document by the insertion that follows. *)
Definition newType (st : State) : nat * Y.Item * State :=
  (YDoc.nextRef (doc st),
   {| Y.id := {| Y.client := YDoc.clientID (doc st);
                 Y.clock := YDoc.nextClock (doc st) |};
      Y.deleted := false |},
   {| meta := meta st;
      doc := {| YDoc.clientID := YDoc.clientID (doc st);
                YDoc.nextClock := S (YDoc.nextClock (doc st));
                YDoc.nextRef := S (YDoc.nextRef (doc st)) |};
      nextNode := nextNode st |}).

(** How a call completes: normally, by an exception, or not within the
    fuel of the model. *)
Inductive Error : Type :=
| NodeNameMismatch        (* new Error('node name mismatch!') *)
| MethodUnimplemented     (* error.methodUnimplemented() *)
| TypeError.              (* a method that the object does not have *)

Inductive Completion : Type :=
| Normal
| Throw (e : Error)
| OutOfFuel.

Section Plugin.

(** The schema of the editor, and [hashOfJSON] of [src/utils.js], a
    parameter of the plugin here. *)
Context (schema : PM.Schema).
Context (hashOfJSON : Js.value -> string).

(** ** From the editable tree to the shared tree *)

(** [marksToAttributes(marks, meta)] *)
Definition marksToAttributes (marks : list PM.Mark) (st : State)
    : Js.object * State :=
  fold_left
    (fun acc mark =>
       let '(pattrs, st) := acc in
       let name := PM.markName mark in
       if String.eqb name "ychange" then (pattrs, st)
       else
         (* map.setIfUndefined(meta.isOMark, mark.type, ...) *)
         let '(isOverlapping, st) :=
           match isOMark (meta st) !! name with
           | Some b => (b, st)
           | None =>
               let b := negb (PM.excludes schema name name) in
               (b, {| meta := {| mapping := mapping (meta st);
                                 isOMark := <[name := b]> (isOMark (meta st)) |};
                      doc := doc st; nextNode := nextNode st |})
           end in
         (Js.set (if isOverlapping
                  then name +:+ "--" +:+ hashOfJSON (PM.toJSON mark)
                  else name)
                 (Js.Obj None (PM.markAttrs mark)) pattrs, st))
    marks ([], st).

(** The delta of [createTypeFromTextNodes] and the content of
    [updateYText]: one pair per text node. *)
Fixpoint textNodesContent (base : Js.object) (nodes : list PM.Node) (st : State)
    : list (string * Js.object) * State :=
  match nodes with
  | [] => ([], st)
  | node :: nodes' =>
      let '(attributes, st) := marksToAttributes (PM.marks node) st in
      let '(rest, st) := textNodesContent base nodes' st in
      ((default "" (PM.text node), Js.assign base attributes) :: rest, st)
  end.

(** [createTypeFromTextNodes(nodes, meta)] *)
Definition createTypeFromTextNodes (nodes : list PM.Node) (st : State)
    : Y.AbstractType * State :=
  let '(ref, item, st) := newType st in
  let type := Y.XmlText ref (Some item) [] in
  let '(delta, st) := textNodesContent [] nodes st in
  let type :=
    YText.applyDelta
      (map (fun c => YText.Insert (fst c) (Some (snd c))) delta) type in
  let st := mappingSet type (TextNodes nodes) st in
  (type, st).

Section MapSlots.
Context (onNode : PM.Node -> State -> Y.AbstractType * State).

(** [normalizePNodeContent(node).map(n => createTypeFromTextOrElementNode(n, meta))]
    in one pass over the content of the node; [textNodes] collects the
    run of text nodes that is being read. See [mapSlots_normalize]. *)
Fixpoint mapSlots (c : list PM.Node) (textNodes : list PM.Node) (st : State)
    : list Y.AbstractType * State :=
  match c with
  | [] =>
      match textNodes with
      | [] => ([], st)
      | _ :: _ =>
          let '(t, st) := createTypeFromTextNodes textNodes st in ([t], st)
      end
  | n :: c' =>
      if PM.isText n then mapSlots c' (textNodes ++ [n]) st
      else
        let '(ts, st) :=
          match textNodes with
          | [] => ([], st)
          | _ :: _ =>
              let '(t, st) := createTypeFromTextNodes textNodes st in ([t], st)
          end in
        let '(y, st) := onNode n st in
        let '(ys, st) := mapSlots c' [] st in
        (ts ++ y :: ys, st)
  end.
End MapSlots.

(** [createTypeFromElementNode(node, meta)] *)
Fixpoint createTypeFromElementNode (node : PM.Node) (st : State) {struct node}
    : Y.AbstractType * State :=
  let '(ref, item, st) := newType st in
  let type := Y.XmlFragment ref (Some item) (Some (PM.typeName node)) [] [] in
  let nodeMarksAttr := nodeMarksToAttributes (PM.marks node) in
  let type :=
    fold_left (fun type kv =>
                 if negb (Js.isNull (snd kv)) && negb (String.eqb (fst kv) "ychange")
                 then Y.setAttribute (fst kv) (snd kv) type else type)
              (PM.attrs node) type in
  let type :=
    fold_left (fun type kv => Y.setAttribute (fst kv) (snd kv) type)
              nodeMarksAttr type in
  let '(children, st) :=
    match node with
    | PM.Elem _ _ _ c _ => mapSlots createTypeFromElementNode c [] st
    | PM.Text _ _ _ => ([], st)
    end in
  let type := Y.insert 0 children type in
  let st := mappingSet type (OneNode node) st in
  (type, st).

(** [createTypeFromTextOrElementNode(node, meta)] *)
Definition createTypeFromTextOrElementNode (node : Slot) (st : State)
    : Y.AbstractType * State :=
  match node with
  | TextNodes nodes => createTypeFromTextNodes nodes st
  | OneNode n => createTypeFromElementNode n st
  end.

(** ** Updating a text in place *)

(** [ytextTrans(ytext)]: the text, and [null] under every attribute that the
    text has a format item for. *)
Definition ytextTrans (ytext : Y.AbstractType) : string * Js.object :=
  match ytext with
  | Y.XmlText _ _ spans =>
      (fold_right (fun sa str => fst sa +:+ str) "" spans,
       fold_left (fun nAttrs sa =>
                    fold_left (fun nAttrs kv => Js.set (fst kv) Js.Null nAttrs)
                              (snd sa) nAttrs)
                 spans [])
  | _ => ("", [])
  end.

(** [updateYText(ytext, ptexts, meta)] *)
Definition updateYText (ytext : Y.AbstractType) (ptexts : list PM.Node) (st : State)
    : Y.AbstractType * State :=
  let st := mappingSet ytext (TextNodes ptexts) st in
  let '(str, nAttrs) := ytextTrans ytext in
  let '(content, st) := textNodesContent nAttrs ptexts st in
  let d := Diff.simpleDiff str
             (fold_right (fun c joined => fst c +:+ joined) "" content) in
  let ytext := YText.delete (Diff.index d) (Diff.remove d) ytext in
  let ytext := YText.insert (Diff.index d) (Diff.insert d) ytext in
  let ytext :=
    YText.applyDelta
      (map (fun c => YText.Retain (String.length (fst c)) (Some (snd c))) content)
      ytext in
  (ytext, st).

(** ** [updateYFragment] *)

(** The state of the loops of [updateYFragment]: the two counters, the
    fragment as it is now, and the state. *)
Record Loop : Type := {
  nleft : nat;
  nright : nat;
  fragment : Y.AbstractType;
  state : State
}.

(** The child at a visible index replaced by its new value: how the
    mutation of a child shows in its parent. *)
Definition putChild (idx : nat) (child : Y.AbstractType) (t : Y.AbstractType)
    : Y.AbstractType :=
  Y.withItems (Y.replaceItem idx child (Y.items t)) t.

Section UpdateChildren.
(** The recursive call, [updateYFragment(y, child, pchild, meta)]. *)
Context (recur : Y.AbstractType -> PM.Node -> State ->
                 Completion * Y.AbstractType * State).
Context (yChildren : list Y.AbstractType) (pChildren : list Slot).

(** "find number of matching elements from left", with [n] iterations
    left before [left] reaches [minCnt]. *)
Fixpoint matchLeft (n left : nat) (st : State) : nat * State :=
  match n with
  | 0 => (left, st)
  | S n' =>
      match yChildren !! left, pChildren !! left with
      | Some leftY, Some leftP =>
          if negb (mappedIdentity (mapping (meta st) !! Y.ref leftY) leftP) then
            if equalYTypePNode leftY leftP
            then matchLeft n' (S left) (mappingSet leftY leftP st)
            else (left, st)
          else matchLeft n' (S left) st
      | _, _ => (left, st)
      end
  end.

(** "find number of matching elements from right", with [n] iterations
    left before [right + left] reaches [minCnt]. *)
Fixpoint matchRight (n right : nat) (st : State) : nat * State :=
  match n with
  | 0 => (right, st)
  | S n' =>
      match yChildren !! (length yChildren - right - 1),
            pChildren !! (length pChildren - right - 1) with
      | Some rightY, Some rightP =>
          if negb (mappedIdentity (mapping (meta st) !! Y.ref rightY) rightP) then
            if equalYTypePNode rightY rightP
            then matchRight n' (S right) (mappingSet rightY rightP st)
            else (right, st)
          else matchRight n' (S right) st
      | _, _ => (right, st)
      end
  end.

(** One iteration of "try to compare and update". Every child is visited
    once, before it is changed, so its value in [yChildren] is its
    current value. *)
Definition updateStep (s : Loop) : Completion * Loop :=
  let yChildCnt := length yChildren in
  let pChildCnt := length pChildren in
  let left := nleft s in
  let right := nright s in
  match yChildren !! left, pChildren !! left,
        yChildren !! (yChildCnt - right - 1),
        pChildren !! (pChildCnt - right - 1) with
  | Some leftY, Some leftP, Some rightY, Some rightP =>
      match leftY, leftP with
      | Y.XmlText _ _ _, TextNodes leftPs =>
          let '(leftY', st) :=
            if negb (equalYTextPText leftY leftPs)
            then updateYText leftY leftPs (state s)
            else (leftY, state s) in
          (Normal, {| nleft := left + 1; nright := right;
                      fragment := putChild left leftY' (fragment s);
                      state := st |})
      | _, _ =>
          let updateLeft := Y.isXmlElement leftY && matchNodeName leftY leftP in
          let updateRight := Y.isXmlElement rightY && matchNodeName rightY rightP in
          let '(updateLeft, updateRight) :=
            match leftP, rightP with
            | OneNode leftN, OneNode rightN =>
                if updateLeft && updateRight then
                  (* decide which which element to update *)
                  let equalityLeft :=
                    computeChildEqualityFactor leftY leftN (meta (state s)) in
                  let equalityRight :=
                    computeChildEqualityFactor rightY rightN (meta (state s)) in
                  if foundMappedChild equalityLeft &&
                     negb (foundMappedChild equalityRight)
                  then (updateLeft, false)
                  else if negb (foundMappedChild equalityLeft) &&
                          foundMappedChild equalityRight
                  then (false, updateRight)
                  else if equalityFactor equalityLeft <? equalityFactor equalityRight
                  then (false, updateRight)
                  else (updateLeft, false)
                else (updateLeft, updateRight)
            | _, _ => (updateLeft, updateRight)
            end in
          match updateLeft, leftP, updateRight, rightP with
          | true, OneNode leftN, _, _ =>
              let '(c, leftY', st) := recur leftY leftN (state s) in
              (c, {| nleft := match c with Normal => left + 1 | _ => left end;
                     nright := right;
                     fragment := putChild left leftY' (fragment s);
                     state := st |})
          | false, _, true, OneNode rightN =>
              let '(c, rightY', st) := recur rightY rightN (state s) in
              (c, {| nleft := left;
                     nright := match c with Normal => right + 1 | _ => right end;
                     fragment := putChild (yChildCnt - right - 1) rightY' (fragment s);
                     state := st |})
          | _, _, _, _ =>
              let st :=
                match Y.get left (fragment s) with
                | Some old => mappingDelete old (state s)
                | None => state s
                end in
              let frag := Y.delete left 1 (fragment s) in
              let '(new, st) := createTypeFromTextOrElementNode leftP st in
              let frag := Y.insert left [new] frag in
              (Normal, {| nleft := left + 1; nright := right;
                          fragment := frag; state := st |})
          end
      end
  | _, _, _, _ => (Normal, s)
  end.

(** The loop "try to compare and update", with at most [n] iterations
    left: each one moves one of the counters by one, and the loop runs
    while both sides have children between them. *)
Fixpoint updateLoop (n : nat) (s : Loop) : Completion * Loop :=
  match n with
  | 0 => (Normal, s)
  | S n' =>
      if (0 <? length yChildren - nleft s - nright s) &&
         (0 <? length pChildren - nleft s - nright s)
      then
        match updateStep s with
        | (Normal, s') => updateLoop n' s'
        | (c, s') => (c, s')
        end
      else (Normal, s)
  end.

(** What follows the loop: the children of the shared side that are left
    over are deleted, those of the editable side that are left over are
    created and inserted. *)
Definition updateRest (s : Loop) : Loop :=
  let yChildCnt := length yChildren in
  let pChildCnt := length pChildren in
  let left := nleft s in
  let right := nright s in
  let yDelLen := yChildCnt - left - right in
  let '(frag, st) :=
    match yChildren !! 0 with
    | Some first =>
        if (yChildCnt =? 1) && (pChildCnt =? 0) && Y.isXmlText first then
          let st := mappingDelete first (state s) in
          (* Only delete the content of the Y.Text to retain remote
             changes on the same Y.Text object *)
          (putChild 0 (YText.delete 0 (YText.length first) first) (fragment s), st)
        else if 0 <? yDelLen then
          (Y.delete left yDelLen (fragment s),
           fold_left (fun st type => mappingDelete type st)
                     (Y.slice left (left + yDelLen) (fragment s)) (state s))
        else (fragment s, state s)
    | None => (fragment s, state s)
    end in
  if left + right <? pChildCnt then
    let '(ins, st) :=
      fold_left (fun acc pchild =>
                   let '(ins, st) := acc in
                   let '(new, st) := createTypeFromTextOrElementNode pchild st in
                   (ins ++ [new], st))
                (take (pChildCnt - right - left) (drop left pChildren))
                ([], st) in
    {| nleft := left; nright := right;
       fragment := Y.insert left ins frag; state := st |}
  else {| nleft := left; nright := right; fragment := frag; state := st |}.
End UpdateChildren.

(** "update attributes" of [updateYFragment] *)
Definition updateAttributes (yDomFragment : Y.AbstractType) (pNode : PM.Node)
    : Y.AbstractType :=
  let yDomAttrs := Y.getAttributes yDomFragment in
  let pAttrs := PM.attrs pNode in
  let pNodeMarksAttr := nodeMarksToAttributes (PM.marks pNode) in
  let attrs := Js.assign pAttrs pNodeMarksAttr in
  let yDomFragment :=
    fold_left (fun frag kv =>
                 if negb (Js.isNull (snd kv)) then
                   if negb (Js.strictEqU (Js.get yDomAttrs (fst kv)) (Some (snd kv))) &&
                      negb (String.eqb (fst kv) "ychange")
                   then Y.setAttribute (fst kv) (snd kv) frag
                   else frag
                 else Y.removeAttribute (fst kv) frag)
              attrs yDomFragment in
  (* remove all keys that are no longer in pAttrs *)
  fold_left (fun frag kv =>
               match Js.get attrs (fst kv) with
               | None => Y.removeAttribute (fst kv) frag
               | Some _ => frag
               end)
            yDomAttrs yDomFragment.

(** [updateYFragment(y, yDomFragment, pNode, meta)]. The result is how the
    call completes, the fragment as the call leaves it, and the state as
    the call leaves it. [fuel] bounds the depth of the recursion: the
    height of the fragment is enough ([updateYFragment_enough_fuel]). *)
Fixpoint updateYFragment (fuel : nat) (yDomFragment : Y.AbstractType)
    (pNode : PM.Node) (st : State) {struct fuel}
    : Completion * Y.AbstractType * State :=
  match fuel with
  | 0 => (OutOfFuel, yDomFragment, st)
  | S fuel' =>
      if Y.isXmlElement yDomFragment &&
         negb (Y.nodeNameIs yDomFragment (PM.typeName pNode))
      then (Throw NodeNameMismatch, yDomFragment, st)
      else
        let st := mappingSet yDomFragment (OneNode pNode) st in
        (* update attributes *)
        let yDomFragment :=
          if Y.isXmlElement yDomFragment
          then updateAttributes yDomFragment pNode
          else yDomFragment in
        (* update children *)
        let pChildren := normalizePNodeContent pNode in
        let pChildCnt := length pChildren in
        let yChildren := Y.toArray yDomFragment in
        let yChildCnt := length yChildren in
        let minCnt := Nat.min pChildCnt yChildCnt in
        let fromLeft := matchLeft yChildren pChildren minCnt 0 st in
        let fromRight :=
          matchRight yChildren pChildren (minCnt - fst fromLeft) 0 (snd fromLeft) in
        let start :=
          {| nleft := fst fromLeft; nright := fst fromRight;
             fragment := yDomFragment; state := snd fromRight |} in
        match updateLoop (updateYFragment fuel') yChildren pChildren
                (yChildCnt - fst fromLeft - fst fromRight) start with
        | (Normal, s) =>
            let s := updateRest yChildren pChildren s in
            (Normal, fragment s, state s)
        | (c, s) => (c, fragment s, state s)
        end
  end.

(** ** From the shared tree to the editable tree *)

(** The calls below are those that render the live document: [snapshot]
    and [prevSnapshot] are [undefined] in them. The calls that are given
    the snapshots are in [AtSnapshot]. *)

(** The loop of [attributesToMarks] over the attributes that are left to
    visit; [None] where [schema.mark] throws. *)
Fixpoint marksOfAttributes (attrs : Js.object) : option (list PM.Mark) :=
  match attrs with
  | [] => Some []
  | (markName, v) :: attrs' =>
      match PM.mark schema (yattr2markname markName) (Some v) with
      | Some mark =>
          match marksOfAttributes attrs' with
          | Some marks => Some (mark :: marks)
          | None => None
          end
      | None => None
      end
  end.

(** [attributesToMarks(attrs, schema)]: [for (const markName in attrs)]
    visits the attributes in the order of [Js.forIn]. *)
Definition attributesToMarks (attrs : Js.object) : option (list PM.Mark) :=
  marksOfAttributes (Js.forIn attrs).

(** The body of the [try] of [createTextNodesFromYText]: the text nodes of
    the deltas, or [None] where the schema throws. *)
Fixpoint textNodesOfDeltas (deltas : list YText.Op) (st : State)
    : option (list PM.Node) * State :=
  match deltas with
  | [] => (Some [], st)
  | YText.Insert insert attributes :: deltas' =>
      match attributesToMarks (default [] attributes) with
      | Some marks =>
          match PM.textNode schema insert marks (nextNode st) with
          | Some node =>
              let st := {| meta := meta st; doc := doc st;
                           nextNode := S (nextNode st) |} in
              match textNodesOfDeltas deltas' st with
              | (Some nodes, st) => (Some (node :: nodes), st)
              | (None, st) => (None, st)
              end
          | None => (None, st)
          end
      | None => (None, st)
      end
  | YText.Retain _ _ :: _ => (None, st)
  end.

(** [createTextNodesFromYText(text, schema, meta)]: how the call completes,
    what it returns ([None] is [null]), the text and the state as the call
    leaves them. A type that is not a text has no [toDelta]. *)
Definition createTextNodesFromYText (text : Y.AbstractType) (st : State)
    : Completion * option (list PM.Node) * Y.AbstractType * State :=
  if Y.isXmlText text then
    let deltas := YText.toDelta text in
    match textNodesOfDeltas deltas st with
    | (Some nodes, st) => (Normal, Some nodes, text, st)
    | (None, st) =>
        (* an error occured while creating the node. This is probably a
           result of a concurrent action. *)
        (Normal, None, Y.deleteType text, st)
    end
  else (Throw TypeError, None, text, st).

(** The loop over the attributes in [createNodeFromYElement]:
    [nodeAttrs] and [nodeMarks], or [None] where [schema.mark] throws. *)
Fixpoint splitAttributes (attrs : Js.object) (nodeAttrs : Js.object)
    (nodeMarks : list PM.Mark) : option (Js.object * list PM.Mark) :=
  match attrs with
  | [] => Some (nodeAttrs, nodeMarks)
  | (key, v) :: attrs' =>
      if Str.startsWith MarkPrefix key then
        let markName := Str.replace MarkPrefix "" key in
        let markValue := v in
        match markValue with
        | Js.Obj _ fields =>
            match PM.mark schema markName (Js.get fields "attrs") with
            | Some mark => splitAttributes attrs' nodeAttrs (nodeMarks ++ [mark])
            | None => None
            end
        | _ => splitAttributes attrs' nodeAttrs nodeMarks
        end
      else splitAttributes attrs' (Js.set key v nodeAttrs) nodeMarks
  end.

(** The children handed to [schema.node]: the library throws unless every
    one of them is a node. *)
Fixpoint asNodes (children : list Slot) : option (list PM.Node) :=
  match children with
  | [] => Some []
  | OneNode n :: children' =>
      match asNodes children' with
      | Some nodes => Some (n :: nodes)
      | None => None
      end
  | TextNodes _ :: _ => None
  end.

(** The state of the loop over the children in [createNodeFromYElement]:
    the items of the element as they are now, the array [children], and
    the state. *)
Record Building : Type := {
  elItems : list Y.AbstractType;
  children : list Slot;
  bstate : State
}.

Section CreateChildren.
(** The recursive call, [createNodeFromYElement(el, schema, meta)]. *)
Context (recur : Y.AbstractType -> State ->
                 Completion * option PM.Node * Y.AbstractType * State).

(** [createNodeIfNotExists(el, schema, meta)]: what the mapping holds for
    [el], and otherwise the node that is created now. *)
Definition createNodeIfNotExistsWith (el : Y.AbstractType) (st : State)
    : Completion * option Slot * Y.AbstractType * State :=
  match mapping (meta st) !! Y.ref el with
  | Some node => (Normal, Some node, el, st)
  | None =>
      if Y.isXmlElement el then
        let '(c, n, el, st) := recur el st in
        (c, option_map OneNode n, el, st)
      else
        (* we are currently not handling hooks *)
        (Throw MethodUnimplemented, None, el, st)
  end.

(** [createChildren(type)], for the child at position [pos] among the
    items of the element. *)
Definition createChildren (pos : nat) (b : Building) : Completion * Building :=
  match elItems b !! pos with
  | None => (Normal, b)
  | Some type =>
      if Y.isXmlElement type then
        let '(c, n, type, st) := createNodeIfNotExistsWith type (bstate b) in
        (c, {| elItems := <[pos := type]> (elItems b);
               children := match n with
                           | Some n => children b ++ [n]
                           | None => children b
                           end;
               bstate := st |})
      else
        (* If the next ytext exists and was created by us, move the
           content to the current ytext. *)
        let nextytext := elItems b !! (pos + 1) in
        let merge :=
          match nextytext with
          | Some next =>
              Y.isXmlText next && negb (Y.isDeleted next) &&
              match Y._item next with
              | Some i => Y.client (Y.id i) =? YDoc.clientID (doc (bstate b))
              | None => false
              end
          | None => false
          end in
        match merge, nextytext, Y.isXmlText type with
        | true, Some next, false => (Throw TypeError, b)
        | _, _, _ =>
            let '(type, items) :=
              match merge, nextytext with
              | true, Some next =>
                  let type :=
                    YText.applyDelta
                      (YText.Retain (YText.length type) None :: YText.toDelta next)
                      type in
                  (type, <[pos + 1 := Y.deleteType next]> (<[pos := type]> (elItems b)))
              | _, _ => (type, elItems b)
              end in
            (* now create the prosemirror text nodes *)
            let '(c, ns, type, st) := createTextNodesFromYText type (bstate b) in
            (c, {| elItems := <[pos := type]> items;
                   children := match ns with
                               | Some ns => children b ++ map OneNode ns
                               | None => children b
                               end;
                   bstate := st |})
        end
  end.

(** [array.forEach(createChildren)] over the positions of the children. *)
Fixpoint forEachChild (positions : list nat) (b : Building) : Completion * Building :=
  match positions with
  | [] => (Normal, b)
  | pos :: positions' =>
      match createChildren pos b with
      | (Normal, b) => forEachChild positions' b
      | (c, b) => (c, b)
      end
  end.
End CreateChildren.

(** The body of the [try] in [createNodeFromYElement], up to the node that
    [schema.node] returns; [None] where something in it throws. *)
Definition tryCreateNode (el : Y.AbstractType) (children : list Slot) (st : State)
    : option PM.Node :=
  let attrs := Y.getAttributes el in
  match splitAttributes attrs [] [] with
  | Some (nodeAttrs, nodeMarks) =>
      match Y.nodeName el, asNodes children with
      | Some name, Some nodes =>
          PM.node schema name nodeAttrs nodes nodeMarks (nextNode st)
      | _, _ => None
      end
  | None => None
  end.

(** The positions, among all the items, of the children that [toArray()]
    returns. *)
Definition visiblePositions (l : list Y.AbstractType) : list nat :=
  List.filter (fun pos => match l !! pos with
                          | Some c => Y.live c
                          | None => false
                          end) (seq 0 (length l)).

(** [createNodeFromYElement(el, schema, meta)]: how the call completes, what
    it returns ([None] is [null]), the element and the state as the call
    leaves them. [fuel] bounds the depth of the recursion: the height of
    the element is enough ([createNodeFromYElement_enough_fuel]). *)
Fixpoint createNodeFromYElement (fuel : nat) (el : Y.AbstractType) (st : State)
    {struct fuel} : Completion * option PM.Node * Y.AbstractType * State :=
  match fuel, el with
  | 0, _ => (OutOfFuel, None, el, st)
  | S fuel', Y.XmlFragment _ _ _ _ _ =>
      match forEachChild (createNodeFromYElement fuel')
              (visiblePositions (Y.items el))
              {| elItems := Y.items el; children := []; bstate := st |} with
      | (Normal, b) =>
          let el := Y.withItems (elItems b) el in
          let st := bstate b in
          match tryCreateNode el (children b) st with
          | Some node =>
              let st := {| meta := meta st; doc := doc st;
                           nextNode := S (nextNode st) |} in
              let st := mappingSet el (OneNode node) st in
              (Normal, Some node, el, st)
          | None =>
              (* catch: an error occured while creating the node. This is
                 probably a result of a concurrent action. *)
              match Y._item el with
              | Some _ =>
                  let el' := Y.deleteType el in
                  let st := mappingDelete el st in
                  (Normal, None, el', st)
              | None => (Throw TypeError, None, el, st)
              end
          end
      | (c, b) => (c, None, Y.withItems (elItems b) el, bstate b)
      end
  | S _, _ => (Throw TypeError, None, el, st)   (* no [toArray] *)
  end.

(** [createNodeIfNotExists(el, schema, meta)] *)
Definition createNodeIfNotExists (fuel : nat) (el : Y.AbstractType) (st : State)
    : Completion * option Slot * Y.AbstractType * State :=
  createNodeIfNotExistsWith (createNodeFromYElement fuel) el st.

End Plugin.

(** ** Rendering a snapshot *)

(** The calls that are given the two snapshots, [snapshot] and
    [prevSnapshot], and [computeYChange]: those that [_renderSnapshot]
    makes. They differ from the calls above in what they list as the
    children of an element, in the attribute [ychange] that they add, and
    in that the deltas of a text are those of the window. *)
Module AtSnapshot.

Section Rendering.
Context (schema : PM.Schema).
(** What the callbacks change apart from the document: in
    [_renderSnapshot], the colours of the users. *)
Context {World : Type}.
Context (snapshot prevSnapshot : YDoc.Snapshot).
(** [computeYChange], the last argument of the calls, which may be
    [undefined]: the kind of the change and the id of the item give how
    the call completes, what it returns, and the world as it leaves it. *)
Context (computeYChange :
           option (string -> Y.ID -> World -> Completion * Js.value * World)).
(** [el.getAttributes(snapshot)] of Yjs, a parameter here: the shared
    types of this development keep no history of their attributes. *)
Context (getAttributesAt : Y.AbstractType -> Js.object).
(** [text.toDelta(snapshot, prevSnapshot, computeYChange)] of Yjs, a
    parameter here: the texts of this development keep no history of their
    units. The call runs [computeYChange] on what the window added to the
    text or removed from it, and completes as that does. *)
Context (toDeltaAt : Y.AbstractType -> World -> Completion * list YText.Op * World).
(** Whether [Y.typeListToArraySnapshot] lists anything for a text: whether
    the text holds a unit that the snapshot sees. *)
Context (hasContentAt : Y.AbstractType -> bool).

(** [new Y.Snapshot(prevSnapshot.ds, snapshot.sv)] *)
Definition window : YDoc.Snapshot :=
  {| YDoc.ds := YDoc.ds prevSnapshot; YDoc.sv := YDoc.sv snapshot |}.

(** [createTextNodesFromYText(text, schema, meta, snapshot, prevSnapshot,
    computeYChange)]: the deltas are taken before the [try], so that what
    [computeYChange] throws there is thrown by the call. *)
Definition createTextNodesFromYText (text : Y.AbstractType) (st : State) (w : World)
    : Completion * option (list PM.Node) * Y.AbstractType * State * World :=
  if Y.isXmlText text then
    match toDeltaAt text w with
    | (Normal, deltas, w) =>
        match textNodesOfDeltas schema deltas st with
        | (Some nodes, st) => (Normal, Some nodes, text, st, w)
        | (None, st) =>
            (* an error occured while creating the node. This is probably
               a result of a concurrent action. *)
            (Normal, None, Y.deleteType text, st, w)
        end
    | (c, _, w) => (c, None, text, st, w)
    end
  else (Throw TypeError, None, text, st, w).

(** The state of the loop over the children: the items of the element as
    they are now, the array [children], the state and the world. *)
Record Building : Type := {
  elItems : list Y.AbstractType;
  children : list Slot;
  bstate : State;
  bworld : World
}.

Section CreateChildren.
(** The recursive call. *)
Context (recur : Y.AbstractType -> State -> World ->
                 Completion * option PM.Node * Y.AbstractType * State * World).

(** [createNodeIfNotExists(el, schema, meta, snapshot, prevSnapshot,
    computeYChange)] *)
Definition createNodeIfNotExists (el : Y.AbstractType) (st : State) (w : World)
    : Completion * option Slot * Y.AbstractType * State * World :=
  match mapping (meta st) !! Y.ref el with
  | Some node => (Normal, Some node, el, st, w)
  | None =>
      if Y.isXmlElement el then
        let '(c, n, el, st, w) := recur el st w in
        (c, option_map OneNode n, el, st, w)
      else
        (* we are currently not handling hooks *)
        (Throw MethodUnimplemented, None, el, st, w)
  end.

(** [createChildren(type)], for the child at position [pos] among the
    items of the element. The test on the text that follows reads the
    document as it is now, not the snapshots. *)
Definition createChildren (pos : nat) (b : Building) : Completion * Building :=
  match elItems b !! pos with
  | None => (Normal, b)
  | Some type =>
      if Y.isXmlElement type then
        let '(c, n, type, st, w) := createNodeIfNotExists type (bstate b) (bworld b) in
        (c, {| elItems := <[pos := type]> (elItems b);
               children := match n with
                           | Some n => children b ++ [n]
                           | None => children b
                           end;
               bstate := st;
               bworld := w |})
      else
        (* If the next ytext exists and was created by us, move the
           content to the current ytext. *)
        let nextytext := elItems b !! (pos + 1) in
        let merge :=
          match nextytext with
          | Some next =>
              Y.isXmlText next && negb (Y.isDeleted next) &&
              match Y._item next with
              | Some i => Y.client (Y.id i) =? YDoc.clientID (doc (bstate b))
              | None => false
              end
          | None => false
          end in
        match merge, nextytext, Y.isXmlText type with
        | true, Some next, false => (Throw TypeError, b)
        | _, _, _ =>
            let '(type, items) :=
              match merge, nextytext with
              | true, Some next =>
                  let type :=
                    YText.applyDelta
                      (YText.Retain (YText.length type) None :: YText.toDelta next)
                      type in
                  (type, <[pos + 1 := Y.deleteType next]> (<[pos := type]> (elItems b)))
              | _, _ => (type, elItems b)
              end in
            (* now create the prosemirror text nodes *)
            let '(c, ns, type, st, w) :=
              createTextNodesFromYText type (bstate b) (bworld b) in
            (c, {| elItems := <[pos := type]> items;
                   children := match ns with
                               | Some ns => children b ++ map OneNode ns
                               | None => children b
                               end;
                   bstate := st;
                   bworld := w |})
        end
  end.

(** [array.forEach(createChildren)] over the positions of the children. *)
Fixpoint forEachChild (positions : list nat) (b : Building) : Completion * Building :=
  match positions with
  | [] => (Normal, b)
  | pos :: positions' =>
      match createChildren pos b with
      | (Normal, b) => forEachChild positions' b
      | (c, b) => (c, b)
      end
  end.
End CreateChildren.

(** The positions, among all the items, of the children that
    [Y.typeListToArraySnapshot(el, new Y.Snapshot(prevSnapshot.ds,
    snapshot.sv))] returns. *)
Definition listedPositions (l : list Y.AbstractType) : list nat :=
  List.filter (fun pos => match l !! pos with
                          | Some c =>
                              match Y._item c with
                              | Some i => YDoc.isVisible i window
                              | None => false
                              end
                          | None => false
                          end) (seq 0 (length l)).

(** [computeYChange ? computeYChange(type, id) : { type }] *)
Definition ychange (type : string) (id : Y.ID) (w : World)
    : Completion * Js.value * World :=
  match computeYChange with
  | Some compute => compute type id w
  | None => (Normal, Js.Obj None [("type", Js.Str type)], w)
  end.

(** The body of the [try] in [createNodeFromYElement], up to the node that
    [schema.node] returns; [None] where something in it throws. *)
Definition tryCreateNode (el : Y.AbstractType) (children : list Slot) (st : State)
    (w : World) : option PM.Node * World :=
  match el, Y._item el with
  | Y.XmlHook _ _, _ | Y.XmlFragment _ _ None _ _, _ =>
      (None, w)                          (* no [getAttributes] *)
  | _, None => (None, w)                 (* [isVisible] reads the item *)
  | _, Some item =>
      let attrs := getAttributesAt el in
      let '(c, attrs, w) :=
        if negb (isVisible item (Some snapshot)) then
          let '(c, v, w) := ychange "removed" (Y.id item) w in
          (c, Js.set "ychange" v attrs, w)
        else if negb (isVisible item (Some prevSnapshot)) then
          let '(c, v, w) := ychange "added" (Y.id item) w in
          (c, Js.set "ychange" v attrs, w)
        else (Normal, attrs, w) in
      match c with
      | Normal =>
          (match splitAttributes schema (Js.forIn attrs) [] [] with
           | Some (nodeAttrs, nodeMarks) =>
               match Y.nodeName el, asNodes children with
               | Some name, Some nodes =>
                   PM.node schema name nodeAttrs nodes nodeMarks (nextNode st)
               | _, _ => None
               end
           | None => None
           end, w)
      | _ => (None, w)
      end
  end.

(** [createNodeFromYElement(el, schema, meta, snapshot, prevSnapshot,
    computeYChange)]: how the call completes, what it returns ([None] is
    [null]), the element, the state and the world as the call leaves
    them. [fuel] bounds the depth of the recursion. *)
Fixpoint createNodeFromYElement (fuel : nat) (el : Y.AbstractType) (st : State)
    (w : World) {struct fuel}
    : Completion * option PM.Node * Y.AbstractType * State * World :=
  match fuel with
  | 0 => (OutOfFuel, None, el, st, w)
  | S fuel' =>
      if Y.isXmlText el && hasContentAt el then
        (* the units of a text are listed, and they are no types *)
        (Throw TypeError, None, el, st, w)
      else
        match forEachChild (createNodeFromYElement fuel')
                (listedPositions (Y.items el))
                {| elItems := Y.items el; children := [];
                   bstate := st; bworld := w |} with
        | (Normal, b) =>
            let el := Y.withItems (elItems b) el in
            let st := bstate b in
            match tryCreateNode el (children b) st (bworld b) with
            | (Some node, w) =>
                let st := {| meta := meta st; doc := doc st;
                             nextNode := S (nextNode st) |} in
                let st := mappingSet el (OneNode node) st in
                (Normal, Some node, el, st, w)
            | (None, w) =>
                (* catch: an error occured while creating the node. This
                   is probably a result of a concurrent action. *)
                match Y._item el with
                | Some _ =>
                    let el' := Y.deleteType el in
                    let st := mappingDelete el st in
                    (Normal, None, el', st, w)
                | None => (Throw TypeError, None, el, st, w)
                end
            end
        | (c, b) => (c, None, Y.withItems (elItems b) el, bstate b, bworld b)
        end
  end.

(** ** [_renderSnapshot] *)

(** The call of [createNodeFromYElement] in [_renderSnapshot]: it builds
    with a mapping of its own, [{ mapping: new Map(), isOMark: new Map() }],
    which is dropped afterwards. *)
Definition build (fuel : nat) (t : Y.AbstractType) (st : State) (w : World)
    : Completion * option PM.Node * Y.AbstractType * State * World :=
  let '(c, n, t, st', w) :=
    createNodeFromYElement fuel t
      {| meta := createEmptyMeta; doc := doc st; nextNode := nextNode st |} w in
  (c, n, t, {| meta := meta st; doc := doc st'; nextNode := nextNode st' |}, w).

(** The function mapped over the top-level types in [_renderSnapshot]. *)
Definition renderTopLevel (fuel : nat) (t : Y.AbstractType) (st : State) (w : World)
    : Completion * option PM.Node * Y.AbstractType * State * World :=
  match Y._item t with
  | Some item =>
      if negb (Y.deleted item) || isVisible item (Some snapshot) ||
         isVisible item (Some prevSnapshot)
      then build fuel t st w
      else
        (* No need to render elements that are not visible by either
           snapshot. *)
        (Normal, None, t, st, w)
  | None => (Throw TypeError, None, t, st, w)
  end.

(** What [array.map(f).filter((n) => n !== null)] leaves, for a function
    [f] of the kind above: how it completes, the nodes, the types as the
    calls leave them, the state and the world. *)
Record Rendered : Type := {
  completion : Completion;
  content : list PM.Node;
  types : list Y.AbstractType;
  rstate : State;
  rworld : World
}.

(** What a call throws ends the loop. *)
Fixpoint mapTypes
    (f : Y.AbstractType -> State -> World ->
         Completion * option PM.Node * Y.AbstractType * State * World)
    (ts : list Y.AbstractType) (st : State) (w : World) : Rendered :=
  match ts with
  | [] => {| completion := Normal; content := []; types := [];
             rstate := st; rworld := w |}
  | t :: ts' =>
      match f t st w with
      | (Normal, n, t, st, w) =>
          let r := mapTypes f ts' st w in
          {| completion := completion r;
             content := match n with
                        | Some n => n :: content r
                        | None => content r
                        end;
             types := t :: types r;
             rstate := rstate r;
             rworld := rworld r |}
      | (c, _, t, st, w) =>
          {| completion := c; content := []; types := t :: ts';
             rstate := st; rworld := w |}
      end
  end.

(** [fragmentContent] of [_renderSnapshot]:
    [Y.typeListToArraySnapshot(historyType, new Y.Snapshot(prevSnapshot.ds,
    snapshot.sv)).map(...).filter((n) => n !== null)] *)
Definition fragmentContent (fuel : nat) (historyType : Y.AbstractType)
    (st : State) (w : World) : Rendered :=
  mapTypes (renderTopLevel fuel)
    (YDoc.typeListToArraySnapshot historyType window) st w.
End Rendering.

End AtSnapshot.

(** ** Restoring the selection *)

(** A selection of the editor, as the plugin builds it:
    [new AllSelection(tr.doc)], [NodeSelection.create(tr.doc, anchor)] with
    the anchor it is given ([None] is [null]), and
    [TextSelection.between(tr.doc.resolve(anchor), tr.doc.resolve(head))]. *)
Inductive Selection : Type :=
| AllSelection
| NodeSelection (anchor : option nat)
| TextSelection (anchor head : nat).

(** A transaction of the editor, as far as [restoreRelativeSelection]
    changes it: the selection that [tr.setSelection] was called with, or
    [None] when it was not called and the selection stays the default. *)
Record Transaction : Type := { selectionSet : option Selection }.

Definition setSelection (sel : Selection) (tr : Transaction) : Transaction :=
  {| selectionSet := Some sel |}.

Section RestoreSelection.
Context {RelativePosition : Type}.
(** [relativePositionToAbsolutePosition(binding.doc, binding.type, relPos,
    binding.mapping)] of [src/lib.js], a parameter here; [None] is
    [null]. *)
Context (relativePositionToAbsolutePosition : RelativePosition -> option nat).

(** What [getRelativeSelection] returns: the [jsonID] of the selection and
    its two ends as relative positions ([None] is [null]). *)
Record RelativeSelection : Type := {
  type : string;
  anchor : option RelativePosition;
  head : option RelativePosition
}.

(** [restoreRelativeSelection(tr, relSel, binding)]; [relSel] may be
    [null]. *)
Definition restoreRelativeSelection (tr : Transaction)
    (relSel : option RelativeSelection) : Transaction :=
  match relSel with
  | Some relSel =>
      match anchor relSel, head relSel with
      | Some relAnchor, Some relHead =>
          if String.eqb (type relSel) "all" then
            setSelection AllSelection tr
          else if String.eqb (type relSel) "node" then
            let anchor := relativePositionToAbsolutePosition relAnchor in
            setSelection (NodeSelection anchor) tr
          else
            let anchor := relativePositionToAbsolutePosition relAnchor in
            let head := relativePositionToAbsolutePosition relHead in
            match anchor, head with
            | Some anchor, Some head =>
                setSelection (TextSelection anchor head) tr
            | _, _ => tr
            end
      | _, _ => tr
      end
  | None => tr
  end.
End RestoreSelection.

End Sync.

(* ===================================================================== *)
(** * The plugin around the synchronization *)
(* ===================================================================== *)

(** ** The colours of the users *)

Module Colors.

Section UserColors.
(** A colour definition is an object ([{ light, dark }]); all the plugin
    does with it is to hand it on and to compare it by identity, which is
    the equality of this type. *)
Context {ColorDef : Type} `{EqDecision ColorDef}.
(** The keys of the [Map] [colorMapping]: the descriptions of the users,
    which are strings, or whatever else stands for a user ([null] where
    the user is not known). *)
Context {User : Type} `{EqDecision User} `{!Countable User}.

(** [random.oneOf(arr)] of lib0: [arr[floor(rand() * arr.length)]], where
    [rand n] is the index drawn for an array of length [n]; [None] is
    [undefined]. *)
Definition oneOf (rand : nat -> nat) (arr : list ColorDef) : option ColorDef :=
  arr !! rand (length arr).

(** The values of the [Map] [colorMapping]. A value may be [undefined]. *)
Definition usedColors (colorMapping : gmap User (option ColorDef))
    : list (option ColorDef) :=
  (map_to_list colorMapping).*2.

(** [getUserColor(colorMapping, colors, user)]: the colour, and the mapping
    as the call leaves it. *)
Definition getUserColor (rand : nat -> nat)
    (colorMapping : gmap User (option ColorDef))
    (colors : list ColorDef) (user : User)
    : option ColorDef * gmap User (option ColorDef) :=
  match colorMapping !! user with
  | None =>
      let colors :=
        if size colorMapping <? length colors then
          let usedColors := usedColors colorMapping in
          List.filter (fun color => negb (bool_decide (Some color ∈ usedColors))) colors
        else colors in
      let colorMapping := <[user := oneOf rand colors]> colorMapping in
      (default None (colorMapping !! user), colorMapping)
  | Some color => (color, colorMapping)
  end.
End UserColors.

End Colors.

(** ** The state of the plugin *)

Module PluginState.

(** [!!v]; [None] is [undefined]. *)
Definition truthy (v : option Js.value) : bool :=
  match v with
  | None | Some Js.Null => false
  | Some (Js.Bool b) => b
  | Some (Js.Num z) => negb (Z.eqb z 0)
  | Some (Js.Str s) => negb (String.eqb s "")
  | Some (Js.Obj _ _) => true
  end.

(** [v == null]: [null] or [undefined]. *)
Definition nullish (v : option Js.value) : bool :=
  match v with
  | None | Some Js.Null => true
  | _ => false
  end.

(** The [editable] prop of the plugin, on the state of the plugin. *)
Definition editable (syncState : Js.object) : bool :=
  nullish (Js.get syncState "snapshot") && nullish (Js.get syncState "prevSnapshot").

(** [apply(tr, pluginState)] of the state of the plugin. [change] is
    [tr.getMeta(ySyncPluginKey)] and [addToHistory] is
    [tr.getMeta('addToHistory')] ([None] is [undefined]); [viewAttached]
    is [binding.prosemirrorView !== null]. The result is the state, and
    whether a rerender is handed to [eventloop.timeout]. *)
Definition apply (viewAttached : bool) (change : option Js.object)
    (addToHistory : option Js.value) (pluginState : Js.object)
    : Js.object * bool :=
  let pluginState :=
    match change with
    | Some change =>
        fold_left (fun pluginState kv => Js.set (fst kv) (snd kv) pluginState)
                  change (Js.assign [] pluginState)
    | None => pluginState
    end in
  let pluginState :=
    Js.set "addToHistory"
      (Js.Bool (negb (Js.strictEqU addToHistory (Some (Js.Bool false)))))
      pluginState in
  (* always set isChangeOrigin. If undefined, this is not change origin. *)
  let pluginState :=
    Js.set "isChangeOrigin"
      (Js.Bool match change with
               | Some change => truthy (Js.get change "isChangeOrigin")
               | None => false
               end) pluginState in
  let pluginState :=
    Js.set "isUndoRedoOperation"
      (Js.Bool match change with
               | Some change =>
                   truthy (Js.get change "isChangeOrigin") &&
                   truthy (Js.get change "isUndoRedoOperation")
               | None => false
               end) pluginState in
  (pluginState,
   viewAttached &&
   match change with
   | Some change =>
       (* snapshot changed, rerender next *)
       negb (nullish (Js.get change "snapshot")) ||
       negb (nullish (Js.get change "prevSnapshot"))
   | None => false
   end).

(** ** The states of the plugin as objects

    [apply] copies the state when the transaction carries a change, and
    the rerender that it hands to [eventloop.timeout] keeps the object
    that [apply] returned: which object a write reaches matters. The
    editor is modelled as far as that goes: the objects that were made as
    states of the plugin, under their identities, the identity of the one
    that the state of the editor holds now
    ([ySyncPluginKey.getState(view.state)]), and the next identity. *)
Record Editor : Type := {
  objects : gmap nat Js.object;
  current : nat;
  fresh : nat
}.

(** [view.dispatch(tr)], as far as the plugin goes: the new state of the
    editor holds what [apply] returns for the state it held. With a change
    that is [Object.assign({}, pluginState)], a new object; without one,
    the same object, written in place. *)
Definition dispatch (viewAttached : bool) (change : option Js.object)
    (addToHistory : option Js.value) (ed : Editor) : Editor :=
  match objects ed !! current ed with
  | Some pluginState =>
      let after := (apply viewAttached change addToHistory pluginState).1 in
      match change with
      | Some _ =>
          {| objects := <[fresh ed := after]> (objects ed);
             current := fresh ed;
             fresh := S (fresh ed) |}
      | None =>
          {| objects := <[current ed := after]> (objects ed);
             current := current ed;
             fresh := fresh ed |}
      end
  | None => ed
  end.

(** The change of the transaction that [_renderSnapshot] dispatches,
    [{ isChangeOrigin: true }]; the transaction is made with [this._tr],
    which sets [addToHistory] to [false]. It names no snapshot, so [apply]
    hands no further rerender to [eventloop.timeout] for it. *)
Definition renderChange : Js.object := [("isChangeOrigin", Js.Bool true)].

(** [_typeChanged(events, transaction)], while the mutex of the binding is
    taken and for events that are not empty: the observer of the shared
    type runs it when a transaction inside [this.mux] has changed the
    shared document. While a snapshot is shown it calls
    [this.renderSnapshot(syncState.snapshot, syncState.prevSnapshot)],
    which dispatches the two snapshots again, the empty snapshot (a new
    object) in the place of a previous snapshot that is not truthy;
    otherwise all it does is inside [this.mux], and is passed over. A
    snapshot that is [undefined] is written as [null]: the plugin tells
    the two apart nowhere. *)
Definition typeChanged (viewAttached : bool) (ed : Editor) : Editor :=
  if negb viewAttached then ed
  else
    match objects ed !! current ed with
    | Some syncState =>
        if negb (nullish (Js.get syncState "snapshot")) ||
           negb (nullish (Js.get syncState "prevSnapshot"))
        then
          (* drop out if snapshot is active *)
          let snapshot := default Js.Null (Js.get syncState "snapshot") in
          let prevSnapshot :=
            if truthy (Js.get syncState "prevSnapshot")
            then default Js.Null (Js.get syncState "prevSnapshot")
            else Js.Obj None [] in
          dispatch viewAttached
            (Some [("snapshot", snapshot); ("prevSnapshot", prevSnapshot)])
            (Some (Js.Bool false)) ed
        else ed
    | None => ed
    end.

(** The rerender that [apply] hands to [eventloop.timeout], when it runs.
    [change] and [pluginState] are what its closure holds: the change of
    the transaction, and the identity of the object that [apply] returned
    for it. [eventloop.timeout] runs the rerender when nothing else runs,
    so the mutex of the binding is free and [_renderSnapshot] renders.
    Three things are given from outside: [completes], whether the
    rendering returns rather than throws (it dispatches its transaction as
    its last step); [changes], whether it has changed the shared document
    (it deletes what it cannot build), and [written], whether
    [_prosemirrorChanged], which writes the shared document from the
    editor after a restore, changes the shared document. After each
    change of the shared document its observer runs. The result is the
    editor as the rerender leaves it. *)
Definition rerender (viewAttached completes changes written : bool)
    (change : Js.object) (pluginState : nat) (ed : Editor) : Editor :=
  if negb viewAttached then ed
  else
    (* [_renderSnapshot]: the transaction of the document, and its end *)
    let ed :=
      if completes
      then dispatch viewAttached (Some renderChange) (Some (Js.Bool false)) ed
      else ed in
    let ed := if changes then typeChanged viewAttached ed else ed in
    if negb completes then ed
    else if nullish (Js.get change "restore") then ed
    else
      (* reset to current prosemirror state *)
      let ed :=
        {| objects :=
             alter (fun o =>
                      Js.remove "prevSnapshot"
                        (Js.remove "snapshot" (Js.remove "restore" o)))
                   pluginState (objects ed);
           current := current ed;
           fresh := fresh ed |} in
      if written then typeChanged viewAttached ed else ed.

End PluginState.

(** ** The binding *)

Module Binding.

Import Sync.

(** [state.selection] of the editor: its [jsonID] and its two ends. *)
Record EditorSelection : Type := {
  jsonID : string;
  selAnchor : nat;
  selHead : nat
}.

Section GetRelativeSelection.
Context {RelativePosition : Type}.
(** [absolutePositionToRelativePosition(pos, pmbinding.type,
    pmbinding.mapping)] of [src/lib.js], a parameter here; [None] is
    [null]. *)
Context (absolutePositionToRelativePosition : nat -> option RelativePosition).

(** [getRelativeSelection(pmbinding, state)] *)
Definition getRelativeSelection (selection : EditorSelection)
    : @RelativeSelection RelativePosition :=
  {| type := jsonID selection;
     anchor := absolutePositionToRelativePosition (selAnchor selection);
     head := absolutePositionToRelativePosition (selHead selection) |}.
End GetRelativeSelection.

(** [Y.createSnapshot(Y.createDeleteSet(), new Map())] *)
Definition emptySnapshot : YDoc.Snapshot := {| YDoc.ds := ∅; YDoc.sv := ∅ |}.

(** The previous snapshot that [renderSnapshot(snapshot, prevSnapshot)]
    hands on: the empty one when it is given none. *)
Definition renderSnapshotPrev (prevSnapshot : option YDoc.Snapshot) : YDoc.Snapshot :=
  match prevSnapshot with
  | Some prev => prev
  | None => emptySnapshot
  end.

End Binding.

(** ** [_renderSnapshot] with what the plugin hands to it *)

Module Render.

Import Sync.

(** [pluginState.permanentUserData], as far as [computeYChange] calls it:
    the user of a client and the user who deleted an id, [None] where Yjs
    returns [null]. *)
Record PermanentUserData : Type := {
  getUserByClientId : nat -> option string;
  getUserByDeletedId : Y.ID -> option string
}.

Section RenderSnapshot.
Context (schema : PM.Schema).
Context {ColorDef : Type} `{EqDecision ColorDef}.
(** [random.oneOf] and the colour as a value of JavaScript ([None] is
    [undefined]): see [Colors]. *)
Context (rand : nat -> nat) (colorValue : option ColorDef -> Js.value).
(** [pluginState.permanentUserData], which is [null] unless the plugin is
    given one, and [pluginState.colors]. *)
Context (pud : option PermanentUserData) (colors : list ColorDef).

(** [computeYChange(type, id)] of [_renderSnapshot]; what it changes is
    [pluginState.colorMapping]. Without user data, [pud] is [null] and the
    call throws. *)
Definition computeYChange (type : string) (id : Y.ID)
    (colorMapping : gmap (option string) (option ColorDef))
    : Completion * Js.value * gmap (option string) (option ColorDef) :=
  match pud with
  | Some pud =>
      let user :=
        if String.eqb type "added"
        then getUserByClientId pud (Y.client id)
        else getUserByDeletedId pud id in
      let '(color, colorMapping) :=
        Colors.getUserColor rand colorMapping colors user in
      (Normal,
       Js.Obj None
         [("user", match user with Some u => Js.Str u | None => Js.Null end);
          ("type", Js.Str type);
          ("color", colorValue color)],
       colorMapping)
  | None => (Throw TypeError, Js.Null, colorMapping)
  end.

Context (snapshot prevSnapshot : YDoc.Snapshot).
Context (getAttributesAt : Y.AbstractType -> Js.object).
Context (toDeltaAt : Y.AbstractType -> gmap (option string) (option ColorDef) ->
                     Completion * list YText.Op *
                     gmap (option string) (option ColorDef)).
Context (hasContentAt : Y.AbstractType -> bool).

(** [fragmentContent] of [_renderSnapshot], which hands its
    [computeYChange] to every call. *)
Definition fragmentContent (fuel : nat) (historyType : Y.AbstractType)
    (st : State) (colorMapping : gmap (option string) (option ColorDef))
    : AtSnapshot.Rendered :=
  AtSnapshot.fragmentContent schema snapshot prevSnapshot (Some computeYChange)
    getAttributesAt toDeltaAt hasContentAt fuel historyType st colorMapping.

(** The calls of [createNodeFromYElement] alone, on given types. *)
Definition buildAll (fuel : nat) (ts : list Y.AbstractType)
    (st : State) (colorMapping : gmap (option string) (option ColorDef))
    : AtSnapshot.Rendered :=
  AtSnapshot.mapTypes
    (AtSnapshot.build schema snapshot prevSnapshot (Some computeYChange)
       getAttributesAt toDeltaAt hasContentAt fuel)
    ts st colorMapping.
End RenderSnapshot.

End Render.

(* ===================================================================== *)
(** * Measures *)
(* ===================================================================== *)

Module Measure.

(** The height of a shared type: the depth that the recursion of
    [updateYFragment] and of [createNodeFromYElement] can reach in it. *)
Fixpoint height (t : Y.AbstractType) : nat :=
  match t with
  | Y.XmlFragment _ _ _ _ l => S (fold_right (fun c h => Nat.max (height c) h) 0 l)
  | _ => 0
  end.

(** An element as the plugin expects it: it has an item, and so has
    everything below it, which is made of elements and texts only. *)
Fixpoint wellKinded (t : Y.AbstractType) : bool :=
  match t with
  | Y.XmlFragment _ (Some _) (Some _) _ l => forallb wellKinded l
  | Y.XmlText _ (Some _) _ => true
  | _ => false
  end.

End Measure.

(* ===================================================================== *)
(** * A schema to run the plugin on *)
(* ===================================================================== *)

(** A small schema in the manner of prosemirror-schema-basic, built the way
    prosemirror-model builds the nodes of a schema: attributes are
    completed with their defaults, neighbouring text nodes with the same
    marks are joined, marks are ordered by the rank of their type, and
    content that the type does not allow is refused. *)
Module Basic.

Record NodeSpec : Type := {
  nsName : string;
  (** the declared attributes, each with its default if it has one *)
  nsAttrs : list (string * option Js.value);
  (** the content expression, as a test on the names of the children *)
  nsContent : list string -> bool
}.

Record MarkSpec : Type := {
  msName : string;
  msAttrs : list (string * option Js.value);
  (** whether the mark type excludes itself *)
  msExcludesSelf : bool
}.

(** [computeAttrs(attrs, given)]; [None] where it throws. *)
Fixpoint computeAttrs (decl : list (string * option Js.value)) (given : Js.object)
    : option Js.object :=
  match decl with
  | [] => Some []
  | (name, dflt) :: decl' =>
      match (match Js.get given name with Some v => Some v | None => dflt end),
            computeAttrs decl' given with
      | Some v, Some rest => Some ((name, v) :: rest)
      | _, _ => None
      end
  end.

Definition sameMark (a b : PM.Mark) : bool :=
  String.eqb (PM.markName a) (PM.markName b) &&
  Js.equalityDeep (Js.Obj None (PM.markAttrs a)) (Js.Obj None (PM.markAttrs b)).

Fixpoint sameMarks (a b : list PM.Mark) : bool :=
  match a, b with
  | [], [] => true
  | x :: a', y :: b' => sameMark x y && sameMarks a' b'
  | _, _ => false
  end.

(** [Fragment.from(array)]: a text node is joined to the text node before
    it when both have the same marks. *)
Fixpoint joinTexts (l : list PM.Node) : list PM.Node :=
  match l with
  | [] => []
  | n :: l' =>
      match n, joinTexts l' with
      | PM.Text r t mks, PM.Text r' t' mks' :: rest =>
          if sameMarks mks mks' then PM.Text r (t +:+ t') mks :: rest
          else n :: PM.Text r' t' mks' :: rest
      | _, rest => n :: rest
      end
  end.

Section WithSpecs.
Context (nodes : list NodeSpec) (marks : list MarkSpec).

Fixpoint rankFrom (i : nat) (l : list MarkSpec) (name : string) : nat :=
  match l with
  | [] => i
  | ms :: l' => if String.eqb (msName ms) name then i else rankFrom (S i) l' name
  end.

Definition rank (mk : PM.Mark) : nat := rankFrom 0 marks (PM.markName mk).

Fixpoint insertByRank (mk : PM.Mark) (l : list PM.Mark) : list PM.Mark :=
  match l with
  | [] => [mk]
  | x :: l' => if rank mk <? rank x then mk :: x :: l'
               else x :: insertByRank mk l'
  end.

(** [Mark.setFrom(marks)]: a stable sort by rank. *)
Definition setFrom (l : list PM.Mark) : list PM.Mark :=
  fold_left (fun acc mk => insertByRank mk acc) l [].

Definition node (name : string) (attrs : Js.object) (content : list PM.Node)
    (mks : list PM.Mark) (ref : nat) : option PM.Node :=
  match List.find (fun ns => String.eqb (nsName ns) name) nodes with
  | Some ns =>
      let content := joinTexts content in
      if nsContent ns (map PM.typeName content) then
        match computeAttrs (nsAttrs ns) attrs with
        | Some attrs => Some (PM.Elem ref name attrs content (setFrom mks))
        | None => None
        end
      else None
  | None => None
  end.

Definition textNode (text : string) (mks : list PM.Mark) (ref : nat)
    : option PM.Node :=
  if String.eqb text "" then None else Some (PM.Text ref text (setFrom mks)).

Definition mark (name : string) (attrs : option Js.value) : option PM.Mark :=
  match List.find (fun ms => String.eqb (msName ms) name) marks with
  | Some ms =>
      let given := match attrs with
                   | Some (Js.Obj _ fields) => fields
                   | _ => []
                   end in
      match computeAttrs (msAttrs ms) given with
      | Some attrs => Some {| PM.markName := name; PM.markAttrs := attrs |}
      | None => None
      end
  | None => None
  end.

Definition excludes (a b : string) : bool :=
  String.eqb a b &&
  match List.find (fun ms => String.eqb (msName ms) a) marks with
  | Some ms => msExcludesSelf ms
  | None => false
  end.

Definition make : PM.Schema :=
  {| PM.node := node; PM.textNode := textNode; PM.mark := mark;
     PM.excludes := excludes |}.
End WithSpecs.

Definition isBlock (name : string) : bool :=
  String.eqb name "paragraph" || String.eqb name "blockquote".

(** doc: block+; paragraph: text*; blockquote: block+. The marks: strong
    and link exclude themselves, comment does not. *)
Definition schema : PM.Schema :=
  make
    [ {| nsName := "doc"; nsAttrs := [];
         nsContent := fun l => negb (length l =? 0) && forallb isBlock l |};
      {| nsName := "paragraph"; nsAttrs := [("align", Some Js.Null)];
         nsContent := forallb (String.eqb "text") |};
      {| nsName := "blockquote"; nsAttrs := [];
         nsContent := fun l => negb (length l =? 0) && forallb isBlock l |} ]
    [ {| msName := "link"; msAttrs := [("href", None)]; msExcludesSelf := true |};
      {| msName := "strong"; msAttrs := []; msExcludesSelf := true |};
      {| msName := "comment"; msAttrs := [("id", None)]; msExcludesSelf := false |} ].

(** A stand-in for [hashOfJSON]: eight units of the base64 alphabet that
    depend on the mark (here: on its first attribute, when that is a small
    number). *)
Definition hashOfJSON (json : Js.value) : string :=
  match json with
  | Js.Obj _ (_ :: ("attrs", Js.Obj _ ((_, Js.Num 1) :: _)) :: _) => "AAAAAAAB"
  | Js.Obj _ (_ :: ("attrs", Js.Obj _ ((_, Js.Num 2) :: _)) :: _) => "AAAAAAAC"
  | _ => "AAAAAAAA"
  end.

Definition emptyState : Sync.State :=
  {| Sync.meta := Sync.createEmptyMeta;
     Sync.doc := {| YDoc.clientID := 1; YDoc.nextClock := 0; YDoc.nextRef := 1 |};
     Sync.nextNode := 100 |}.

End Basic.


(* ===================================================================== *)
(** * The vocabulary of the properties *)
(* ===================================================================== *)

Module Spec.

Import Sync.

(** ** Mark names *)

Fixpoint allChars (p : ascii -> bool) (s : string) : bool :=
  match s with
  | EmptyString => true
  | String c s' => p c && allChars p s'
  end.

(** Two dashes followed by exactly eight units of the hash alphabet. *)
Definition isHashSuffix (s : string) : bool :=
  match s with
  | String a (String b rest) =>
      Ascii.eqb a "-" && Ascii.eqb b "-" &&
      (String.length rest =? 8) && allChars hashChar rest
  | _ => false
  end.

(** What is left of a string after its last line terminator. *)
Fixpoint afterLastLineTerminator (s : string) : string :=
  match s with
  | EmptyString => EmptyString
  | String c s' =>
      if Str.hasLineTerminator s then afterLastLineTerminator s' else s
  end.

(** The continuation that ends a match. *)
Definition accept : Regex.cont := fun _ caps => Some caps.

(** What follows the first group in [hashedMarkNameRegex]. *)
Definition tailRegex : Regex.regex :=
  Regex.Seq
    (Regex.Group 2
       (Regex.Seq (Regex.Lit "-")
          (Regex.Seq (Regex.Lit "-")
             (Regex.Repeat 8 (Regex.Class hashChar)))))
    Regex.Eos.

(** What the starred dot followed by [k] computes: the longest run of units
    that are not line terminators first, then shorter and shorter ones. *)
Fixpoint starDot (s : string) (k : string -> option (gmap nat string))
    : option (gmap nat string) :=
  match s with
  | EmptyString => k s
  | String c s' =>
      if Str.isLineTerminator c then k s
      else match starDot s' k with
           | Some r => Some r
           | None => k s
           end
  end.

(** What [hashedMarkNameRegex] does after its first group, on an input [s]
    of which [s'] is left. *)
Definition afterStar (s : string) : string -> option (gmap nat string) :=
  fun s' =>
    if isHashSuffix s'
    then Some (<[2 := s']>
                 (<[1 := Str.take (String.length s - String.length s') s]> ∅))
    else None.

(** The claim on [yattr2markname] as the specification has it: the whole
    prefix, whatever it holds. *)
Definition stripsHashOfEveryName : Prop :=
  forall pre suf, isHashSuffix suf = true -> yattr2markname (pre +:+ suf) = pre.

(** ** Child alignment *)

(** The two sides match at the positions [i] and [j]: by identity in the
    mapping, or structurally. *)
Definition matchAt (meta : BindingMetadata) (yChildren : list Y.AbstractType)
    (pChildren : list Slot) (i j : nat) : Prop :=
  exists y p, yChildren !! i = Some y /\ pChildren !! j = Some p /\
    (mappedIdentity (mapping meta !! Y.ref y) p = true \/
     equalYTypePNode y p = true).

(** ** [updateYFragment] *)

Abbreviation updater :=
  (Y.AbstractType -> PM.Node -> State -> Completion * Y.AbstractType * State).

(** The tag name of the element is not that of the node: the test that
    [updateYFragment] starts with. *)
Definition nameMismatch (y : Y.AbstractType) (p : PM.Node) : bool :=
  Y.isXmlElement y && negb (Y.nodeNameIs y (PM.typeName p)).

Definition neverThrowsOnMatch (recur : updater) : Prop :=
  forall y n st e, nameMismatch y n = false -> (recur y n st).1.1 <> Throw e.

Definition neverOutOfFuelOn (recur : updater) (ys : list Y.AbstractType) : Prop :=
  forall y n st, In y ys -> (recur y n st).1.1 <> OutOfFuel.

(** The claim on ties as the specification has it: the right side is
    updated, and only the right counter moves. *)
Definition tieUpdatesRight (schema : PM.Schema) (hashOfJSON : Js.value -> string)
    : Prop :=
  forall (recur : updater) yChildren pChildren s leftY leftN rightY rightN,
    yChildren !! nleft s = Some leftY ->
    pChildren !! nleft s = Some (OneNode leftN) ->
    yChildren !! (length yChildren - nright s - 1) = Some rightY ->
    pChildren !! (length pChildren - nright s - 1) = Some (OneNode rightN) ->
    Y.isXmlElement leftY = true -> matchNodeName leftY (OneNode leftN) = true ->
    Y.isXmlElement rightY = true -> matchNodeName rightY (OneNode rightN) = true ->
    foundMappedChild (computeChildEqualityFactor leftY leftN (meta (state s))) =
    foundMappedChild (computeChildEqualityFactor rightY rightN (meta (state s))) ->
    equalityFactor (computeChildEqualityFactor leftY leftN (meta (state s))) =
    equalityFactor (computeChildEqualityFactor rightY rightN (meta (state s))) ->
    updateStep schema hashOfJSON recur yChildren pChildren s =
    let '(c, rightY', st) := recur rightY rightN (state s) in
    (c, {| nleft := nleft s;
           nright := match c with Normal => nright s + 1 | _ => nright s end;
           fragment := putChild (length yChildren - nright s - 1) rightY' (fragment s);
           state := st |}).

(** ** Snapshots *)

(** The two snapshots are a window on the history of the document, as far
    as the item of [t] goes: the previous snapshot is not later than the
    current one, in what it has seen and in what it holds as deleted, and
    what the current one holds as deleted is deleted in the document. *)
Definition inWindowOrder (snapshot prevSnapshot : YDoc.Snapshot)
    (t : Y.AbstractType) : bool :=
  match Y._item t with
  | Some item =>
      match YDoc.sv prevSnapshot !! Y.client (Y.id item) with
      | Some c0 =>
          match YDoc.sv snapshot !! Y.client (Y.id item) with
          | Some c => c0 <=? c
          | None => false
          end
      | None => true
      end &&
      (negb (YDoc.isDeleted (YDoc.ds prevSnapshot) (Y.id item)) ||
       YDoc.isDeleted (YDoc.ds snapshot) (Y.id item)) &&
      (negb (YDoc.isDeleted (YDoc.ds snapshot) (Y.id item)) || Y.deleted item)
  | None => true
  end.

(** Visible under the current snapshot or under the previous one. *)
Definition visibleInWindow (snapshot prevSnapshot : YDoc.Snapshot)
    (t : Y.AbstractType) : bool :=
  match Y._item t with
  | Some item =>
      isVisible item (Some snapshot) || isVisible item (Some prevSnapshot)
  | None => false
  end.

(** Two renderings that differ at most in the types they list: types that
    are passed over are listed on one side and not on the other. *)
Definition sameRendering {World} (a b : @AtSnapshot.Rendered World) : Prop :=
  AtSnapshot.completion a = AtSnapshot.completion b /\
  AtSnapshot.content a = AtSnapshot.content b /\
  AtSnapshot.rstate a = AtSnapshot.rstate b /\
  AtSnapshot.rworld a = AtSnapshot.rworld b.

(** The claim on the window as the specification has it: whatever the two
    snapshots are, what is rendered is what [createNodeFromYElement] makes
    of the top-level types that are visible under one of them. *)
Definition rendersWhatEitherShows (schema : PM.Schema)
    {ColorDef : Type} `{EqDecision ColorDef}
    (rand : nat -> nat) (colorValue : option ColorDef -> Js.value)
    (pud : option Render.PermanentUserData) (colors : list ColorDef)
    (getAttributesAt : Y.AbstractType -> Js.object)
    (toDeltaAt : Y.AbstractType -> gmap (option string) (option ColorDef) ->
                 Completion * list YText.Op *
                 gmap (option string) (option ColorDef))
    (hasContentAt : Y.AbstractType -> bool) : Prop :=
  forall snapshot prevSnapshot fuel historyType st colorMapping,
    sameRendering
      (Render.fragmentContent schema rand colorValue pud colors snapshot
         prevSnapshot getAttributesAt toDeltaAt hasContentAt fuel historyType
         st colorMapping)
      (Render.buildAll schema rand colorValue pud colors snapshot prevSnapshot
         getAttributesAt toDeltaAt hasContentAt fuel
         (List.filter (visibleInWindow snapshot prevSnapshot) (Y.items historyType))
         st colorMapping).

(** ** Selections *)

(** The claim on the selection as the specification has it: whatever the
    kind, nothing is set when an end does not resolve. *)
Definition unresolvedLeavesDefault : Prop :=
  forall (resolve : nat -> option nat) tr (rs : RelativeSelection) a h,
    anchor rs = Some a -> head rs = Some h ->
    resolve a = None \/ resolve h = None ->
    restoreRelativeSelection resolve tr (Some rs) = tr.

(** ** Trees *)

Section TreeInduction.
Context (P : Y.AbstractType -> Prop).
Context (Hfrag : forall r i n a l, Forall P l -> P (Y.XmlFragment r i n a l)).
Context (Htext : forall r i spans, P (Y.XmlText r i spans)).
Context (Hhook : forall r i, P (Y.XmlHook r i)).

(** Induction on a shared type, with the property at hand for all the
    items of a fragment. *)
Fixpoint AbstractType_nested_ind (t : Y.AbstractType) : P t :=
  match t with
  | Y.XmlFragment r i n a l =>
      Hfrag r i n a l
        ((fix go (l : list Y.AbstractType) : Forall P l :=
            match l with
            | [] => @List.Forall_nil _ P
            | c :: l' =>
                @List.Forall_cons _ P c l' (AbstractType_nested_ind c) (go l')
            end) l)
  | Y.XmlText r i spans => Htext r i spans
  | Y.XmlHook r i => Hhook r i
  end.
End TreeInduction.

Definition maxHeight (l : list Y.AbstractType) : nat :=
  fold_right (fun c h => Nat.max (Measure.height c) h) 0 l.

Abbreviation builder :=
  (Y.AbstractType -> State -> Completion * option PM.Node * Y.AbstractType * State).

(** What the items of an element satisfy while its children are built:
    they stay below the height [h] and well-kinded. *)
Definition goodItem (h : nat) (c : Y.AbstractType) : Prop :=
  Measure.height c < h /\ Measure.wellKinded c = true.

Definition recurOk (h : nat) (recur : builder) : Prop :=
  forall el st, Y.isXmlElement el = true -> goodItem h el ->
    (recur el st).1.1.1 = Normal /\ goodItem h (recur el st).1.2.

Definition recurFuel (h : nat) (recur : builder) : Prop :=
  forall el st, Measure.height el < h ->
    (recur el st).1.1.1 <> OutOfFuel /\ Measure.height (recur el st).1.2 < h.

(** The loop over the children of [el], as [createNodeFromYElement] runs it
    at [S fuel], and what it leaves. *)
Definition builtChildren (schema : PM.Schema) (fuel : nat)
    (el : Y.AbstractType) (st : State) : Building :=
  (forEachChild schema (createNodeFromYElement schema fuel)
     (visiblePositions (Y.items el))
     {| elItems := Y.items el; children := []; bstate := st |}).2.


(** ** Texts *)

(** The text of a list of runs. *)
Definition plain (l : list Y.span) : string :=
  fold_right (fun sa str => fst sa +:+ str) "" l.


(** ** The forward conversion, as the source has it *)

(** [slots.map(f)], where [f] reads and writes the state. *)
Fixpoint mapState (f : Slot -> State -> Y.AbstractType * State)
    (slots : list Slot) (st : State) : list Y.AbstractType * State :=
  match slots with
  | [] => ([], st)
  | slot :: slots' =>
      let '(y, st) := f slot st in
      let '(ys, st) := mapState f slots' st in
      (y :: ys, st)
  end.

End Spec.

(* ===================================================================== *)
(** * Documents to run the plugin on *)
(* ===================================================================== *)

Module Example.

Import Sync.

Definition item (client clock : nat) : option Y.Item :=
  Some {| Y.id := {| Y.client := client; Y.clock := clock |}; Y.deleted := false |}.

Definition tombstone (client clock : nat) : option Y.Item :=
  Some {| Y.id := {| Y.client := client; Y.clock := clock |}; Y.deleted := true |}.

(** A shared paragraph that holds one text; [ref] and [ref + 1] are the
    identities of the two, the client that created them is [client]. *)
Definition yparagraph (ref client : nat) (s : string) : Y.AbstractType :=
  Y.XmlFragment ref (item client ref) (Some "paragraph") []
    [Y.XmlText (ref + 1) (item client (ref + 1)) [(s, [])]].

(** An editable paragraph that holds one text. *)
Definition paragraph (ref : nat) (s : string) : PM.Node :=
  PM.Elem ref "paragraph" [("align", Js.Null)] [PM.Text (ref + 1) s []] [].

Definition emptyParagraph (ref : nat) : PM.Node :=
  PM.Elem ref "paragraph" [("align", Js.Null)] [] [].

(** The shared document [a | b] and the editable documents [a | x | b]
    and [x | y]. *)
Definition ydoc : Y.AbstractType :=
  Y.XmlFragment 1 (item 1 1) (Some "doc") []
    [yparagraph 2 1 "a"; yparagraph 4 1 "b"].

Definition docWithInsertion : PM.Node :=
  PM.Elem 10 "doc" []
    [paragraph 11 "a"; paragraph 13 "x"; paragraph 15 "b"] [].

Definition docRewritten : PM.Node :=
  PM.Elem 20 "doc" [] [paragraph 21 "x"; paragraph 23 "y"] [].

(** The loop of [updateYFragment] on [ydoc] and [docRewritten], before its
    first iteration: nothing matches at either end. *)
Definition loopStart : Loop :=
  {| nleft := 0; nright := 0; fragment := ydoc;
     state := mappingSet ydoc (OneNode docRewritten) Basic.emptyState |}.

(** A paragraph inside a paragraph: content that the schema refuses. *)
Definition nestedParagraphs : Y.AbstractType :=
  Y.XmlFragment 30 (item 2 30) (Some "paragraph") [] [yparagraph 31 2 "a"].


(** A paragraph that holds three texts, all created by [client]. *)
Definition threeTexts (client : nat) : Y.AbstractType :=
  Y.XmlFragment 40 (item client 40) (Some "paragraph") []
    [Y.XmlText 41 (item client 41) [("ab", [])];
     Y.XmlText 42 (item client 42) [("cd", [])];
     Y.XmlText 43 (item client 43) [("ef", [])]].


(** A text with two marks of one type, which does not exclude itself. *)
Definition comment (n : Z) : PM.Mark :=
  {| PM.markName := "comment"; PM.markAttrs := [("id", Js.Num n)] |}.

Definition twoComments : PM.Node :=
  PM.Elem 50 "paragraph" [("align", Js.Null)]
    [PM.Text 51 "a" [comment 1; comment 2]] [].

(** The names under which [marksToAttributes] stores a comment, for a
    hash function, and the attributes of a text that carries the comments
    1 and 2 under the names [k1] and [k2]. *)
Definition commentKey (hashOfJSON : Js.value -> string) (n : Z) : string :=
  "comment" +:+ "--" +:+ hashOfJSON (PM.toJSON (comment n)).

Definition twoKeys (k1 k2 : string) : Js.object :=
  Js.set k2 (Js.Obj None [("id", Js.Num 2)])
    (Js.set k1 (Js.Obj None [("id", Js.Num 1)]) []).

(** A document whose texts carry at most one mark of a type. *)
Definition docMarked : PM.Node :=
  PM.Elem 52 "doc" []
    [PM.Elem 53 "paragraph" [("align", Js.Null)]
       [PM.Text 54 "hello " [];
        PM.Text 55 "world" [{| PM.markName := "strong"; PM.markAttrs := [] |}];
        PM.Text 56 "!" [comment 1]] [];
     emptyParagraph 57] [].

(** The state in which a node is built back: a mapping of its own. *)
Definition freshState : State :=
  {| meta := createEmptyMeta;
     doc := {| YDoc.clientID := 1; YDoc.nextClock := 100; YDoc.nextRef := 100 |};
     nextNode := 200 |}.

(** A history of four top-level types of client 1: one from before both
    snapshots, one that the window deletes, one that the window adds and
    deletes, and one from after both snapshots. *)
Definition history : Y.AbstractType :=
  Y.XmlFragment 60 None None []
    [Y.XmlFragment 61 (item 1 0) (Some "paragraph") [] [];
     Y.XmlFragment 62 (tombstone 1 1) (Some "paragraph") [] [];
     Y.XmlFragment 63 (tombstone 1 2) (Some "paragraph") [] [];
     Y.XmlFragment 64 (item 1 3) (Some "paragraph") [] []].

Definition prevSnapshot : YDoc.Snapshot :=
  {| YDoc.ds := ∅; YDoc.sv := {[ 1 := 2 ]} |}.

Definition snapshot : YDoc.Snapshot :=
  {| YDoc.ds := {[ 1 := [(1, 2)] ]}; YDoc.sv := {[ 1 := 3 ]} |}.

(** A history of two top-level types of client 1, and a snapshot that,
    after [prevSnapshot], has seen the second one added. *)
Definition historyAdded : Y.AbstractType :=
  Y.XmlFragment 60 None None []
    [Y.XmlFragment 61 (item 1 0) (Some "paragraph") [] [];
     Y.XmlFragment 65 (item 1 2) (Some "paragraph") [] []].

Definition snapshotAdded : YDoc.Snapshot :=
  {| YDoc.ds := ∅; YDoc.sv := {[ 1 := 3 ]} |}.

(** User data that knows one user, two colours (7 and 8), and a library
    whose types are now what they were under both snapshots. *)
Definition userData : Render.PermanentUserData :=
  {| Render.getUserByClientId := fun client => if client =? 1 then Some "ann" else None;
     Render.getUserByDeletedId := fun _ => Some "ann" |}.

Definition colorValue (color : option nat) : Js.value :=
  match color with
  | Some n => Js.Obj (Some n) []
  | None => Js.Null
  end.

Definition liveDelta (t : Y.AbstractType) (w : gmap (option string) (option nat))
    : Completion * list YText.Op * gmap (option string) (option nat) :=
  (Normal, YText.toDelta t, w).

Definition liveContent (t : Y.AbstractType) : bool :=
  negb (YText.length t =? 0).

(** [_renderSnapshot] on a history, in the state [freshState] and with no
    colour given yet. *)
Definition rendered (pud : option Render.PermanentUserData)
    (snapshot prevSnapshot : YDoc.Snapshot) (historyType : Y.AbstractType)
    : @AtSnapshot.Rendered (gmap (option string) (option nat)) :=
  Render.fragmentContent Basic.schema (fun n => n - 1) colorValue pud [7; 8]
    snapshot prevSnapshot Y.getAttributes liveDelta liveContent 2 historyType
    freshState ∅.

(** A selection of everything, and positions none of which resolves. *)
Definition allSelection : @RelativeSelection nat :=
  {| type := "all"; anchor := Some 0; head := Some 7 |}.

Definition rangeSelection : @RelativeSelection nat :=
  {| type := "text"; anchor := Some 0; head := Some 7 |}.

Definition nodeSelection : @RelativeSelection nat :=
  {| type := "node"; anchor := Some 0; head := Some 7 |}.

Definition resolveNothing : nat -> option nat := fun _ => None.

Definition resolveAll : nat -> option nat := fun pos => Some (pos + 1).

Definition untouched : Transaction := {| selectionSet := None |}.

(** A name with a line feed before its hash. *)
Definition nameWithLineFeed : string :=
  String "a" (String "010" "b--abcdefgh").

End Example.

(* ===================================================================== *)
(** * More vocabulary of the properties *)
(* ===================================================================== *)

Module Props.

Import Sync.

(** ** Normalized content *)

(** The nodes of a slot of the normalized content, in order. *)
Definition slotNodes (slot : Slot) : list PM.Node :=
  match slot with
  | TextNodes nodes => nodes
  | OneNode n => [n]
  end.

(** The slots are the maximal runs of text nodes and the other nodes one
    by one: an array holds text nodes, at least one; a single node is not
    a text; no array follows an array. *)
Fixpoint grouped (slots : list Slot) : bool :=
  match slots with
  | [] => true
  | TextNodes nodes :: rest =>
      negb (Nat.eqb (length nodes) 0) && forallb PM.isText nodes &&
      match rest with
      | TextNodes _ :: _ => false
      | _ => true
      end && grouped rest
  | OneNode n :: rest => negb (PM.isText n) && grouped rest
  end.

(** The mapping holds, for the child at [i] of the shared side, the very
    slot at [j] of the editable side. *)
Definition mappedAt (meta : BindingMetadata) (yChildren : list Y.AbstractType)
    (pChildren : list Slot) (i j : nat) : Prop :=
  exists y p, yChildren !! i = Some y /\ pChildren !! j = Some p /\
    mappedIdentity (mapping meta !! Y.ref y) p = true.

(** ** Shared types *)

(** What a shared type is apart from its children: its identity, its item,
    its node name and its attributes. *)
Definition shell (t : Y.AbstractType)
    : nat * option Y.Item * option string * Js.object :=
  (Y.ref t, Y._item t, Y.nodeName t, Y.getAttributes t).

(** The first loop of "update attributes", on the attributes alone. *)
Definition setStep (yDomAttrs : Js.object) (acc : Js.object)
    (kv : string * Js.value) : Js.object :=
  if negb (Js.isNull (snd kv)) then
    if negb (Js.strictEqU (Js.get yDomAttrs (fst kv)) (Some (snd kv))) &&
       negb (String.eqb (fst kv) "ychange")
    then Js.set (fst kv) (snd kv) acc
    else acc
  else Js.remove (fst kv) acc.

(** The second loop. *)
Definition pruneStep (attrs : Js.object) (acc : Js.object)
    (kv : string * Js.value) : Js.object :=
  match Js.get attrs (fst kv) with
  | None => Js.remove (fst kv) acc
  | Some _ => acc
  end.

(** ** Texts and marks *)

(** The text of an array of text nodes: [ptexts.map(p => p.text).join('')] *)
Definition joinedText (ptexts : list PM.Node) : string :=
  fold_right (fun p joined => default "" (PM.text p) +:+ joined) "" ptexts.

(** The name under which [marksToAttributes] stores a mark. *)
Definition markKey (schema : PM.Schema) (hashOfJSON : Js.value -> string)
    (mk : PM.Mark) : string :=
  if negb (PM.excludes schema (PM.markName mk) (PM.markName mk))
  then PM.markName mk +:+ "--" +:+ hashOfJSON (PM.toJSON mk)
  else PM.markName mk.

(** What [meta.isOMark] holds is what the schema says. *)
Definition cacheAgrees (schema : PM.Schema) (meta : BindingMetadata) : Prop :=
  forall name b, isOMark meta !! name = Some b ->
    b = negb (PM.excludes schema name name).

(** A mark name that [yattr2markname] gives back from either of its
    stored forms: it holds no line terminator and does not itself end in
    a hash. *)
Definition plainName (name : string) : Prop :=
  Str.hasLineTerminator name = false /\
  forall pre suf, name = pre +:+ suf -> Spec.isHashSuffix suf = false.

(** The attributes that [marksToAttributes] makes of marks, when the
    names it stores them under are pairwise different. *)
Definition markAttributes (schema : PM.Schema) (hashOfJSON : Js.value -> string)
    (marks : list PM.Mark) : Js.object :=
  map (fun mk => (markKey schema hashOfJSON mk, Js.Obj None (PM.markAttrs mk)))
      (List.filter (fun mk => negb (String.eqb (PM.markName mk) "ychange")) marks).

(** ** The state of the plugin *)

(** The keys that [apply] always writes. *)
Definition isFlag (k : string) : bool :=
  String.eqb k "addToHistory" || String.eqb k "isChangeOrigin" ||
  String.eqb k "isUndoRedoOperation".

(** An editor in order: the state it holds is among its objects and has
    pairwise different keys, and no object has an identity that is still
    to come. *)
Definition inOrder (ed : PluginState.Editor) (st : Js.object) : Prop :=
  PluginState.objects ed !! PluginState.current ed = Some st /\
  NoDup (Js.keys st) /\
  forall n, PluginState.fresh ed <= n -> PluginState.objects ed !! n = None.

(** What a snapshot that is shown consists of, as far as the plugin reads
    it: the field [restore], whether there is a snapshot, and whether the
    editor is editable. *)
Definition showsAs (st st' : Js.object) : Prop :=
  Js.get st' "restore" = Js.get st "restore" /\
  PluginState.nullish (Js.get st' "snapshot") =
    PluginState.nullish (Js.get st "snapshot") /\
  PluginState.editable st' = PluginState.editable st.

End Props.

(* ===================================================================== *)
(** * More documents to run the plugin on *)
(* ===================================================================== *)

Module Sample.

Import Sync.

(** The editable document [a | b]: what [Example.ydoc] was made of. *)
Definition docSame : PM.Node :=
  PM.Elem 80 "doc" [] [Example.paragraph 81 "a"; Example.paragraph 83 "b"] [].

(** A shared text that reads [ab], and the text node [xb]. *)
Definition textAb : Y.AbstractType := Y.XmlText 3 (Example.item 1 3) [("ab", [])].

Definition nodeXb : PM.Node := PM.Text 90 "xb" [].

(** A shared paragraph aligned to the left, with an attribute that the
    editor does not know, and an editable paragraph that is centred. *)
Definition yparagraphLeft : Y.AbstractType :=
  Y.XmlFragment 2 (Example.item 1 2) (Some "paragraph")
    [("align", Js.Str "left"); ("old", Js.Num 1)] [].

Definition paragraphCentred : PM.Node :=
  PM.Elem 91 "paragraph" [("align", Js.Str "center")] [] [].

Definition strong : PM.Mark := {| PM.markName := "strong"; PM.markAttrs := [] |}.

(** A selection of the editor between two positions, and relative
    positions that are the absolute ones. *)
Definition textSelection : Binding.EditorSelection :=
  {| Binding.jsonID := "text"; Binding.selAnchor := 3; Binding.selHead := 5 |}.

Definition position : nat -> option nat := Some.

(** The state of the plugin while a snapshot is rendered, and the change
    that restores it. *)
Definition snapshotShown : Js.object :=
  [("doc", Js.Obj (Some 1) []); ("snapshot", Js.Obj (Some 5) []);
   ("prevSnapshot", Js.Obj (Some 4) [])].

Definition restoreChange : Js.object :=
  [("snapshot", Js.Obj (Some 5) []); ("restore", Js.Bool true)].

(** The state that [apply] returns for that change, and an editor that
    holds it, as the object 1. *)
Definition restoring : Js.object :=
  [("doc", Js.Obj (Some 1) []); ("snapshot", Js.Obj (Some 5) []);
   ("prevSnapshot", Js.Obj (Some 4) []); ("restore", Js.Bool true);
   ("addToHistory", Js.Bool true); ("isChangeOrigin", Js.Bool false);
   ("isUndoRedoOperation", Js.Bool false)].

Definition editorShown : PluginState.Editor :=
  {| PluginState.objects := {[ 1 := restoring ]};
     PluginState.current := 1;
     PluginState.fresh := 2 |}.

(** The change that [_typeChanged] dispatches for an undo. *)
Definition undoChange : Js.object :=
  [("isChangeOrigin", Js.Bool true); ("isUndoRedoOperation", Js.Bool true)].

(** A strong [a] and a plain [b], and a document whose paragraph is
    centred, carries a comment and holds them. *)
Definition styledTexts : list PM.Node :=
  [PM.Text 94 "a" [strong]; PM.Text 95 "b" []].

Definition docStyled : PM.Node :=
  PM.Elem 92 "doc" []
    [PM.Elem 93 "paragraph" [("align", Js.Str "center")] styledTexts
       [Example.comment 1]] [].

End Sample.

(* ===================================================================== *)
(** * Vocabulary: the documents that the forward conversion keeps *)
(* ===================================================================== *)

Module WellFormed.

Import Sync Props.

(** A value that [===] finds identical to itself: anything but an object
    that was just built and is identical to nothing. *)
Definition settled (v : Js.value) : bool :=
  match v with
  | Js.Obj None _ => false
  | _ => true
  end.

(** The attributes of a mark: keys that are pairwise different and do not
    start with the prefix of the marks of a node, values that are settled. *)
Definition markAttrsOk (attrs : Js.object) : Prop :=
  NoDup (Js.keys attrs) /\
  Forall (fun kv => settled (snd kv) = true /\
                    Str.startsWith MarkPrefix (fst kv) = false) attrs.

(** The attributes of a node: the same, and no [ychange] among them. *)
Definition nodeAttrsOk (attrs : Js.object) : Prop :=
  NoDup (Js.keys attrs) /\
  Forall (fun kv => settled (snd kv) = true /\
                    Str.startsWith MarkPrefix (fst kv) = false /\
                    fst kv <> "ychange") attrs.

(** The marks of a node: at most one of a type, none of type [ychange]. *)
Definition nodeMarksOk (marks : list PM.Mark) : Prop :=
  NoDup (map PM.markName marks) /\
  Forall (fun mk => PM.markName mk <> "ychange" /\
                    markAttrsOk (PM.markAttrs mk)) marks.

(** The marks of a text node: at most one of a type, none of type
    [ychange], and types of plain names. *)
Definition textMarksOk (marks : list PM.Mark) : Prop :=
  NoDup (map PM.markName marks) /\
  Forall (fun mk => PM.markName mk <> "ychange" /\
                    plainName (PM.markName mk) /\
                    markAttrsOk (PM.markAttrs mk)) marks.

(** No text node follows a text node of the same marks (the editor joins
    them into one). *)
Fixpoint separated (l : list PM.Node) : Prop :=
  match l with
  | a :: l' =>
      match l' with
      | b :: _ =>
          ~ (PM.isText a = true /\ PM.isText b = true /\
             PM.marks a = PM.marks b)
      | [] => True
      end /\ separated l'
  | [] => True
  end.

(** A node as the editor builds it, with at most one mark of a type on a
    node: text nodes are not empty, and the conditions above hold all the
    way down. *)
Fixpoint wellFormed (n : PM.Node) : Prop :=
  match n with
  | PM.Text _ t marks => t <> "" /\ textMarksOk marks
  | PM.Elem _ _ attrs content marks =>
      nodeAttrsOk attrs /\ nodeMarksOk marks /\ separated content /\
      (fix all (l : list PM.Node) : Prop :=
         match l with
         | [] => True
         | c :: l' => wellFormed c /\ all l'
         end) content
  end.

(** The runs that [createTypeFromTextNodes] writes for text nodes. *)
Definition textRuns (schema : PM.Schema) (hashOfJSON : Js.value -> string)
    (nodes : list PM.Node) : list Y.span :=
  map (fun n => (default "" (PM.text n),
                 markAttributes schema hashOfJSON (PM.marks n))) nodes.

(** The attributes that [nodeMarksToAttributes] makes of the marks of a
    node, when there is at most one mark of a type. *)
Definition nodeMarkAttributes (marks : list PM.Mark) : Js.object :=
  map (fun mk => (MarkPrefix +:+ PM.markName mk, PM.toJSON mk)) marks.

(** The attributes that [createTypeFromElementNode] gives the element. *)
Definition elementAttributes (node : PM.Node) : Js.object :=
  List.filter notNull (PM.attrs node) ++ nodeMarkAttributes (PM.marks node).

(** What a created child has to be for the oracle: accepted against its
    slot, and not deleted. *)
Definition accepted (child : Y.AbstractType) (slot : Slot) : Prop :=
  equalYTypePNode child slot = true /\ Y.live child = true.

(** The forward conversion of a node is accepted, in every state whose
    cache of overlapping marks agrees with the schema, and leaves such a
    state. *)
Definition convertsWell (schema : PM.Schema) (hashOfJSON : Js.value -> string)
    (n : PM.Node) : Prop :=
  PM.isText n = false -> wellFormed n ->
  forall st, cacheAgrees schema (meta st) ->
    accepted (createTypeFromElementNode schema hashOfJSON n st).1 (OneNode n) /\
    cacheAgrees schema
      (meta (createTypeFromElementNode schema hashOfJSON n st).2).

(** A slot that the forward conversion can take. *)
Definition slotOk (schema : PM.Schema) (hashOfJSON : Js.value -> string)
    (slot : Slot) : Prop :=
  match slot with
  | TextNodes nodes =>
      Forall (fun n => PM.isText n = true /\ wellFormed n) nodes /\ separated nodes
  | OneNode n => PM.isText n = false /\ wellFormed n /\ convertsWell schema hashOfJSON n
  end.

Section NodeInduction.
Context (P : PM.Node -> Prop).
Context (Htext : forall r t marks, P (PM.Text r t marks)).
Context (Helem : forall r name attrs content marks,
            Forall P content -> P (PM.Elem r name attrs content marks)).

Fixpoint Node_nested_ind (n : PM.Node) : P n :=
  match n with
  | PM.Text r t marks => Htext r t marks
  | PM.Elem r name attrs content marks =>
      Helem r name attrs content marks
        ((fix go (l : list PM.Node) : Forall P l :=
            match l with
            | [] => @List.Forall_nil _ P
            | c :: l' => @List.Forall_cons _ P c l' (Node_nested_ind c) (go l')
            end) content)
  end.
End NodeInduction.
End WellFormed.



(* ===================================================================== *)
(** * Properties: mark names in attribute names *)
(* ===================================================================== *)

Section MarkNames.

Import Regex Sync Spec.

Lemma str_app_cons c (s t : string) : String c s +:+ t = String c (s +:+ t).
Proof. reflexivity. Qed.

Lemma str_app_nil_l (t : string) : "" +:+ t = t.
Proof. reflexivity. Qed.

Lemma str_app_nil_r (s : string) : s +:+ "" = s.
Proof. induction s as [|c s IH]; [done|]. by rewrite str_app_cons, IH. Qed.

Lemma str_app_assoc (a b c : string) : (a +:+ b) +:+ c = a +:+ (b +:+ c).
Proof. induction a as [|x a IH]; [done|]. by rewrite !str_app_cons, IH. Qed.

Lemma str_take_all s : Str.take (String.length s) s = s.
Proof. induction s as [|c s IH]; simpl; [done | by rewrite IH]. Qed.

Lemma str_drop_all s : Str.drop (String.length s) s = "".
Proof. induction s; simpl; done. Qed.

Lemma str_take_app p s : Str.take (String.length p) (p +:+ s) = p.
Proof.
  induction p as [|c p IH]; [by destruct s |].
  rewrite str_app_cons. simpl. by rewrite IH.
Qed.

Lemma str_take_drop n (s : string) : Str.take n s +:+ Str.drop n s = s.
Proof.
  revert s. induction n as [|n IH]; intros [|c s]; try done.
  cbn [Str.take Str.drop]. by rewrite str_app_cons, IH.
Qed.

Lemma str_length_app (p s : string) :
  String.length (p +:+ s) = String.length p + String.length s.
Proof.
  induction p as [|c p IH]; [done |].
  rewrite str_app_cons. simpl. by rewrite IH.
Qed.

Lemma str_drop_nil_length n s : Str.drop n s = "" -> String.length s <= n.
Proof.
  revert s; induction n as [|n IH]; intros [|c s]; simpl; intros H;
    try done; try lia.
  apply IH in H. lia.
Qed.

Lemma str_app_inv_length (p1 p2 s1 s2 : string) :
  p1 +:+ s1 = p2 +:+ s2 -> String.length s1 = String.length s2 ->
  p1 = p2 /\ s1 = s2.
Proof.
  revert p2. induction p1 as [|c p1 IH]; intros [|c2 p2];
    rewrite ?str_app_cons, ?str_app_nil_l; intros E L.
  - done.
  - exfalso. subst s1. simpl in L. rewrite str_length_app in L. lia.
  - exfalso. subst s2. simpl in L. rewrite str_length_app in L. lia.
  - injection E as -> E. destruct (IH _ E L) as [-> ->]. done.
Qed.

(** The unfolding of the matcher on the constructs of the expression. *)
Lemma m_seq r1 r2 s caps k :
  m (Seq r1 r2) s caps k = m r1 s caps (fun s' caps' => m r2 s' caps' k).
Proof. reflexivity. Qed.

Lemma m_group i r s caps k :
  m (Group i r) s caps k =
  m r s caps (fun s' caps' =>
    k s' (<[i := Str.take (String.length s - String.length s') s]> caps')).
Proof. reflexivity. Qed.

Lemma m_star r s caps k :
  m (Star r) s caps k = starLoop (m r) k (S (String.length s)) s caps.
Proof. reflexivity. Qed.

(** Eight units of a class in a row. *)
Lemma repeatLoop_class (p : ascii -> bool) k n s caps :
  repeatLoop (fun (s : string) (caps : gmap nat string) (k : cont) =>
                match s with
                | EmptyString => @None (gmap nat string)
                | String c s' => if p c then k s' caps else None
                end) k n s caps =
  if (n <=? String.length s) && allChars p (Str.take n s)
  then k (Str.drop n s) caps else None.
Proof.
  revert s caps. induction n as [|n IH]; intros s caps; simpl.
  - done.
  - destruct s as [|c s]; simpl; [done|].
    destruct (p c); simpl; [apply IH | by rewrite andb_false_r].
Qed.

Lemma isHashSuffix_length s : isHashSuffix s = true -> String.length s = 10.
Proof.
  destruct s as [|a [|b rest]]; simpl; try done.
  intros H. apply andb_prop in H as [H _]. apply andb_prop in H as [_ H].
  apply Nat.eqb_eq in H. by rewrite H.
Qed.

(** The end of the expression matches the hash suffixes, and nothing else. *)
Lemma m_tailRegex s caps :
  m tailRegex s caps accept =
  if isHashSuffix s then Some (<[2 := s]> caps) else None.
Proof.
  unfold tailRegex.
  destruct s as [|a [|b rest]]; [done | by cbn; destruct (Ascii.eqb a "-") |].
  cbn [m isHashSuffix].
  destruct (Ascii.eqb a "-") eqn:Ea; [|done].
  destruct (Ascii.eqb b "-") eqn:Eb; [|done].
  rewrite repeatLoop_class. cbn [andb].
  destruct (String.length rest =? 8) eqn:El.
  - apply Nat.eqb_eq in El.
    replace (8 <=? String.length rest) with true
      by (symmetry; apply Nat.leb_le; lia).
    cbn [andb].
    assert (Et : Str.take 8 rest = rest) by (rewrite <- El; apply str_take_all).
    assert (Ed : Str.drop 8 rest = "") by (rewrite <- El; apply str_drop_all).
    rewrite Et, Ed. destruct (allChars hashChar rest); [|done].
    unfold accept. do 2 f_equal. cbn [String.length]. rewrite El. cbn [Nat.sub].
    pose proof (str_take_all (String a (String b rest))) as T.
    cbn [String.length] in T. by rewrite El in T.
  - destruct (8 <=? String.length rest) eqn:El2; [|done].
    cbn [andb]. destruct (allChars hashChar (Str.take 8 rest)); [|done].
    destruct (Str.drop 8 rest) eqn:Ed; [|done].
    apply str_drop_nil_length in Ed. apply Nat.leb_le in El2.
    apply Nat.eqb_neq in El. lia.
Qed.

(** The starred dot is [starDot]. *)
Lemma starLoop_dot k fuel s caps :
  String.length s < fuel ->
  starLoop (m Dot) k fuel s caps = starDot s (fun s' => k s' caps).
Proof.
  revert s. induction fuel as [|fuel IH]; intros s L; [lia|].
  destruct s as [|c s']; cbn [starLoop m starDot]; [done|].
  destruct (Str.isLineTerminator c); [done|].
  replace (String.length s' <? String.length (String c s')) with true
    by (symmetry; apply Nat.ltb_lt; simpl; lia).
  rewrite IH by (simpl in L; lia). done.
Qed.

Lemma starDot_ext s K1 K2 :
  (forall s', K1 s' = K2 s') -> starDot s K1 = starDot s K2.
Proof.
  intros E. induction s as [|c s IH]; cbn [starDot]; [done|].
  by rewrite IH, E.
Qed.

(** When [starDot] succeeds, the continuation succeeded on what was left
    after a prefix without line terminators. *)
Lemma starDot_Some s K r :
  starDot s K = Some r ->
  exists p s', s = p +:+ s' /\ Str.hasLineTerminator p = false /\ K s' = Some r.
Proof.
  induction s as [|c s IH]; cbn [starDot]; intros H.
  - by exists "", "".
  - destruct (Str.isLineTerminator c) eqn:Ec.
    + by exists "", (String c s).
    + destruct (starDot s K) as [r'|] eqn:E.
      * injection H as ->. destruct (IH eq_refl) as (p & s' & -> & Hp & Hk).
        exists (String c p), s'. split; [done|]. split; [|done].
        simpl. by rewrite Ec, Hp.
      * by exists "", (String c s).
Qed.

Lemma starDot_shortest t K :
  (forall a b, t = a +:+ b -> a <> "" -> K b = None) -> starDot t K = K t.
Proof.
  induction t as [|c t IH]; intros H; cbn [starDot]; [done|].
  destruct (Str.isLineTerminator c); [done|].
  rewrite IH.
  - by rewrite (H (String c "") t).
  - intros a b -> Ha. by apply (H (String c a) b).
Qed.

Lemma starDot_first p t K r :
  Str.hasLineTerminator p = false ->
  (forall a b, t = a +:+ b -> a <> "" -> K b = None) ->
  K t = Some r -> starDot (p +:+ t) K = Some r.
Proof.
  intros Hp Ht Hk. induction p as [|c p IH].
  - rewrite str_app_nil_l, starDot_shortest; done.
  - simpl in Hp. apply orb_false_elim in Hp as [Hc Hp].
    rewrite str_app_cons. cbn [starDot]. by rewrite Hc, IH.
Qed.

Lemma m_hashedMarkNameRegex s :
  m hashedMarkNameRegex s ∅ accept = starDot s (afterStar s).
Proof.
  unfold hashedMarkNameRegex. rewrite m_seq, m_group, m_star.
  rewrite starLoop_dot by lia. apply starDot_ext. intros s'.
  fold tailRegex. by rewrite m_tailRegex.
Qed.

Lemma afterStar_proper_suffix s t :
  isHashSuffix t = true ->
  forall a b, t = a +:+ b -> a <> "" -> afterStar s b = None.
Proof.
  intros Ht a b -> Ha. unfold afterStar.
  destruct (isHashSuffix b) eqn:Eb; [|done].
  apply isHashSuffix_length in Ht, Eb. rewrite str_length_app in Ht.
  destruct a; [done | simpl in Ht; lia].
Qed.

(** On a name that ends in a hash suffix, the expression matches from the
    unit after the last line terminator of what precedes the suffix. *)
Lemma exec_hashed pre suf :
  isHashSuffix suf = true ->
  exists caps, exec hashedMarkNameRegex (pre +:+ suf) = Some caps /\
               caps !! 1 = Some (afterLastLineTerminator pre).
Proof.
  intros Hs. induction pre as [|c pre IH].
  - rewrite str_app_nil_l.
    destruct suf as [|c0 suf0] eqn:Es; [done|]. rewrite <- Es in *.
    assert (E : m hashedMarkNameRegex suf ∅ accept = afterStar suf suf).
    { rewrite m_hashedMarkNameRegex.
      apply starDot_shortest, afterStar_proper_suffix, Hs. }
    unfold afterStar in E. rewrite Hs, Nat.sub_diag in E.
    assert (X : exec hashedMarkNameRegex suf =
                Some (<[2:=suf]> (<[1:=Str.take 0 suf]> ∅))).
    { rewrite Es at 1. cbn [exec]. rewrite <- Es. fold accept. by rewrite E. }
    rewrite X. eexists. split; [reflexivity|].
    rewrite lookup_insert_ne by done. rewrite lookup_insert_eq. by destruct suf.
  - rewrite str_app_cons. cbn [exec]. rewrite <- str_app_cons. fold accept.
    rewrite m_hashedMarkNameRegex. cbn [afterLastLineTerminator].
    destruct (Str.hasLineTerminator (String c pre)) eqn:Hlt.
    + destruct (starDot _ _) as [r|] eqn:E.
      * exfalso. apply starDot_Some in E as (p & s' & E1 & Hp & Hk).
        unfold afterStar in Hk. destruct (isHashSuffix s') eqn:Hs'; [|done].
        apply str_app_inv_length in E1 as [<- _]; [congruence|].
        apply isHashSuffix_length in Hs, Hs'. lia.
      * apply IH.
    + erewrite starDot_first; [| exact Hlt | by apply afterStar_proper_suffix | ].
      2:{ unfold afterStar. rewrite Hs. reflexivity. }
      eexists. split; [done|].
      rewrite lookup_insert_ne by done. rewrite lookup_insert_eq.
      rewrite str_length_app, Nat.add_sub. by rewrite str_take_app.
Qed.

(** On a name that does not end in a hash suffix, it matches nowhere. *)
Lemma exec_not_hashed name :
  (forall pre suf, name = pre +:+ suf -> isHashSuffix suf = false) ->
  exec hashedMarkNameRegex name = None.
Proof.
  induction name as [|c name IH]; intros H.
  - cbn. done.
  - cbn [exec]. fold accept. rewrite m_hashedMarkNameRegex.
    destruct (starDot _ _) as [r|] eqn:E.
    + exfalso. apply starDot_Some in E as (p & s' & E1 & Hp & Hk).
      unfold afterStar in Hk. destruct (isHashSuffix s') eqn:Hs'; [|done].
      by rewrite (H _ _ E1) in Hs'.
    + apply IH. intros pre suf ->. apply (H (String c pre) suf). done.
Qed.

(** What [yattr2markname] does on a name of 8-bit units: a name that ends
    in two dashes and eight units of [[a-zA-Z0-9+/=]] is mapped to what
    precedes that last suffix, from the unit after the last line feed or
    carriage return on; every other name is returned unchanged. *)
Theorem yattr2markname_decodes name :
  (forall pre suf, name = pre +:+ suf -> isHashSuffix suf = true ->
     yattr2markname name = afterLastLineTerminator pre /\
     (Str.hasLineTerminator pre = false -> yattr2markname name = pre)) /\
  ((forall pre suf, name = pre +:+ suf -> isHashSuffix suf = false) ->
     yattr2markname name = name).
Proof.
  split.
  - intros pre suf -> Hs. destruct (exec_hashed pre suf Hs) as (caps & E & L).
    assert (Y : yattr2markname (pre +:+ suf) = afterLastLineTerminator pre).
    { unfold yattr2markname. by rewrite E, L. }
    split; [done|]. intros Hp. rewrite Y. clear -Hp.
    destruct pre as [|c pre]; [done|]. cbn [afterLastLineTerminator].
    by rewrite Hp.
  - intros H. unfold yattr2markname. by rewrite exec_not_hashed.
Qed.

(** The theorem at the name [comment--abcdefgh]. *)
Lemma yattr2markname_decodes_witness :
  yattr2markname "comment--abcdefgh" = "comment".
Proof.
  apply (proj1 (yattr2markname_decodes "comment--abcdefgh")
           "comment" "--abcdefgh"); reflexivity.
Defined.

(** C10 fails on the code. The name [a], line feed, [b--abcdefgh] ends in
    two dashes and eight units of [[a-zA-Z0-9+/=]], and the prefix before
    that suffix is [a], line feed, [b]; [yattr2markname] returns [b], what
    follows the line feed: the dot of the expression matches no line
    terminator and the expression is not anchored at the start. *)
Theorem yattr2markname_truncates_at_line_feed :
  isHashSuffix "--abcdefgh" = true /\
  yattr2markname (String "a" (String "010" "b") +:+ "--abcdefgh") = "b".
Proof. split; vm_compute; reflexivity. Qed.

(** So the decoding as the specification has it, the whole prefix for every
    name, does not hold. *)
Lemma yattr2markname_line_feed : ~ stripsHashOfEveryName.
Proof.
  intros H.
  specialize (H (String "a" (String "010" "b")) "--abcdefgh" eq_refl).
  vm_compute in H. discriminate H.
Qed.

End MarkNames.


(* ===================================================================== *)
(** * Properties: the child alignment *)
(* ===================================================================== *)

Section ChildAlignment.

Import Sync Spec.

Context (meta : BindingMetadata).
Context (yChildren : list Y.AbstractType) (pChildren : list Slot).

(** The first loop stops between where it starts and [minCnt]. *)
Lemma factorLeft_ge_start n left found :
  left <= fst (factorLeft meta yChildren pChildren n left found).
Proof.
  revert left found. induction n as [|n IH]; intros left found; simpl; [lia|].
  destruct (yChildren !! left) as [y|]; [|simpl; lia].
  destruct (pChildren !! left) as [p|]; [|simpl; lia].
  destruct (mappedIdentity _ _).
  - specialize (IH (S left) true). lia.
  - destruct (equalYTypePNode y p); simpl; [|lia].
    specialize (IH (S left) found). lia.
Qed.

Lemma factorLeft_le n left found :
  fst (factorLeft meta yChildren pChildren n left found) <= left + n.
Proof.
  revert left found. induction n as [|n IH]; intros left found; simpl; [lia|].
  destruct (yChildren !! left) as [y|]; [|simpl; lia].
  destruct (pChildren !! left) as [p|]; [|simpl; lia].
  destruct (mappedIdentity _ _).
  - specialize (IH (S left) true). lia.
  - destruct (equalYTypePNode y p); simpl; [|lia].
    specialize (IH (S left) found). lia.
Qed.

(** It passes every position at which the two sides match. *)
Lemma factorLeft_ge n left found j :
  j <= n ->
  (forall i, left <= i < left + j -> matchAt meta yChildren pChildren i i) ->
  left + j <= fst (factorLeft meta yChildren pChildren n left found).
Proof.
  revert left found j. induction n as [|n IH]; intros left found j Hj H.
  - simpl. lia.
  - destruct j as [|j].
    { pose proof (factorLeft_ge_start (S n) left found). lia. }
    destruct (H left) as (y & p & Ey & Ep & Hm); [lia|].
    simpl. rewrite Ey, Ep.
    assert (forall f, S left + j <=
              fst (factorLeft meta yChildren pChildren n (S left) f)) as Hrec.
    { intros f. apply IH; [lia|]. intros i Hi. apply H. lia. }
    destruct (mappedIdentity _ _) eqn:Em.
    + specialize (Hrec true). lia.
    + destruct Hm as [Hm|Hm]; [congruence|]. rewrite Hm. simpl.
      specialize (Hrec found). lia.
Qed.

(** The second loop runs to its end when the two sides match at every
    position it visits. *)
Lemma factorRight_all n right found :
  (forall j, right <= j < right + n ->
     matchAt meta yChildren pChildren
       (length yChildren - j - 1) (length pChildren - j - 1)) ->
  fst (factorRight meta yChildren pChildren n right found) = right + n.
Proof.
  revert right found. induction n as [|n IH]; intros right found H.
  - simpl. lia.
  - destruct (H right) as (y & p & Ey & Ep & Hm); [lia|].
    simpl. rewrite Ey, Ep.
    assert (forall f, fst (factorRight meta yChildren pChildren n (S right) f)
                      = S right + n) as Hrec.
    { intros f. apply IH. intros j Hj. apply H. lia. }
    destruct (mappedIdentity _ _) eqn:Em.
    + rewrite Hrec. lia.
    + destruct Hm as [Hm|Hm]; [congruence|]. rewrite Hm. simpl.
      rewrite Hrec. lia.
Qed.

End ChildAlignment.

Section Minimality.

Import Sync Spec.

(** C2. When the normalized children [P] of the editable node are the
    children [Y] of the shared node with one more element at position [k]
    (every child of [Y] before [k] is structurally equal to the child of
    [P] at its position, every child of [Y] from [k] on to the child of [P]
    one position further), the equality factor is [min(|Y|, |P|)]. *)
Theorem computeChildEqualityFactor_one_insertion
    (ytype : Y.AbstractType) (pnode : PM.Node) (meta : BindingMetadata) (k : nat) :
  let Y := Y.toArray ytype in
  let P := normalizePNodeContent pnode in
  length P = S (length Y) ->
  k <= length Y ->
  (forall i y p, i < k -> Y !! i = Some y -> P !! i = Some p ->
     equalYTypePNode y p = true) ->
  (forall i y p, k <= i -> Y !! i = Some y -> P !! (S i) = Some p ->
     equalYTypePNode y p = true) ->
  equalityFactor (computeChildEqualityFactor ytype pnode meta) =
  Nat.min (length Y) (length P).
Proof.
  intros Y P HL Hk Hpre Hsuf.
  unfold computeChildEqualityFactor. fold Y P. cbn [equalityFactor].
  replace (Nat.min (length Y) (length P)) with (length Y) by lia.
  set (n := length Y) in *.
  pose proof (factorLeft_le meta Y P n 0 false) as Hle.
  assert (Hge : 0 + k <= fst (factorLeft meta Y P n 0 false)).
  { apply factorLeft_ge; [lia|]. intros i Hi.
    destruct (lookup_lt_is_Some_2 Y i) as [y Ey]; [unfold n in *; lia|].
    destruct (lookup_lt_is_Some_2 P i) as [p Ep]; [lia|].
    exists y, p. split; [done|]. split; [done|]. right.
    apply (Hpre i); [lia|done..]. }
  set (left := fst (factorLeft meta Y P n 0 false)) in *.
  rewrite factorRight_all; [lia|].
  intros j Hj.
  destruct (lookup_lt_is_Some_2 Y (n - j - 1)) as [y Ey]; [unfold n in *; lia|].
  destruct (lookup_lt_is_Some_2 P (length P - j - 1)) as [p Ep]; [lia|].
  exists y, p. fold n. split; [done|]. split; [done|]. right.
  apply (Hsuf (n - j - 1)); [lia|done|].
  rewrite <- Ep. f_equal. lia.
Qed.

(** The theorem on the shared document [a | b] and the editable document
    [a | x | b]. *)
Lemma computeChildEqualityFactor_one_insertion_witness :
  equalityFactor
    (computeChildEqualityFactor Example.ydoc Example.docWithInsertion
       createEmptyMeta) = 2.
Proof.
  apply (computeChildEqualityFactor_one_insertion
           Example.ydoc Example.docWithInsertion createEmptyMeta 1).
  - reflexivity.
  - vm_compute. lia.
  - intros [|i] y p Hi Hy Hp; [|lia].
    injection Hy as <-. injection Hp as <-. reflexivity.
  - intros [|[|i]] y p Hi Hy Hp; [lia | | discriminate Hy].
    injection Hy as <-. injection Hp as <-. reflexivity.
Defined.

End Minimality.


(* ===================================================================== *)
(** * Properties: [updateYFragment] *)
(* ===================================================================== *)

Section UpdateFacts.

Import Sync Spec.

Context (schema : PM.Schema) (hashOfJSON : Js.value -> string).

(** ** The exception *)

Lemma matchNodeName_no_mismatch y n :
  Y.isXmlElement y && matchNodeName y (OneNode n) = true ->
  nameMismatch y n = false.
Proof.
  unfold nameMismatch, matchNodeName. intros H.
  apply andb_prop in H as [-> ->]. done.
Qed.

(** An iteration calls [updateYFragment] on a child only after
    [matchNodeName] on that child and its node. *)
Lemma updateStep_no_throw (recur : updater) yChildren pChildren s e :
  neverThrowsOnMatch recur ->
  (updateStep schema hashOfJSON recur yChildren pChildren s).1 <> Throw e.
Proof.
  intros Hrec. unfold updateStep.
  repeat case_match; simplify_eq/=; try done.
  all: match goal with
       | H : ?f ?y ?n ?st = (?c, _, _) |- ?c <> _ =>
           let Hm := fresh in
           assert (Hm : nameMismatch y n = false);
           [ apply matchNodeName_no_mismatch
           | pose proof (Hrec y n st e Hm) as Hn; rewrite H in Hn; exact Hn ]
       | _ => idtac
       end.
  all: repeat match goal with
       | H : context [if ?b then _ else _] |- _ => destruct b eqn:?
       end; simplify_eq/=; try done.
Qed.

Lemma updateLoop_no_throw (recur : updater) yChildren pChildren n s e :
  neverThrowsOnMatch recur ->
  (updateLoop schema hashOfJSON recur yChildren pChildren n s).1 <> Throw e.
Proof.
  intros Hrec. revert s.
  induction n as [|n IH]; intros s; cbn [updateLoop]; [done|].
  destruct (_ && _); [|done].
  pose proof (updateStep_no_throw recur yChildren pChildren s e Hrec) as Hs.
  destruct (updateStep _ _ _ _ _ s) as [c s']. destruct c; simpl in *; eauto.
Qed.

(** A call on an element and a node of the same name throws nothing, at
    whatever depth. *)
Lemma updateYFragment_no_throw_on_match fuel :
  neverThrowsOnMatch (updateYFragment schema hashOfJSON fuel).
Proof.
  induction fuel as [|fuel IH]; intros y n st e Hm; simpl; [done|].
  fold (nameMismatch y n). rewrite Hm.
  match goal with
  | |- context [updateLoop ?a ?b ?r ?yc ?pc ?k ?s] =>
      pose proof (updateLoop_no_throw r yc pc k s e IH) as Hl;
      destruct (updateLoop a b r yc pc k s) as [c s']
  end.
  destruct c; simpl in *; done.
Qed.

(** A call on an element and a node of different names throws at once. *)
Lemma updateYFragment_mismatch fuel y p st :
  nameMismatch y p = true ->
  updateYFragment schema hashOfJSON (S fuel) y p st =
  (Throw NodeNameMismatch, y, st).
Proof. intros H. simpl. fold (nameMismatch y p). by rewrite H. Qed.

(** C9. When [updateYFragment] throws, the exception is the name
    mismatch of the call itself (no call below it throws: each is made
    after [matchNodeName]), and the call has changed nothing: the shared
    tree and the state, with the mapping, are as they were. *)
Theorem updateYFragment_throw_is_atomic fuel y p st e y' st' :
  updateYFragment schema hashOfJSON fuel y p st = (Throw e, y', st') ->
  e = NodeNameMismatch /\ nameMismatch y p = true /\ y' = y /\ st' = st.
Proof.
  intros H. destruct (nameMismatch y p) eqn:Hm.
  - destruct fuel as [|fuel]; [done|].
    rewrite updateYFragment_mismatch in H by done. by simplify_eq.
  - exfalso. apply (updateYFragment_no_throw_on_match fuel y p st e Hm).
    by rewrite H.
Qed.

(** ** Fuel *)

Lemma height_items c y : In c (Y.items y) -> Measure.height c < Measure.height y.
Proof.
  destruct y as [r i n a l| |]; simpl; try done.
  induction l as [|x l IH]; simpl; [done|].
  intros [->|H]; [lia|]. specialize (IH H). lia.
Qed.

Lemma items_fold_attrs {A} (f : Y.AbstractType -> A -> Y.AbstractType)
    (l : list A) y :
  (forall t a, Y.items (f t a) = Y.items t) ->
  Y.items (fold_left f l y) = Y.items y.
Proof.
  intros Hf. revert y. induction l as [|a l IH]; intros y; simpl; [done|].
  by rewrite IH, Hf.
Qed.

Lemma items_setAttribute k v t : Y.items (Y.setAttribute k v t) = Y.items t.
Proof. by destruct t. Qed.

Lemma items_removeAttribute k t : Y.items (Y.removeAttribute k t) = Y.items t.
Proof. by destruct t. Qed.

(** The update of the attributes leaves the children alone. *)
Lemma items_updateAttributes y p : Y.items (updateAttributes y p) = Y.items y.
Proof.
  unfold updateAttributes. rewrite !items_fold_attrs; [done| |].
  - intros t a. repeat case_match;
      rewrite ?items_setAttribute, ?items_removeAttribute; done.
  - intros t a. repeat case_match;
      rewrite ?items_setAttribute, ?items_removeAttribute; done.
Qed.

Lemma updateStep_fuel (recur : updater) yChildren pChildren s :
  neverOutOfFuelOn recur yChildren ->
  (updateStep schema hashOfJSON recur yChildren pChildren s).1 <> OutOfFuel.
Proof.
  intros Hrec. unfold updateStep.
  repeat case_match; simplify_eq/=; try done.
  all: match goal with
       | H : ?f ?y ?n ?st = (?c, _, _) |- ?c <> _ =>
           let Hn := fresh in
           assert (Hn : (f y n st).1.1 <> OutOfFuel);
           [ apply Hrec; eapply list_elem_of_In, list_elem_of_lookup_2; eassumption
           | by rewrite H in Hn ]
       end.
Qed.

Lemma updateLoop_fuel (recur : updater) yChildren pChildren n s :
  neverOutOfFuelOn recur yChildren ->
  (updateLoop schema hashOfJSON recur yChildren pChildren n s).1 <> OutOfFuel.
Proof.
  intros Hrec. revert s.
  induction n as [|n IH]; intros s; cbn [updateLoop]; [done|].
  destruct (_ && _); [|done].
  pose proof (updateStep_fuel recur yChildren pChildren s Hrec) as Hs.
  destruct (updateStep _ _ _ _ _ s) as [c s']. destruct c; simpl in *; eauto.
Qed.

(** Fuel above the height of the fragment is enough. *)
Lemma updateYFragment_enough_fuel fuel y p st :
  Measure.height y < fuel ->
  (updateYFragment schema hashOfJSON fuel y p st).1.1 <> OutOfFuel.
Proof.
  revert y p st. induction fuel as [|fuel IH]; intros y p st Hh; [lia|].
  simpl. case_match; [done|].
  match goal with
  | |- context [updateLoop ?a ?b ?r ?yc ?pc ?k ?s] =>
      assert (Hl : (updateLoop a b r yc pc k s).1 <> OutOfFuel);
      [ apply updateLoop_fuel | destruct (updateLoop a b r yc pc k s) as [c s'] ]
  end.
  - intros c n st' Hc. apply IH.
    assert (In c (Y.items y)) as Hi.
    { unfold Y.toArray, Y.visible in Hc. apply filter_In in Hc as [Hc _].
      destruct (Y.isXmlElement y); [by rewrite items_updateAttributes in Hc | done]. }
    apply height_items in Hi. lia.
  - destruct c; simpl in *; done.
Qed.

(** ** The empty-content edge case *)

Lemma normalize_rest_of_all l :
  YText.normalize (YText.splitAt (YText.textLength l) l).2 = [].
Proof.
  induction l as [|[s a] l IH]; [done|].
  cbn [YText.textLength fold_right fst].
  fold (YText.textLength l).
  destruct (String.length s + YText.textLength l) as [|n] eqn:En.
  - cbn [YText.splitAt snd].
    assert (String.length s = 0) as Hs by lia.
    assert (YText.textLength l = 0) as Hl by lia.
    destruct s; [|done]. cbn [YText.normalize String.eqb].
    rewrite Hl in IH. destruct l as [|[s' a'] l']; [done|]. exact IH.
  - cbn [YText.splitAt]. rewrite <- En.
    replace (String.length s <=? String.length s + YText.textLength l) with true
      by (symmetry; apply Nat.leb_le; lia).
    replace (String.length s + YText.textLength l - String.length s)
      with (YText.textLength l) by lia.
    destruct (YText.splitAt (YText.textLength l) l) as [before after].
    exact IH.
Qed.

(** Deleting all of a text leaves the same text object, empty. *)
Lemma delete_all_text t :
  Y.isXmlText t = true -> Y.live t = true ->
  let t' := YText.delete 0 (YText.length t) t in
  Y.ref t' = Y.ref t /\ Y._item t' = Y._item t /\ Y.live t' = true /\
  Y.isXmlText t' = true /\ YText.toDelta t' = [].
Proof.
  destruct t as [| r i spans |]; try done. intros _ Hlive.
  unfold YText.delete, YText.withSpans. unfold Y.live in Hlive.
  destruct (Y.isDeleted (Y.XmlText r i spans)) eqn:Hd; [done|].
  cbn [YText.length].
  assert (YText.splitAt 0 spans = ([], spans)) as -> by (by destruct spans).
  cbn [app]. rewrite normalize_rest_of_all.
  repeat split; try done.
  unfold Y.live, Y.isDeleted in *. cbn [Y._item] in *. by rewrite Hd.
Qed.

Lemma visible_replaceItem_first new c rest l :
  Y.live new = true -> Y.visible l = c :: rest ->
  Y.visible (Y.replaceItem 0 new l) = new :: rest.
Proof.
  intros Hn. induction l as [|x l IH]; [done|].
  cbn [Y.visible List.filter Y.replaceItem]. fold (Y.visible l).
  destruct (Y.live x) eqn:Hx.
  - intros [= -> <-]. cbn [Y.visible List.filter]. by rewrite Hn.
  - intros H. cbn [Y.visible List.filter]. rewrite Hx. by apply IH.
Qed.

(** C3. When the only child of the shared fragment is a text and the
    editable node has no child, [updateYFragment] (which completes
    normally, the names matching) leaves that very text in the fragment:
    same object, same item, not deleted, and now empty. The entry of the
    text in the mapping is gone. *)
Theorem updateYFragment_clears_single_text fuel y p st t :
  nameMismatch y p = false ->
  Y.toArray y = [t] ->
  Y.isXmlText t = true ->
  normalizePNodeContent p = [] ->
  let t' := YText.delete 0 (YText.length t) t in
  exists y' st',
    updateYFragment schema hashOfJSON (S fuel) y p st = (Normal, y', st') /\
    Y.toArray y' = [t'] /\
    Y.ref t' = Y.ref t /\ Y._item t' = Y._item t /\ Y.isDeleted t' = false /\
    YText.toDelta t' = [] /\
    mapping (meta st') !! Y.ref t = None.
Proof.
  intros Hm Hy Ht Hp t'.
  assert (Hlive : Y.live t = true).
  { assert (In t (Y.toArray y)) as Hin by (rewrite Hy; by left).
    unfold Y.toArray, Y.visible in Hin. by apply filter_In in Hin as [_ ?]. }
  destruct (delete_all_text t Ht Hlive) as (Hr & Hi & Hl' & _ & Hd).
  fold t' in Hr, Hi, Hl', Hd.
  cbn [updateYFragment]. fold (nameMismatch y p). rewrite Hm, Hp.
  set (y0 := if Y.isXmlElement y then updateAttributes y p else y).
  assert (Hy0 : Y.toArray y0 = [t]).
  { unfold Y.toArray in *. subst y0.
    destruct (Y.isXmlElement y); [by rewrite items_updateAttributes | done]. }
  rewrite Hy0. cbn [length Nat.min matchLeft matchRight Nat.sub fst snd updateLoop
                    nleft nright andb Nat.ltb Nat.leb].
  unfold updateRest. cbn [lookup list_lookup length nleft nright fragment state
                          Nat.eqb andb Nat.sub Nat.add Nat.ltb Nat.leb].
  rewrite Ht. cbn [andb fragment state].
  eexists _, _. split; [reflexivity|].
  fold t'. split.
  - unfold putChild, Y.toArray.
    assert (Y.items (Y.withItems (Y.replaceItem 0 t' (Y.items y0)) y0)
            = Y.replaceItem 0 t' (Y.items y0)) as ->.
    { by destruct y0. }
    by apply visible_replaceItem_first with (c := t).
  - repeat split; try done.
    + unfold Y.live in Hl'. by destruct (Y.isDeleted t').
    + cbn. apply lookup_delete_eq.
Qed.

(** ** The tie-break *)

(** C4, as the code has it. When the left and the right shared children
    are elements of the names of their nodes, the two sides agree on
    [foundMappedChild] and their equality factors are equal, the iteration
    updates the left side, and only the left counter moves. *)
Theorem updateStep_tie_updates_left (recur : updater) yChildren pChildren s
    leftY leftN rightY rightN :
  yChildren !! nleft s = Some leftY ->
  pChildren !! nleft s = Some (OneNode leftN) ->
  yChildren !! (length yChildren - nright s - 1) = Some rightY ->
  pChildren !! (length pChildren - nright s - 1) = Some (OneNode rightN) ->
  Y.isXmlElement leftY = true -> matchNodeName leftY (OneNode leftN) = true ->
  Y.isXmlElement rightY = true -> matchNodeName rightY (OneNode rightN) = true ->
  foundMappedChild (computeChildEqualityFactor leftY leftN (meta (state s))) =
  foundMappedChild (computeChildEqualityFactor rightY rightN (meta (state s))) ->
  equalityFactor (computeChildEqualityFactor leftY leftN (meta (state s))) =
  equalityFactor (computeChildEqualityFactor rightY rightN (meta (state s))) ->
  updateStep schema hashOfJSON recur yChildren pChildren s =
  let '(c, leftY', st) := recur leftY leftN (state s) in
  (c, {| nleft := match c with Normal => nleft s + 1 | _ => nleft s end;
         nright := nright s;
         fragment := putChild (nleft s) leftY' (fragment s);
         state := st |}).
Proof.
  intros HlY HlP HrY HrP HeL HmL HeR HmR Hfound Hfactor.
  unfold updateStep. rewrite HlY, HlP, HrY, HrP.
  destruct leftY as [r i n a l| |]; try done.
  rewrite HeL, HmL, HeR, HmR. cbn [andb].
  set (equalityLeft := computeChildEqualityFactor _ leftN _) in *.
  set (equalityRight := computeChildEqualityFactor rightY rightN _) in *.
  rewrite Hfound, Hfactor, Nat.ltb_irrefl.
  by destruct (foundMappedChild equalityRight).
Qed.

End UpdateFacts.

Section UpdateExamples.

Import Sync Spec.

(** The theorem of C9 on a shared paragraph and an editable document. *)
Lemma updateYFragment_throw_is_atomic_witness :
  NodeNameMismatch = NodeNameMismatch /\
  nameMismatch (Example.yparagraph 2 1 "a") Example.docRewritten = true /\
  Example.yparagraph 2 1 "a" = Example.yparagraph 2 1 "a" /\
  Basic.emptyState = Basic.emptyState.
Proof.
  apply (updateYFragment_throw_is_atomic Basic.schema Basic.hashOfJSON 1
           (Example.yparagraph 2 1 "a") Example.docRewritten Basic.emptyState
           NodeNameMismatch (Example.yparagraph 2 1 "a") Basic.emptyState).
  reflexivity.
Defined.

(** The theorem of C3 on a shared paragraph that holds the text [a] and an
    editable paragraph that holds nothing. *)
Lemma updateYFragment_clears_single_text_witness :
  let t := Y.XmlText 3 (Example.item 1 3) [("a", [])] in
  let t' := YText.delete 0 (YText.length t) t in
  exists y' st',
    updateYFragment Basic.schema Basic.hashOfJSON 1
      (Example.yparagraph 2 1 "a") (Example.emptyParagraph 70)
      Basic.emptyState = (Normal, y', st') /\
    Y.toArray y' = [t'] /\
    Y.ref t' = Y.ref t /\ Y._item t' = Y._item t /\ Y.isDeleted t' = false /\
    YText.toDelta t' = [] /\
    mapping (meta st') !! Y.ref t = None.
Proof.
  apply (updateYFragment_clears_single_text Basic.schema Basic.hashOfJSON 0
           (Example.yparagraph 2 1 "a") (Example.emptyParagraph 70)
           Basic.emptyState (Y.XmlText 3 (Example.item 1 3) [("a", [])]));
    reflexivity.
Defined.

(** The theorem of C4 on the shared document [a | b] and the editable
    document [x | y]: both sides are paragraphs, nothing in them is mapped
    or equal. *)
Lemma updateStep_tie_updates_left_witness :
  updateStep Basic.schema Basic.hashOfJSON
    (updateYFragment Basic.schema Basic.hashOfJSON 3)
    (Y.toArray Example.ydoc) (normalizePNodeContent Example.docRewritten)
    Example.loopStart =
  let '(c, leftY', st) :=
    updateYFragment Basic.schema Basic.hashOfJSON 3
      (Example.yparagraph 2 1 "a") (Example.paragraph 21 "x")
      (state Example.loopStart) in
  (c, {| nleft := match c with Normal => 1 | _ => 0 end;
         nright := 0;
         fragment := putChild 0 leftY' Example.ydoc;
         state := st |}).
Proof.
  apply (updateStep_tie_updates_left Basic.schema Basic.hashOfJSON
           (updateYFragment Basic.schema Basic.hashOfJSON 3)
           (Y.toArray Example.ydoc) (normalizePNodeContent Example.docRewritten)
           Example.loopStart
           (Example.yparagraph 2 1 "a") (Example.paragraph 21 "x")
           (Example.yparagraph 4 1 "b") (Example.paragraph 23 "y"));
    reflexivity.
Defined.

(** C4, as it is stated, fails there: the iteration moves the left
    counter, not the right one. *)
Lemma updateStep_tie_not_right :
  ~ tieUpdatesRight Basic.schema Basic.hashOfJSON.
Proof.
  intros H.
  specialize (H (updateYFragment Basic.schema Basic.hashOfJSON 3)
                (Y.toArray Example.ydoc)
                (normalizePNodeContent Example.docRewritten)
                Example.loopStart
                (Example.yparagraph 2 1 "a") (Example.paragraph 21 "x")
                (Example.yparagraph 4 1 "b") (Example.paragraph 23 "y")
                eq_refl eq_refl eq_refl eq_refl eq_refl eq_refl eq_refl eq_refl
                eq_refl eq_refl).
  apply (f_equal (fun r => nright r.2)) in H.
  vm_compute in H. discriminate H.
Qed.

End UpdateExamples.


(* ===================================================================== *)
(** * Properties: [createNodeFromYElement] *)
(* ===================================================================== *)

Section CreateFacts.

Import Sync Spec.

Context (schema : PM.Schema).

Lemma maxHeight_lt l f :
  maxHeight l < f <-> 0 < f /\ Forall (fun c => Measure.height c < f) l.
Proof.
  induction l as [|c l IH]; simpl.
  - split; [intros H; split; [lia | constructor] | intros [H _]; lia].
  - rewrite Forall_cons. fold (maxHeight l). split.
    + intros H. assert (maxHeight l < f) as H' by lia. apply IH in H'. 
      destruct H'. repeat split; [done | lia | done].
    + intros (H0 & Hc & Hl). assert (maxHeight l < f) by (apply IH; done). lia.
Qed.

Lemma height_deleteType t : Measure.height (Y.deleteType t) = Measure.height t.
Proof.
  induction t as [r i n a l IH| |] using AbstractType_nested_ind; try done.
  cbn [Y.deleteType Measure.height]. f_equal.
  induction IH as [|c l Hc Hl IHl]; [done|].
  cbn [map fold_right]. by rewrite Hc, IHl.
Qed.

Lemma markDeleted_Some i : is_Some i -> is_Some (Y.markDeleted i).
Proof. intros [x ->]. by eexists. Qed.

Lemma wellKinded_deleteType t :
  Measure.wellKinded (Y.deleteType t) = Measure.wellKinded t.
Proof.
  induction t as [r i n a l IH| |] using AbstractType_nested_ind.
  - cbn [Y.deleteType Measure.wellKinded]. destruct i as [i|], n as [n|]; try done.
    cbn [Y.markDeleted].
    induction IH as [|c l Hc Hl IHl]; [done|].
    cbn [map forallb]. by rewrite Hc, IHl.
  - by destruct i.
  - by destruct i.
Qed.


Lemma ref_deleteType t : Y.ref (Y.deleteType t) = Y.ref t.
Proof. by destruct t. Qed.

Lemma ref_withItems l t : Y.ref (Y.withItems l t) = Y.ref t.
Proof. by destruct t. Qed.

(** What the items of an element satisfy while its children are built:
    they stay below the height [h] and well-kinded. *)
Lemma goodItem_text h c :
  0 < h -> Y.isXmlText c = true -> is_Some (Y._item c) -> goodItem h c.
Proof. destruct c; try done. intros H _ [x Hx]. simpl in Hx. subst. by split. Qed.

Lemma wellKinded_cases c :
  Measure.wellKinded c = true ->
  is_Some (Y._item c) /\
  (Y.isXmlElement c = true \/ Y.isXmlText c = true).
Proof.
  destruct c as [r [i|] [n|] a l|r [i|] spans|r i]; try done; intros _; split; eauto.
Qed.

Lemma applyDelta_text ops t :
  Y.isXmlText t = true ->
  Y.isXmlText (YText.applyDelta ops t) = true /\
  Y._item (YText.applyDelta ops t) = Y._item t.
Proof.
  destruct t; try done. intros _. unfold YText.applyDelta, YText.withSpans.
  by destruct (Y.isDeleted _).
Qed.

Lemma createTextNodesFromYText_text t st :
  Y.isXmlText t = true ->
  let r := createTextNodesFromYText schema t st in
  r.1.1.1 = Normal /\ Y.isXmlText r.1.2 = true /\
  (is_Some (Y._item t) -> is_Some (Y._item r.1.2)).
Proof.
  intros Ht. unfold createTextNodesFromYText. rewrite Ht.
  destruct (textNodesOfDeltas _ _ _) as [[nodes|] st']; cbn; [done|].
  destruct t; try done. split; [done|]. split; [done|]. apply markDeleted_Some.
Qed.

Lemma createChildren_ok h (recur : builder) pos b :
  recurOk h recur -> Forall (goodItem h) (elItems b) ->
  (createChildren schema recur pos b).1 = Normal /\
  Forall (goodItem h) (elItems (createChildren schema recur pos b).2).
Proof.
  intros Hrec Hb. unfold createChildren.
  destruct (elItems b !! pos) as [type|] eqn:Epos; [|done].
  assert (Hgood : goodItem h type) by (eapply Forall_lookup_1; eauto).
  assert (Hh : 0 < h) by (destruct Hgood; lia).
  destruct (wellKinded_cases type (proj2 Hgood)) as [Hitem [He|Ht]].
  - rewrite He. unfold createNodeIfNotExistsWith.
    destruct (mapping (meta (bstate b)) !! Y.ref type) as [node|].
    + cbn. split; [done|]. by apply Forall_insert.
    + rewrite He. destruct (Hrec type (bstate b) He Hgood) as [Hc Hg].
      destruct (recur type (bstate b)) as [[[c n] type'] st']. cbn in *.
      split; [done|]. by apply Forall_insert.
  - assert (Y.isXmlElement type = false) as -> by (by destruct type).
    rewrite Ht.
    set (merge := match elItems b !! (pos + 1) with Some _ => _ | None => false end).
    set (merged := match merge, elItems b !! (pos + 1) with
                   | true, Some next => _ | _, _ => (type, elItems b) end).
    assert (Hmerged : Y.isXmlText merged.1 = true /\ is_Some (Y._item merged.1) /\
                      Forall (goodItem h) merged.2).
    { subst merged. destruct merge; [|done].
      destruct (elItems b !! (pos + 1)) as [next|] eqn:En; [|done].
      cbn [fst snd]. destruct (applyDelta_text
        (YText.Retain (YText.length type) None :: YText.toDelta next) type Ht) as [H1 H2].
      split; [done|]. split; [by rewrite H2|].
      apply Forall_insert; [apply Forall_insert; [done|]|].
      - apply goodItem_text; [done..|by rewrite H2].
      - assert (goodItem h next) as [Hn1 Hn2] by (eapply Forall_lookup_1; eauto).
        split; [by rewrite height_deleteType | by rewrite wellKinded_deleteType]. }
    destruct Hmerged as (Hm1 & Hm2 & Hm3).
    assert ((let '(type0, items) := merged in
             let '(c, ns, type1, st) := createTextNodesFromYText schema type0 (bstate b) in
             (c, {| elItems := <[pos:=type1]> items;
                    children := match ns with
                                | Some ns0 => children b ++ map OneNode ns0
                                | None => children b
                                end;
                    bstate := st |})).1 = Normal /\
            Forall (goodItem h) (elItems (let '(type0, items) := merged in
             let '(c, ns, type1, st) := createTextNodesFromYText schema type0 (bstate b) in
             (c, {| elItems := <[pos:=type1]> items;
                    children := match ns with
                                | Some ns0 => children b ++ map OneNode ns0
                                | None => children b
                                end;
                    bstate := st |})).2)) as Hres.
    { destruct merged as [type0 items0]. cbn [fst snd] in *.
      destruct (createTextNodesFromYText_text type0 (bstate b) Hm1) as (Hc & Hx & Hi).
      destruct (createTextNodesFromYText schema type0 (bstate b)) as [[[c ns] type1] st'].
      cbn in *. split; [done|]. apply Forall_insert; [done|].
      apply goodItem_text; auto. }
    destruct merge; [|exact Hres].
    destruct (elItems b !! (pos + 1)); exact Hres.
Qed.

Lemma forEachChild_ok h (recur : builder) positions b :
  recurOk h recur -> Forall (goodItem h) (elItems b) ->
  (forEachChild schema recur positions b).1 = Normal /\
  Forall (goodItem h) (elItems (forEachChild schema recur positions b).2).
Proof.
  intros Hrec. revert b. induction positions as [|pos positions IH]; intros b Hb.
  - done.
  - cbn [forEachChild].
    destruct (createChildren_ok h recur pos b Hrec Hb) as [Hc Hg].
    destruct (createChildren schema recur pos b) as [c b']. cbn in Hc, Hg. subst c.
    by apply IH.
Qed.

Lemma wellKinded_items r i n a l :
  Measure.wellKinded (Y.XmlFragment r i n a l) = true ->
  is_Some i /\ is_Some n /\ Forall (fun c => Measure.wellKinded c = true) l.
Proof.
  cbn. destruct i, n; try done. intros H. repeat split; eauto.
  apply Forall_forall. intros c Hc. apply list_elem_of_In in Hc.
  revert c Hc. by apply forallb_forall.
Qed.

Lemma createNodeFromYElement_ok fuel :
  recurOk fuel (createNodeFromYElement schema fuel).
Proof.
  induction fuel as [|fuel IH]; intros el st He [Hh Hw]; [lia|].
  destruct el as [r i n a l| |]; try done.
  destruct (wellKinded_items _ _ _ _ _ Hw) as ([item ->] & [name ->] & Hl).
  cbn [Measure.height] in Hh. fold (maxHeight l) in Hh.
  assert (maxHeight l < fuel) as Hmax by lia.
  apply maxHeight_lt in Hmax as [Hf Hmax].
  assert (Hitems : Forall (goodItem fuel) l).
  { apply Forall_forall. intros c Hc. split.
    - by apply (proj1 (Forall_forall _ _) Hmax).
    - by apply (proj1 (Forall_forall _ _) Hl). }
  cbn [createNodeFromYElement Y.items].
  match goal with
  | |- context [forEachChild ?s ?rc ?ps ?b] =>
      destruct (forEachChild_ok fuel rc ps b IH Hitems) as [Hc Hg];
      destruct (forEachChild s rc ps b) as [c b']
  end.
  cbn in Hc, Hg. subst c.
  assert (Hgood : goodItem (S fuel)
            (Y.XmlFragment r (Some item) (Some name) a (elItems b'))).
  { split.
    - cbn [Measure.height]. fold (maxHeight (elItems b')).
      assert (maxHeight (elItems b') < fuel); [|lia].
      apply maxHeight_lt. split; [done|].
      eapply Forall_impl; [exact Hg|]. by intros c [? ?].
    - cbn. apply forallb_forall. intros c Hc. apply list_elem_of_In in Hc.
      by destruct (proj1 (Forall_forall _ _) Hg c Hc). }
  cbn [Y.withItems].
  destruct (tryCreateNode _ _ _ _) as [node|]; cbn [fst snd Y._item].
  - done.
  - split; [done|]. destruct Hgood as [H1 H2]. split.
    + by rewrite height_deleteType.
    + by rewrite wellKinded_deleteType.
Qed.

(** What [createNodeFromYElement] returns on a well-kinded element, by
    the outcome of [tryCreateNode] on the children it has built. *)
Lemma createNodeFromYElement_outcome fuel el st :
  Y.isXmlElement el = true ->
  Measure.wellKinded el = true ->
  Measure.height el <= fuel ->
  let b := builtChildren schema fuel el st in
  let el1 := Y.withItems (elItems b) el in
  match tryCreateNode schema el1 (children b) (bstate b) with
  | None =>
      exists st',
        createNodeFromYElement schema (S fuel) el st =
          (Normal, None, Y.deleteType el1, st') /\
        Y.isDeleted (Y.deleteType el1) = true /\
        mapping (meta st') !! Y.ref el = None
  | Some node =>
      exists st',
        createNodeFromYElement schema (S fuel) el st = (Normal, Some node, el1, st') /\
        mapping (meta st') !! Y.ref el = Some (OneNode node)
  end.
Proof.
  intros He Hw Hh b el1.
  destruct el as [r i n a l| |]; try done.
  destruct (wellKinded_items _ _ _ _ _ Hw) as ([item ->] & [name ->] & Hl).
  cbn [Measure.height] in Hh. fold (maxHeight l) in Hh.
  assert (maxHeight l < fuel) as Hmax by lia.
  apply maxHeight_lt in Hmax as [Hf Hmax].
  assert (Hitems : Forall (goodItem fuel) l).
  { apply Forall_forall. intros c Hc. split.
    - by apply (proj1 (Forall_forall _ _) Hmax).
    - by apply (proj1 (Forall_forall _ _) Hl). }
  subst b el1. unfold builtChildren.
  cbn [createNodeFromYElement Y.items].
  match goal with
  | |- context [forEachChild ?s ?rc ?ps ?b] =>
      destruct (forEachChild_ok fuel rc ps b (createNodeFromYElement_ok fuel) Hitems)
        as [Hc _];
      destruct (forEachChild s rc ps b) as [c b']
  end.
  cbn in Hc. subst c. cbn [snd Y.withItems].
  destruct (tryCreateNode _ _ _ _) as [node|]; cbn.
  - eexists. split; [reflexivity|]. cbn. apply lookup_insert_eq.
  - eexists. split; [reflexivity|]. split; [done|]. cbn. apply lookup_delete_eq.
Qed.

(** C6. When the construction of the node fails in
    [createNodeFromYElement] (the schema refuses the children that were
    built), the call completes normally, returns null, has deleted the
    shared element and has removed its entry from the mapping. *)
Theorem createNodeFromYElement_self_heals fuel el st :
  Y.isXmlElement el = true ->
  Measure.wellKinded el = true ->
  Measure.height el <= fuel ->
  let b := builtChildren schema fuel el st in
  let el1 := Y.withItems (elItems b) el in
  tryCreateNode schema el1 (children b) (bstate b) = None ->
  exists st',
    createNodeFromYElement schema (S fuel) el st =
      (Normal, None, Y.deleteType el1, st') /\
    Y.isDeleted (Y.deleteType el1) = true /\
    mapping (meta st') !! Y.ref el = None.
Proof.
  intros He Hw Hh b el1 Hfail.
  pose proof (createNodeFromYElement_outcome fuel el st He Hw Hh) as H.
  cbv zeta in H. fold b in H. fold el1 in H. by rewrite Hfail in H.
Qed.

(** ** Fuel *)

Lemma height_withSpans f t : Measure.height (YText.withSpans f t) = Measure.height t.
Proof. destruct t; try done. unfold YText.withSpans. by destruct (Y.isDeleted _). Qed.

Lemma createTextNodesFromYText_height t st :
  (createTextNodesFromYText schema t st).1.1.1 <> OutOfFuel /\
  Measure.height (createTextNodesFromYText schema t st).1.2 = Measure.height t.
Proof.
  unfold createTextNodesFromYText. destruct (Y.isXmlText t); [|done].
  destruct (textNodesOfDeltas _ _ _) as [[nodes|] st']; cbn [fst snd]; [done|].
  by rewrite height_deleteType.
Qed.

Lemma createChildren_fuel h (recur : builder) pos b :
  recurFuel h recur -> Forall (fun c => Measure.height c < h) (elItems b) ->
  (createChildren schema recur pos b).1 <> OutOfFuel /\
  Forall (fun c => Measure.height c < h) (elItems (createChildren schema recur pos b).2).
Proof.
  intros Hrec Hb. unfold createChildren.
  destruct (elItems b !! pos) as [type|] eqn:Epos; [|done].
  assert (Hgood : Measure.height type < h) by (eapply (Forall_lookup_1 _ _ _ _ Hb); eauto).
  destruct (Y.isXmlElement type) eqn:He.
  - unfold createNodeIfNotExistsWith.
    destruct (mapping (meta (bstate b)) !! Y.ref type) as [node|].
    + cbn. split; [done|]. by apply Forall_insert.
    + rewrite He. destruct (Hrec type (bstate b) Hgood) as [Hc Hg].
      destruct (recur type (bstate b)) as [[[c n] type'] st']. cbn in *.
      split; [done|]. by apply Forall_insert.
  - set (merge := match elItems b !! (pos + 1) with Some _ => _ | None => false end).
    set (merged := match merge, elItems b !! (pos + 1) with
                   | true, Some next => _ | _, _ => (type, elItems b) end).
    assert (Hmerged : Measure.height merged.1 < h /\
                      Forall (fun c => Measure.height c < h) merged.2).
    { subst merged. destruct merge; [|done].
      destruct (elItems b !! (pos + 1)) as [next|] eqn:En; [|done].
      cbn [fst snd]. unfold YText.applyDelta. rewrite height_withSpans.
      split; [done|].
      apply Forall_insert; [apply Forall_insert; [done|]|].
      - by rewrite height_withSpans.
      - rewrite height_deleteType. eapply (Forall_lookup_1 _ _ _ _ Hb); eauto. }
    destruct Hmerged as (Hm1 & Hm3).
    assert ((let '(type0, items) := merged in
             let '(c, ns, type1, st) := createTextNodesFromYText schema type0 (bstate b) in
             (c, {| elItems := <[pos:=type1]> items;
                    children := match ns with
                                | Some ns0 => children b ++ map OneNode ns0
                                | None => children b
                                end;
                    bstate := st |})).1 <> OutOfFuel /\
            Forall (fun c => Measure.height c < h) (elItems (let '(type0, items) := merged in
             let '(c, ns, type1, st) := createTextNodesFromYText schema type0 (bstate b) in
             (c, {| elItems := <[pos:=type1]> items;
                    children := match ns with
                                | Some ns0 => children b ++ map OneNode ns0
                                | None => children b
                                end;
                    bstate := st |})).2)) as Hres.
    { destruct merged as [type0 items0]. cbn [fst snd] in *.
      destruct (createTextNodesFromYText_height type0 (bstate b)) as (Hc & Hx).
      destruct (createTextNodesFromYText schema type0 (bstate b)) as [[[c ns] type1] st'].
      cbn in *. split; [done|]. apply Forall_insert; [done|]. lia. }
    destruct merge; [|exact Hres].
    destruct (elItems b !! (pos + 1)); [|exact Hres].
    destruct (Y.isXmlText type); [exact Hres|]. done.
Qed.

Lemma forEachChild_fuel h (recur : builder) positions b :
  recurFuel h recur -> Forall (fun c => Measure.height c < h) (elItems b) ->
  (forEachChild schema recur positions b).1 <> OutOfFuel /\
  Forall (fun c => Measure.height c < h)
         (elItems (forEachChild schema recur positions b).2).
Proof.
  intros Hrec. revert b. induction positions as [|pos positions IH]; intros b Hb.
  - done.
  - cbn [forEachChild].
    destruct (createChildren_fuel h recur pos b Hrec Hb) as [Hc Hg].
    destruct (createChildren schema recur pos b) as [c b']. cbn in Hc, Hg.
    destruct c; [by apply IH | done | done].
Qed.

Lemma createNodeFromYElement_fuel fuel :
  recurFuel fuel (createNodeFromYElement schema fuel).
Proof.
  induction fuel as [|fuel IH]; intros el st Hh; [lia|].
  destruct el as [r i n a l| |]; [|done..].
  cbn [Measure.height] in Hh. fold (maxHeight l) in Hh.
  assert (maxHeight l < fuel) as Hmax by lia.
  apply maxHeight_lt in Hmax as [Hf Hmax].
  cbn [createNodeFromYElement Y.items].
  match goal with
  | |- context [forEachChild ?s ?rc ?ps ?b] =>
      destruct (forEachChild_fuel fuel rc ps b IH Hmax) as [Hc Hg];
      destruct (forEachChild s rc ps b) as [c b']
  end.
  cbn in Hc, Hg.
  assert (Hgood : Measure.height (Y.XmlFragment r i n a (elItems b')) < S fuel).
  { cbn [Measure.height]. fold (maxHeight (elItems b')).
    assert (maxHeight (elItems b') < fuel); [|lia]. by apply maxHeight_lt. }
  destruct c; cbn [fst snd Y.withItems]; [|done..].
  destruct (tryCreateNode _ _ _ _) as [node|]; cbn [fst snd Y._item]; [done|].
  destruct i; cbn [fst snd]; [|done].
  split; [done|]. by rewrite height_deleteType.
Qed.

Lemma createNodeFromYElement_enough_fuel fuel el st :
  Measure.height el < fuel ->
  (createNodeFromYElement schema fuel el st).1.1.1 <> OutOfFuel.
Proof. intros H. by apply createNodeFromYElement_fuel. Qed.

(** ** The merge of a text with the text that follows it *)

(** ** The text of a merged run *)

Lemma plain_cons s a l : plain ((s, a) :: l) = s +:+ plain l.
Proof. done. Qed.

Lemma plain_app l1 l2 : plain (l1 ++ l2) = plain l1 +:+ plain l2.
Proof.
  induction l1 as [|[s a] l1 IH]; [done|].
  cbn [app plain fold_right fst]. fold (plain (l1 ++ l2)) (plain l1).
  by rewrite IH, str_app_assoc.
Qed.

Lemma plain_normalize l : plain (YText.normalize l) = plain l.
Proof.
  induction l as [|[s a] l IH]; [done|].
  cbn [YText.normalize plain fold_right fst]. fold (plain l).
  destruct (String.eqb_spec s "") as [->|Hs]; [exact IH|].
  rewrite <- IH. destruct (YText.normalize l) as [|[s' a'] l'']; [done|].
  destruct (YText.noAttributes a && YText.noAttributes a'); [|done].
  cbn [plain fold_right fst]. by rewrite str_app_assoc.
Qed.

Lemma plain_splitAt n l :
  plain (YText.splitAt n l).1 +:+ plain (YText.splitAt n l).2 = plain l.
Proof.
  revert n. induction l as [|[s a] l IH]; intros n.
  - by destruct n.
  - destruct n as [|n]; [done|].
    cbn [YText.splitAt]. destruct (String.length s <=? S n).
    + specialize (IH (S n - String.length s)).
      destruct (YText.splitAt (S n - String.length s) l) as [before after].
      cbn [fst snd] in *. by rewrite !plain_cons, str_app_assoc, IH.
    + cbn [fst snd]. rewrite !plain_cons. change (plain []) with "".
      by rewrite str_app_nil_r, <- str_app_assoc, str_take_drop.
Qed.





Lemma ytextTrans_plain r i spans : (ytextTrans (Y.XmlText r i spans)).1 = plain spans.
Proof. done. Qed.

End CreateFacts.

Section CreateExamples.

Import Sync Spec.

(** The theorem of C6 on a paragraph that holds a paragraph: the schema
    refuses the content, the element is deleted and null is returned. *)
Lemma createNodeFromYElement_self_heals_witness :
  exists st',
    createNodeFromYElement Basic.schema 4 Example.nestedParagraphs
      Basic.emptyState =
      (Normal, None,
       Y.deleteType
         (Y.withItems
            (elItems (builtChildren Basic.schema 3 Example.nestedParagraphs
                        Basic.emptyState))
            Example.nestedParagraphs), st') /\
    Y.isDeleted
      (Y.deleteType
         (Y.withItems
            (elItems (builtChildren Basic.schema 3 Example.nestedParagraphs
                        Basic.emptyState))
            Example.nestedParagraphs)) = true /\
    mapping (meta st') !! Y.ref Example.nestedParagraphs = None.
Proof.
  apply (createNodeFromYElement_self_heals Basic.schema 3
           Example.nestedParagraphs Basic.emptyState).
  - reflexivity.
  - reflexivity.
  - vm_compute. lia.
  - reflexivity.
Defined.


(** What the theorem of C7 leaves out: a leader that is deleted. The
    children are listed once, before the first of them is visited, so a
    text that was just merged into the text before it, and deleted, is
    visited all the same. On three texts of the local replica (client 1)
    the second one is merged into the first, and then, deleted as it is,
    takes the third one with it: the node that is built reads [abcd], and
    all that is left of the shared paragraph is the first text. *)
Lemma createNodeFromYElement_three_local_texts :
  exists el' st',
    createNodeFromYElement Basic.schema 2 (Example.threeTexts 1) Basic.emptyState =
      (Normal,
       Some (PM.Elem 101 "paragraph" [("align", Js.Null)] [PM.Text 100 "abcd" []] []),
       el', st') /\
    Y.toArray el' = [Y.XmlText 41 (Example.item 1 41) [("abcd", [])]].
Proof. do 2 eexists. split; vm_compute; reflexivity. Qed.


End CreateExamples.


(* ===================================================================== *)
(** * Properties: rendering a snapshot *)
(* ===================================================================== *)

Section SnapshotWindow.

Import Sync Spec AtSnapshot.

Context (schema : PM.Schema).
Context {World : Type}.
Context (snapshot prevSnapshot : YDoc.Snapshot).
Context (computeYChange :
           option (string -> Y.ID -> World -> Completion * Js.value * World)).
Context (getAttributesAt : Y.AbstractType -> Js.object).
Context (toDeltaAt : Y.AbstractType -> World -> Completion * list YText.Op * World).
Context (hasContentAt : Y.AbstractType -> bool).

(** On one top-level type that the mixed snapshot lists, the test of
    [_renderSnapshot] is the visibility under one of the two snapshots. *)
Lemma renderTopLevel_window fuel t st w :
  inWindowOrder snapshot prevSnapshot t = true ->
  match Y._item t with
  | Some i => YDoc.isVisible i (window snapshot prevSnapshot)
  | None => false
  end = true ->
  renderTopLevel schema snapshot prevSnapshot computeYChange getAttributesAt
    toDeltaAt hasContentAt fuel t st w =
  if visibleInWindow snapshot prevSnapshot t
  then build schema snapshot prevSnapshot computeYChange getAttributesAt
         toDeltaAt hasContentAt fuel t st w
  else (Normal, None, t, st, w).
Proof.
  unfold inWindowOrder, renderTopLevel, visibleInWindow, window.
  destruct (Y._item t) as [item|]; [|done].
  unfold YDoc.isVisible, isVisible. cbn [YDoc.sv YDoc.ds].
  destruct (YDoc.sv snapshot !! Y.client (Y.id item)) as [c|],
    (YDoc.sv prevSnapshot !! Y.client (Y.id item)) as [c0|].
  all: try destruct (Nat.ltb_spec (Y.clock (Y.id item)) c).
  all: try destruct (Nat.ltb_spec (Y.clock (Y.id item)) c0).
  all: try destruct (Nat.leb_spec c0 c).
  all: destruct (YDoc.isDeleted (YDoc.ds prevSnapshot) (Y.id item)),
      (YDoc.isDeleted (YDoc.ds snapshot) (Y.id item)),
      (Y.deleted item); cbn; try done; lia.
Qed.

(** A type that one of the two snapshots shows is listed by the mixed
    snapshot. *)
Lemma visibleInWindow_listed t :
  inWindowOrder snapshot prevSnapshot t = true ->
  visibleInWindow snapshot prevSnapshot t = true ->
  match Y._item t with
  | Some i => YDoc.isVisible i (window snapshot prevSnapshot)
  | None => false
  end = true.
Proof.
  unfold inWindowOrder, visibleInWindow, window.
  destruct (Y._item t) as [item|]; [|done].
  unfold YDoc.isVisible, isVisible. cbn [YDoc.sv YDoc.ds].
  destruct (YDoc.sv snapshot !! Y.client (Y.id item)) as [c|],
    (YDoc.sv prevSnapshot !! Y.client (Y.id item)) as [c0|].
  all: try destruct (Nat.ltb_spec (Y.clock (Y.id item)) c).
  all: try destruct (Nat.ltb_spec (Y.clock (Y.id item)) c0).
  all: try destruct (Nat.leb_spec c0 c).
  all: destruct (YDoc.isDeleted (YDoc.ds prevSnapshot) (Y.id item)),
      (YDoc.isDeleted (YDoc.ds snapshot) (Y.id item)),
      (Y.deleted item); cbn; try done; lia.
Qed.

(** The rendering of a window, whatever [computeYChange] is. *)
Lemma fragmentContent_window_any fuel (historyType : Y.AbstractType) st w :
  forallb (inWindowOrder snapshot prevSnapshot) (Y.items historyType) = true ->
  sameRendering
    (fragmentContent schema snapshot prevSnapshot computeYChange
       getAttributesAt toDeltaAt hasContentAt fuel historyType st w)
    (mapTypes
       (build schema snapshot prevSnapshot computeYChange getAttributesAt
          toDeltaAt hasContentAt fuel)
       (List.filter (visibleInWindow snapshot prevSnapshot) (Y.items historyType))
       st w).
Proof.
  unfold fragmentContent, YDoc.typeListToArraySnapshot.
  fold (window snapshot prevSnapshot).
  intros Hw. revert st w.
  induction (Y.items historyType) as [|t ts IH]; intros st w; [done|].
  cbn [forallb] in Hw. apply andb_prop in Hw as [Ht Hts]. specialize (IH Hts).
  cbn [List.filter].
  destruct (match Y._item t with
            | Some i => YDoc.isVisible i (window snapshot prevSnapshot)
            | None => false
            end) eqn:El.
  - cbn [mapTypes]. rewrite (renderTopLevel_window fuel t st w Ht El).
    destruct (visibleInWindow snapshot prevSnapshot t).
    + cbn [mapTypes].
      destruct (build _ _ _ _ _ _ _ fuel t st w) as [[[[c n] t'] st'] w'].
      destruct c; [|done|done].
      destruct (IH st' w') as (H1 & H2 & H3 & H4).
      unfold sameRendering. cbn. rewrite H1, H2, H3, H4. done.
    + apply IH.
  - destruct (visibleInWindow snapshot prevSnapshot t) eqn:Ev; [|apply IH].
    by rewrite (visibleInWindow_listed t Ht Ev) in El.
Qed.

End SnapshotWindow.

Section SnapshotWindowTheorem.

Import Sync Spec.

Context (schema : PM.Schema).
Context {ColorDef : Type} `{EqDecision ColorDef}.
Context (rand : nat -> nat) (colorValue : option ColorDef -> Js.value).
Context (pud : option Render.PermanentUserData) (colors : list ColorDef).
Context (snapshot prevSnapshot : YDoc.Snapshot).
Context (getAttributesAt : Y.AbstractType -> Js.object).
Context (toDeltaAt : Y.AbstractType -> gmap (option string) (option ColorDef) ->
                     Completion * list YText.Op *
                     gmap (option string) (option ColorDef)).
Context (hasContentAt : Y.AbstractType -> bool).

(** C5, as the code has it. When the two snapshots are a window on the
    history of the document (the previous one is not later than the
    current one, and what the current one holds as deleted is deleted in
    the document), [createNodeFromYElement] is called on the top-level
    types that are visible under the current snapshot or under the
    previous one, on these only and in their order, and the rendered
    content is made of the nodes that these calls return. *)
Theorem fragmentContent_window fuel (historyType : Y.AbstractType) st colorMapping :
  forallb (inWindowOrder snapshot prevSnapshot) (Y.items historyType) = true ->
  sameRendering
    (Render.fragmentContent schema rand colorValue pud colors snapshot
       prevSnapshot getAttributesAt toDeltaAt hasContentAt fuel historyType
       st colorMapping)
    (Render.buildAll schema rand colorValue pud colors snapshot prevSnapshot
       getAttributesAt toDeltaAt hasContentAt fuel
       (List.filter (visibleInWindow snapshot prevSnapshot) (Y.items historyType))
       st colorMapping).
Proof.
  intros Hw. unfold Render.fragmentContent, Render.buildAll.
  by apply fragmentContent_window_any.
Qed.

End SnapshotWindowTheorem.

Section SnapshotExamples.

Import Sync Spec.

(** The theorem of C5 on a history of four paragraphs. *)
Lemma fragmentContent_window_witness :
  sameRendering
    (Example.rendered (Some Example.userData) Example.snapshot
       Example.prevSnapshot Example.history)
    (Render.buildAll Basic.schema (fun n => n - 1) Example.colorValue
       (Some Example.userData) [7; 8] Example.snapshot Example.prevSnapshot
       Y.getAttributes Example.liveDelta Example.liveContent 2
       (List.filter (visibleInWindow Example.snapshot Example.prevSnapshot)
          (Y.items Example.history))
       Example.freshState ∅).
Proof.
  apply (fragmentContent_window Basic.schema (fun n => n - 1) Example.colorValue
           (Some Example.userData) [7; 8] Example.snapshot Example.prevSnapshot
           Y.getAttributes Example.liveDelta Example.liveContent 2
           Example.history Example.freshState ∅).
  vm_compute. reflexivity.
Defined.

(** There the paragraph from before the window and the one that the window
    deletes are rendered; the one that was added and deleted inside the
    window and the one from after it are not. *)
Lemma fragmentContent_history :
  AtSnapshot.completion
    (Example.rendered (Some Example.userData) Example.snapshot
       Example.prevSnapshot Example.history) = Normal /\
  AtSnapshot.content
    (Example.rendered (Some Example.userData) Example.snapshot
       Example.prevSnapshot Example.history) =
  [Example.emptyParagraph 200; Example.emptyParagraph 201] /\
  map Y.ref
    (List.filter (visibleInWindow Example.snapshot Example.prevSnapshot)
       (Y.items Example.history)) = [61; 62].
Proof. repeat split; vm_compute; reflexivity. Qed.

(** C5, as it is stated, fails when the two snapshots are not a window: on
    that history with the two snapshots exchanged, the paragraphs 61 and 62
    are visible under one of the snapshots, and only one paragraph is
    rendered. *)
Lemma fragmentContent_snapshots_exchanged :
  ~ rendersWhatEitherShows Basic.schema (fun n => n - 1) Example.colorValue
      (Some Example.userData) [7; 8] Y.getAttributes Example.liveDelta
      Example.liveContent.
Proof.
  intros H.
  destruct (H Example.prevSnapshot Example.snapshot 2 Example.history
              Example.freshState ∅) as (_ & Hcontent & _).
  apply (f_equal (@length PM.Node)) in Hcontent.
  vm_compute in Hcontent. discriminate Hcontent.
Qed.

(** What the theorem of C5 leaves open is whether a call returns a node.
    Without user data, which is the default of the plugin,
    [computeYChange] throws inside the [try] of [createNodeFromYElement]:
    the paragraph that the window adds is visible under the current
    snapshot, and it is deleted and left out. *)
Lemma fragmentContent_added_without_user_data :
  AtSnapshot.completion
    (Example.rendered None Example.snapshotAdded Example.prevSnapshot
       Example.historyAdded) = Normal /\
  AtSnapshot.content
    (Example.rendered None Example.snapshotAdded Example.prevSnapshot
       Example.historyAdded) = [Example.emptyParagraph 200] /\
  map (fun t => (Y.ref t, Y.isDeleted t))
    (AtSnapshot.types
       (Example.rendered None Example.snapshotAdded Example.prevSnapshot
          Example.historyAdded)) = [(61, false); (65, true)] /\
  map Y.ref
    (List.filter (visibleInWindow Example.snapshotAdded Example.prevSnapshot)
       (Y.items Example.historyAdded)) = [61; 65].
Proof. repeat split; vm_compute; reflexivity. Qed.

End SnapshotExamples.


(* ===================================================================== *)
(** * Properties: restoring the selection *)
(* ===================================================================== *)

Section RestoreSelectionFacts.

Import Sync Spec.

Context {RelativePosition : Type}.
Context (resolve : RelativePosition -> option nat).

(** C8, as the code has it. Nothing is set when no selection was stored
    or one of its ends was stored as null. A stored selection of
    everything is set again without resolving a position. A stored range
    is set when both of its ends resolve, and nothing is set when one of
    them does not. *)
Theorem restoreRelativeSelection_fallback (tr : Transaction)
    (relSel : option (@RelativeSelection RelativePosition)) :
  ((relSel = None \/
    exists rs, relSel = Some rs /\ (anchor rs = None \/ head rs = None)) ->
   restoreRelativeSelection resolve tr relSel = tr) /\
  (forall rs a h, relSel = Some rs -> anchor rs = Some a -> head rs = Some h ->
     (type rs = "all" ->
      restoreRelativeSelection resolve tr relSel = setSelection AllSelection tr) /\
     (type rs <> "all" -> type rs <> "node" ->
      (resolve a = None \/ resolve h = None ->
       restoreRelativeSelection resolve tr relSel = tr) /\
      (forall x y, resolve a = Some x -> resolve h = Some y ->
       restoreRelativeSelection resolve tr relSel =
       setSelection (TextSelection x y) tr))).
Proof.
  split.
  - intros [-> | (rs & -> & [E|E])]; [done| |]; simpl; rewrite E; [done|].
    by destruct (anchor rs).
  - intros rs a h -> Ea Eh. simpl. rewrite Ea, Eh. split.
    + intros ->. done.
    + intros Hall Hnode.
      destruct (String.eqb_spec (type rs) "all"); [done|].
      destruct (String.eqb_spec (type rs) "node"); [done|].
      split.
      * intros [E|E]; rewrite E; [done|]. by destruct (resolve a).
      * intros x y -> ->. done.
Qed.

End RestoreSelectionFacts.

Section RestoreSelectionExamples.

Import Sync Spec.

(** C8, as it is stated, fails on a stored selection of everything: it is
    set again although no position resolves. *)
Lemma restoreRelativeSelection_all_is_set :
  ~ unresolvedLeavesDefault.
Proof.
  intros H.
  specialize (H Example.resolveNothing Example.untouched Example.allSelection
                0 7 eq_refl eq_refl (or_introl eq_refl)).
  discriminate H.
Qed.

(** The theorem of C8 on a stored range none of whose ends resolves. *)
Lemma restoreRelativeSelection_fallback_witness :
  restoreRelativeSelection Example.resolveNothing Example.untouched
    (Some Example.rangeSelection) = Example.untouched.
Proof.
  destruct (restoreRelativeSelection_fallback Example.resolveNothing
              Example.untouched (Some Example.rangeSelection)) as [_ H].
  destruct (H Example.rangeSelection 0 7 eq_refl eq_refl eq_refl) as [_ Hrange].
  destruct Hrange as [Hnone _]; [discriminate | discriminate |].
  apply Hnone. left. reflexivity.
Defined.

(** A stored node selection is handed to [NodeSelection.create] with the
    anchor as it resolves, also when that is null. *)
Lemma restoreRelativeSelection_node :
  restoreRelativeSelection Example.resolveNothing Example.untouched
    (Some Example.nodeSelection) =
  setSelection (NodeSelection None) Example.untouched.
Proof. reflexivity. Qed.

(** A stored range none of whose ends resolves leaves the transaction as
    it is; one whose ends resolve is set. *)
Lemma restoreRelativeSelection_range :
  restoreRelativeSelection Example.resolveNothing Example.untouched
    (Some Example.rangeSelection) = Example.untouched /\
  restoreRelativeSelection Example.resolveAll Example.untouched
    (Some Example.rangeSelection) =
  setSelection (TextSelection 1 8) Example.untouched.
Proof. split; reflexivity. Qed.

End RestoreSelectionExamples.


(* ===================================================================== *)
(** * Properties: the embedding and the source *)
(* ===================================================================== *)

Section ForwardEquations.

Import Sync Spec.

Context (schema : PM.Schema) (hashOfJSON : Js.value -> string).

(** [ytype.toArray().every(f)] *)
Lemma everyVisibleFrom_visible f i l :
  Arr.everyVisibleFrom f i l = Arr.everyFrom f i (Y.visible l).
Proof.
  revert i. induction l as [|c l IH]; intros i; [done|].
  cbn [Arr.everyVisibleFrom Y.visible List.filter]. fold (Y.visible l).
  destruct (Y.live c); cbn [Arr.everyFrom]; by rewrite IH.
Qed.

Lemma everyVisible_toArray f t :
  Arr.everyVisible f (Y.items t) = Arr.every f (Y.toArray t).
Proof. apply everyVisibleFrom_visible. Qed.

Lemma mapState_app f l1 l2 st :
  mapState f (l1 ++ l2) st =
  let '(ys1, st) := mapState f l1 st in
  let '(ys2, st) := mapState f l2 st in
  (ys1 ++ ys2, st).
Proof.
  revert st. induction l1 as [|s l1 IH]; intros st; cbn [app mapState].
  - by destruct (mapState f l2 st).
  - destruct (f s st) as [y st1]. rewrite IH.
    destruct (mapState f l1 st1) as [ys1 st2].
    by destruct (mapState f l2 st2).
Qed.

Lemma mapState_ext f g l st :
  (forall slot st, f slot st = g slot st) -> mapState f l st = mapState g l st.
Proof.
  intros E. revert st. induction l as [|s l IH]; intros st; [done|].
  cbn [mapState]. rewrite E. destruct (g s st) as [y st1]. by rewrite IH.
Qed.

(** The pass of [mapSlots] over the content of a node is the map over
    its normalized content. *)
Lemma mapSlots_normalize onNode c textNodes st :
  mapSlots schema hashOfJSON onNode c textNodes st =
  mapState (fun slot =>
              match slot with
              | TextNodes nodes => createTypeFromTextNodes schema hashOfJSON nodes
              | OneNode n => onNode n
              end)
           (normalizeFrom c textNodes) st.
Proof.
  revert textNodes st. induction c as [|n c IH]; intros textNodes st.
  - cbn [mapSlots normalizeFrom]. destruct textNodes as [|t ts]; [done|].
    cbn [flushTextNodes mapState]. by destruct (createTypeFromTextNodes _ _ _ _).
  - cbn [mapSlots normalizeFrom]. destruct (PM.isText n); [apply IH|].
    rewrite mapState_app. destruct textNodes as [|t ts].
    + cbn [flushTextNodes mapState app]. destruct (onNode n st) as [y st1].
      rewrite IH. by destruct (mapState _ _ st1).
    + cbn [flushTextNodes mapState app].
      destruct (createTypeFromTextNodes _ _ _ _) as [ty st1].
      destruct (onNode n st1) as [y st2]. rewrite IH. by destruct (mapState _ _ st2).
Qed.

(** [createTypeFromElementNode], in the words of the source. *)
Lemma createTypeFromElementNode_eq node st :
  createTypeFromElementNode schema hashOfJSON node st =
  let '(ref, item, st) := newType st in
  let type := Y.XmlFragment ref (Some item) (Some (PM.typeName node)) [] [] in
  let nodeMarksAttr := nodeMarksToAttributes (PM.marks node) in
  let type :=
    fold_left (fun type kv =>
                 if negb (Js.isNull (snd kv)) && negb (String.eqb (fst kv) "ychange")
                 then Y.setAttribute (fst kv) (snd kv) type else type)
              (PM.attrs node) type in
  let type :=
    fold_left (fun type kv => Y.setAttribute (fst kv) (snd kv) type)
              nodeMarksAttr type in
  let '(children, st) :=
    mapState (createTypeFromTextOrElementNode schema hashOfJSON)
             (normalizePNodeContent node) st in
  let type := Y.insert 0 children type in
  let st := mappingSet type (OneNode node) st in
  (type, st).
Proof.
  destruct node as [r t mks | r name attrs c mks]; [done|].
  cbn [createTypeFromElementNode]. destruct (newType st) as [[ref item] st0].
  rewrite mapSlots_normalize.
  erewrite mapState_ext; [reflexivity|]. by intros [nodes|n] st'.
Qed.

End ForwardEquations.


(* ===================================================================== *)
(** * Properties: the round trip *)
(* ===================================================================== *)

Section RoundTrip.

Import Sync Spec.

Context (hashOfJSON : Js.value -> string).

(** The shared type of a paragraph whose text carries two comments: the
    text has one attribute per comment, under its hashed name (one
    attribute for both when their hashes are the same). *)
Lemma createTypeFromElementNode_two_comments :
  (createTypeFromElementNode Basic.schema hashOfJSON Example.twoComments
     Basic.emptyState).1 =
  Y.XmlFragment 1 (Example.item 1 0) (Some "paragraph") []
    [Y.XmlText 2 (Example.item 1 1)
       [("a", YText.format
                (Js.assign [] (Example.twoKeys (Example.commentKey hashOfJSON 1)
                                 (Example.commentKey hashOfJSON 2))) [])]].
Proof. vm_compute. reflexivity. Qed.

Lemma format_twoKeys k1 k2 :
  YText.format (Js.assign [] (Example.twoKeys k1 k2)) [] = Example.twoKeys k1 k2.
Proof.
  unfold Example.twoKeys. cbn [Js.set].
  destruct (String.eqb k1 k2) eqn:E.
  - cbn. done.
  - cbn. rewrite E. cbn. by rewrite E.
Qed.

(** Whatever the names of the two attributes are, [equalYTextPText] looks
    both up by the name of the mark type, finds the first comment both
    times, and compares the second attribute with it. *)
Lemma equalYTextPText_two_marks_of_one_type r i p k1 k2 :
  equalYTextPText (Y.XmlText r i [("a", Example.twoKeys k1 k2)])
    [PM.Text p "a" [Example.comment 1; Example.comment 2]] = false.
Proof.
  unfold equalYTextPText, Example.twoKeys. cbn [YText.toDelta map fst snd Js.set].
  destruct (String.eqb k1 k2) eqn:E; [done|].
  cbn -[yattr2markname].
  rewrite andb_true_r.
  set (m1 := yattr2markname k1). set (m2 := yattr2markname k2).
  assert (Hfind : forall m,
            findMarkAttrs [Example.comment 1; Example.comment 2] m =
            if ("comment" =? m)%string then Some [("id", Js.Num 1)] else None).
  { intros m. unfold findMarkAttrs.
    cbn [List.find PM.markName Example.comment PM.markAttrs].
    by destruct ("comment" =? m)%string. }
  rewrite !Hfind.
  destruct ("comment" =? m2)%string; cbn; by rewrite ?andb_false_r.
Qed.

(** C1 fails on the code. A paragraph whose text carries two marks of one
    type that does not exclude itself breaks no overlap rule, and
    [equalYTypePNode] judges the shared type that
    [createTypeFromElementNode] makes of it unequal to it, whatever the
    hash function is. *)
Theorem equalYTypePNode_rejects_two_marks_of_one_type :
  equalYTypePNode
    (createTypeFromElementNode Basic.schema hashOfJSON Example.twoComments
       Basic.emptyState).1 (OneNode Example.twoComments) = false.
Proof.
  rewrite createTypeFromElementNode_two_comments, format_twoKeys.
  cbn [equalYTypePNode].
  destruct (matchNodeName _ _); [|done].
  apply andb_false_intro2.
  change (normalizePNodeContent Example.twoComments)
    with [TextNodes [PM.Text 51 "a" [Example.comment 1; Example.comment 2]]].
  unfold Arr.everyVisible.
  cbn [Arr.everyVisibleFrom].
  change (Y.live (Y.XmlText 2 (Example.item 1 1)
                    [("a", Example.twoKeys (Example.commentKey hashOfJSON 1)
                             (Example.commentKey hashOfJSON 2))])) with true.
  cbn [lookup list_lookup equalYTypePNode].
  by rewrite equalYTextPText_two_marks_of_one_type.
Qed.

End RoundTrip.

Section RoundTripExamples.

Import Sync Spec.

(** The node that [createNodeFromYElement] builds back from that shared
    type, with a mapping of its own, carries the two comments again, and
    the oracle judges the shared type unequal to it as well. *)
Lemma createNodeFromYElement_two_comments :
  let y := (createTypeFromElementNode Basic.schema Basic.hashOfJSON
              Example.twoComments Basic.emptyState).1 in
  let node :=
    PM.Elem 201 "paragraph" [("align", Js.Null)]
      [PM.Text 200 "a" [Example.comment 1; Example.comment 2]] [] in
  exists st',
    createNodeFromYElement Basic.schema 2 y Example.freshState =
      (Normal, Some node, y, st') /\
    equalYTypePNode y (OneNode node) = false.
Proof. eexists. split; vm_compute; reflexivity. Qed.

(** On a document whose texts carry at most one mark of a type, the round
    trip holds: the oracle judges the shared type equal to the document
    and to the node that is built back from it. *)
Lemma roundtrip_docMarked :
  let y := (createTypeFromElementNode Basic.schema Basic.hashOfJSON
              Example.docMarked Basic.emptyState).1 in
  equalYTypePNode y (OneNode Example.docMarked) = true /\
  exists node y' st',
    createNodeFromYElement Basic.schema 3 y Example.freshState =
      (Normal, Some node, y', st') /\
    equalYTypePNode y' (OneNode node) = true /\
    equalYTypePNode y (OneNode node) = true.
Proof.
  split; [vm_compute; reflexivity|].
  eexists _, _, _. split; [vm_compute; reflexivity|].
  split; vm_compute; reflexivity.
Qed.

End RoundTripExamples.


(* ===================================================================== *)
(** * Properties: JavaScript objects *)
(* ===================================================================== *)

Section JsObjects.

Lemma get_set_eq k v o : Js.get (Js.set k v o) k = Some v.
Proof.
  induction o as [|[k' v'] o IH]; cbn.
  - by rewrite String.eqb_refl.
  - destruct (String.eqb k' k) eqn:E; cbn.
    + by rewrite String.eqb_refl.
    + by rewrite E.
Qed.

Lemma get_set_ne k k' v o : k <> k' -> Js.get (Js.set k v o) k' = Js.get o k'.
Proof.
  intros Hne. induction o as [|[k0 v0] o IH]; cbn.
  - destruct (String.eqb_spec k k'); done.
  - destruct (String.eqb_spec k0 k) as [->|Hk]; cbn.
    + destruct (String.eqb_spec k k'); done.
    + by rewrite IH.
Qed.

Lemma get_remove_ne k k' o : k <> k' -> Js.get (Js.remove k o) k' = Js.get o k'.
Proof.
  intros Hne. induction o as [|[k0 v0] o IH]; cbn; [done|].
  destruct (String.eqb_spec k0 k) as [->|Hk]; cbn.
  - destruct (String.eqb_spec k k'); done.
  - by rewrite IH.
Qed.

Lemma get_None_keys o k : Js.get o k = None <-> ~ In k (Js.keys o).
Proof.
  induction o as [|[k0 v0] o IH]; cbn; [tauto|].
  destruct (String.eqb_spec k0 k) as [->|Hk].
  - split; [done|]. intros H. exfalso. apply H. by left.
  - rewrite IH. split; [intros H [?|?]; done | tauto].
Qed.

Lemma get_remove_eq k o : NoDup (Js.keys o) -> Js.get (Js.remove k o) k = None.
Proof.
  induction o as [|[k0 v0] o IH]; cbn; [done|].
  intros Hnd. apply NoDup_cons in Hnd as [Hk0 Hnd].
  destruct (String.eqb_spec k0 k) as [->|Hk]; cbn.
  - apply get_None_keys. intros H. apply Hk0. by apply list_elem_of_In.
  - destruct (String.eqb_spec k0 k); [done|]. by apply IH.
Qed.

Lemma keys_set k v o :
  Js.keys (Js.set k v o) =
  match Js.get o k with Some _ => Js.keys o | None => Js.keys o ++ [k] end.
Proof.
  unfold Js.keys. induction o as [|[k0 v0] o IH]; cbn; [done|].
  destruct (String.eqb_spec k0 k) as [->|Hk]; cbn; [done|].
  rewrite IH. by destruct (Js.get o k).
Qed.

Lemma NoDup_keys_set k v o : NoDup (Js.keys o) -> NoDup (Js.keys (Js.set k v o)).
Proof.
  intros H. rewrite keys_set. destruct (Js.get o k) eqn:E; [done|].
  apply NoDup_app. split; [done|]. split; [|apply NoDup_singleton].
  intros x Hx Hx'. apply list_elem_of_singleton in Hx' as ->.
  apply get_None_keys in E. apply E. by apply list_elem_of_In.
Qed.

Lemma keys_remove_sub k o x : In x (Js.keys (Js.remove k o)) -> In x (Js.keys o).
Proof.
  induction o as [|[k0 v0] o IH]; cbn; [done|].
  destruct (String.eqb k0 k); cbn; [by right|]. intros [?|?]; [by left|right; eauto].
Qed.

Lemma NoDup_keys_remove k o : NoDup (Js.keys o) -> NoDup (Js.keys (Js.remove k o)).
Proof.
  induction o as [|[k0 v0] o IH]; cbn; [done|].
  intros Hnd. apply NoDup_cons in Hnd as [Hk0 Hnd].
  destruct (String.eqb k0 k); cbn; [done|].
  apply NoDup_cons. split; [|by apply IH].
  intros H. apply Hk0. apply list_elem_of_In. apply list_elem_of_In in H.
  by apply keys_remove_sub in H.
Qed.

Lemma NoDup_keys_assign a b : NoDup (Js.keys a) -> NoDup (Js.keys (Js.assign a b)).
Proof.
  unfold Js.assign. revert a. induction b as [|[k v] b IH]; intros a H; [done|].
  cbn. apply IH. by apply NoDup_keys_set.
Qed.

(** [{ ...a, ...b }[k]]: the value in [b] when [b] has the key, that in [a]
    otherwise. *)
Lemma get_assign a b k :
  NoDup (Js.keys b) ->
  Js.get (Js.assign a b) k =
  match Js.get b k with Some v => Some v | None => Js.get a k end.
Proof.
  unfold Js.assign. revert a. induction b as [|[k0 v0] b IH]; intros a Hnd; [done|].
  cbn in Hnd. apply NoDup_cons in Hnd as [Hk0 Hnd].
  cbn [fold_left fst snd Js.get]. rewrite IH by done.
  destruct (String.eqb_spec k0 k) as [->|Hk].
  - assert (Js.get b k = None) as ->.
    { apply get_None_keys. intros H. apply Hk0. by apply list_elem_of_In. }
    apply get_set_eq.
  - destruct (Js.get b k); [done|]. by apply get_set_ne.
Qed.

Lemma get_In o k v : NoDup (Js.keys o) -> In (k, v) o -> Js.get o k = Some v.
Proof.
  induction o as [|[k0 v0] o IH]; cbn; [done|].
  intros Hnd. apply NoDup_cons in Hnd as [Hk0 Hnd].
  intros [[= -> ->]|Hin].
  - by rewrite String.eqb_refl.
  - destruct (String.eqb_spec k0 k) as [->|Hk]; [|by apply IH].
    exfalso. apply Hk0. apply list_elem_of_In.
    apply (in_map fst) in Hin. exact Hin.
Qed.

End JsObjects.

(* ===================================================================== *)
(** * Properties: [normalizePNodeContent] *)
(* ===================================================================== *)

Section NormalizedContent.
Import Sync Spec Props.

Lemma normalizeFrom_nodes c textNodes :
  concat (map slotNodes (normalizeFrom c textNodes)) = textNodes ++ c.
Proof.
  revert textNodes. induction c as [|n c IH]; intros textNodes.
  - rewrite app_nil_r. destruct textNodes; [done|].
    cbn. by rewrite app_nil_r.
  - cbn [normalizeFrom]. destruct (PM.isText n).
    + rewrite IH. by rewrite <- app_assoc.
    + rewrite map_app, concat_app. cbn [map concat slotNodes].
      rewrite IH. cbn [app]. f_equal. destruct textNodes; [done|].
      cbn. by rewrite app_nil_r.
Qed.

Lemma normalizeFrom_head c textNodes :
  textNodes <> [] ->
  exists nodes rest, normalizeFrom c textNodes = TextNodes nodes :: rest.
Proof.
  revert textNodes. induction c as [|n c IH]; intros textNodes H.
  - destruct textNodes; [done|]. by eexists _, _.
  - cbn [normalizeFrom]. destruct (PM.isText n).
    + apply IH. by destruct textNodes.
    + destruct textNodes; [done|]. by eexists _, _.
Qed.

Lemma grouped_normalizeFrom c textNodes :
  forallb PM.isText textNodes = true ->
  grouped (normalizeFrom c textNodes) = true.
Proof.
  revert textNodes. induction c as [|n c IH]; intros textNodes H.
  - destruct textNodes as [|t ts]; [done|].
    cbn [normalizeFrom flushTextNodes grouped]. rewrite H. done.
  - cbn [normalizeFrom]. destruct (PM.isText n) eqn:En.
    + apply IH. rewrite forallb_app, H. cbn. by rewrite En.
    + destruct textNodes as [|t ts].
      * cbn [flushTextNodes app grouped]. rewrite En. cbn. by apply IH.
      * cbn [flushTextNodes app grouped]. rewrite H, En. cbn.
        by apply IH.
Qed.

(** X1. [normalizePNodeContent] keeps every child of the node, in order,
    and groups them into the maximal runs of text nodes and the other
    nodes one by one. *)
Theorem normalizePNodeContent_groups (pnode : PM.Node) :
  concat (map slotNodes (normalizePNodeContent pnode)) = PM.content pnode /\
  grouped (normalizePNodeContent pnode) = true.
Proof.
  split.
  - apply (normalizeFrom_nodes (PM.content pnode) []).
  - by apply grouped_normalizeFrom.
Qed.

End NormalizedContent.

(* ===================================================================== *)
(** * Properties: the bounds of [computeChildEqualityFactor] *)
(* ===================================================================== *)

Section FactorBound.
Import Sync Spec Props.
Context (meta : BindingMetadata).
Context (yChildren : list Y.AbstractType) (pChildren : list Slot).

Lemma factorRight_le n right found :
  fst (factorRight meta yChildren pChildren n right found) <= right + n.
Proof.
  revert right found. induction n as [|n IH]; intros right found; simpl; [lia|].
  destruct (yChildren !! _) as [y|]; [|simpl; lia].
  destruct (pChildren !! _) as [p|]; [|simpl; lia].
  destruct (mappedIdentity _ _).
  - specialize (IH (S right) true). lia.
  - destruct (equalYTypePNode y p); simpl; [|lia].
    specialize (IH (S right) found). lia.
Qed.

Lemma factorLeft_found n lft found :
  snd (factorLeft meta yChildren pChildren n lft found) = true ->
  found = true \/ exists i, mappedAt meta yChildren pChildren i i.
Proof.
  revert lft found. induction n as [|n IH]; intros lft found; simpl; [by left|].
  destruct (yChildren !! lft) as [y|] eqn:Ey; [|by left].
  destruct (pChildren !! lft) as [p|] eqn:Ep; [|by left].
  destruct (mappedIdentity _ _) eqn:Em.
  - intros _. right. exists lft, y, p. done.
  - destruct (equalYTypePNode y p); simpl; [|by left]. apply IH.
Qed.

Lemma factorRight_found n rgt found :
  snd (factorRight meta yChildren pChildren n rgt found) = true ->
  found = true \/
  exists j, mappedAt meta yChildren pChildren
              (length yChildren - j - 1) (length pChildren - j - 1).
Proof.
  revert rgt found. induction n as [|n IH]; intros rgt found; simpl; [by left|].
  destruct (yChildren !! _) as [y|] eqn:Ey; [|by left].
  destruct (pChildren !! _) as [p|] eqn:Ep; [|by left].
  destruct (mappedIdentity _ _) eqn:Em.
  - intros _. right. exists rgt, y, p. done.
  - destruct (equalYTypePNode y p); simpl; [|by left]. apply IH.
Qed.
End FactorBound.

Section FactorBoundTheorem.
Import Sync Spec Props.

(** X2. The equality factor never exceeds the number of children of the
    shorter side, and [foundMappedChild] is set only when the mapping
    holds, for a child of the shared side, the very slot of the editable
    side that it is compared with: the slot at the same position from the
    left, or the slot at the same position from the right. *)
Theorem computeChildEqualityFactor_bound ytype pnode meta :
  let yChildren := Y.toArray ytype in
  let pChildren := normalizePNodeContent pnode in
  equalityFactor (computeChildEqualityFactor ytype pnode meta) <=
    Nat.min (length yChildren) (length pChildren) /\
  (foundMappedChild (computeChildEqualityFactor ytype pnode meta) = true ->
   (exists i, mappedAt meta yChildren pChildren i i) \/
   (exists j, mappedAt meta yChildren pChildren
                (length yChildren - j - 1) (length pChildren - j - 1))).
Proof.
  intros Y P. unfold computeChildEqualityFactor.
  cbn [equalityFactor foundMappedChild]. fold Y P.
  set (m := Nat.min (length Y) (length P)).
  pose proof (factorLeft_le meta Y P m 0 false) as Hl.
  pose proof (factorRight_le meta Y P
                (m - fst (factorLeft meta Y P m 0 false)) 0
                (snd (factorLeft meta Y P m 0 false))) as Hr.
  split; [lia|].
  intros H. apply factorRight_found in H as [H|H]; [|by right].
  apply factorLeft_found in H as [H|H]; [done|by left].
Qed.
End FactorBoundTheorem.


(* ===================================================================== *)
(** * Properties: what [updateYFragment] leaves *)
(* ===================================================================== *)

Section Attributes.
Import Sync Spec Props.

Lemma fold_fragment {A} (F : Y.AbstractType -> A -> Y.AbstractType)
    (G : Js.object -> A -> Js.object) r i n l (L : list A) a :
  (forall acc x, F (Y.XmlFragment r i n acc l) x = Y.XmlFragment r i n (G acc x) l) ->
  fold_left F L (Y.XmlFragment r i n a l) = Y.XmlFragment r i n (fold_left G L a) l.
Proof.
  intros H. revert a. induction L as [|x L IH]; intros a; [done|].
  cbn [fold_left]. by rewrite H, IH.
Qed.

Lemma updateAttributes_fold r i n a l p :
  updateAttributes (Y.XmlFragment r i n a l) p =
  let attrs := Js.assign (PM.attrs p) (nodeMarksToAttributes (PM.marks p)) in
  Y.XmlFragment r i n
    (fold_left (pruneStep attrs) a (fold_left (setStep a) attrs a)) l.
Proof.
  unfold updateAttributes. cbn [Y.getAttributes]. cbv zeta.
  erewrite (fold_fragment _ (setStep a)).
  - erewrite (fold_fragment _ (pruneStep _)); [reflexivity|].
    intros acc [k v]. unfold pruneStep. cbn [fst snd]. by destruct (Js.get _ k).
  - intros acc [k v]. unfold setStep. cbn [fst snd].
    destruct (negb (Js.isNull v)); [|done]. by destruct (_ && _).
Qed.

Lemma NoDup_setStep a0 acc kv :
  NoDup (Js.keys acc) -> NoDup (Js.keys (setStep a0 acc kv)).
Proof.
  intros H. unfold setStep. destruct (negb _).
  - destruct (_ && _); [by apply NoDup_keys_set | done].
  - by apply NoDup_keys_remove.
Qed.

Lemma NoDup_fold_setStep a0 L acc :
  NoDup (Js.keys acc) -> NoDup (Js.keys (fold_left (setStep a0) L acc)).
Proof.
  revert acc. induction L as [|kv L IH]; intros acc H; [done|].
  cbn. apply IH. by apply NoDup_setStep.
Qed.

Lemma get_setStep_ne a0 acc kv k :
  fst kv <> k -> Js.get (setStep a0 acc kv) k = Js.get acc k.
Proof.
  intros H. unfold setStep. destruct (negb _).
  - destruct (_ && _); [by apply get_set_ne | done].
  - by apply get_remove_ne.
Qed.

Lemma get_fold_setStep_other a0 L acc k :
  ~ In k (Js.keys L) -> Js.get (fold_left (setStep a0) L acc) k = Js.get acc k.
Proof.
  revert acc. induction L as [|kv L IH]; intros acc H; [done|].
  cbn [fold_left]. rewrite IH.
  - apply get_setStep_ne. intros E. apply H. left. done.
  - intros E. apply H. by right.
Qed.

Lemma get_fold_setStep a0 L acc k v :
  NoDup (Js.keys L) -> NoDup (Js.keys acc) -> Js.get L k = Some v ->
  Js.get (fold_left (setStep a0) L acc) k =
  if Js.isNull v then None
  else if negb (Js.strictEqU (Js.get a0 k) (Some v)) && negb (String.eqb k "ychange")
       then Some v else Js.get acc k.
Proof.
  revert acc. induction L as [|[k0 v0] L IH]; intros acc HL Hacc Hget; [done|].
  cbn in HL. apply NoDup_cons in HL as [Hk0 HL].
  cbn [Js.get] in Hget. cbn [fold_left].
  destruct (String.eqb_spec k0 k) as [->|Hk].
  - injection Hget as ->.
    rewrite get_fold_setStep_other.
    2:{ intros H. apply Hk0. by apply list_elem_of_In. }
    unfold setStep. cbn [fst snd]. destruct (Js.isNull v); cbn [negb].
    + by apply get_remove_eq.
    + destruct (_ && _); [apply get_set_eq | done].
  - rewrite IH; [|done|by apply NoDup_setStep|done].
    rewrite get_setStep_ne by done. done.
Qed.

Lemma get_pruneStep_None attrs acc kv k :
  Js.get acc k = None -> Js.get (pruneStep attrs acc kv) k = None.
Proof.
  intros H. unfold pruneStep. destruct (Js.get attrs _); [done|].
  apply get_None_keys. apply get_None_keys in H. intros Hin. apply H.
  by apply keys_remove_sub in Hin.
Qed.

Lemma get_fold_pruneStep_None attrs L acc k :
  Js.get acc k = None -> Js.get (fold_left (pruneStep attrs) L acc) k = None.
Proof.
  revert acc. induction L as [|kv L IH]; intros acc H; [done|].
  cbn. apply IH. by apply get_pruneStep_None.
Qed.

Lemma NoDup_pruneStep attrs acc kv :
  NoDup (Js.keys acc) -> NoDup (Js.keys (pruneStep attrs acc kv)).
Proof.
  intros H. unfold pruneStep. destruct (Js.get attrs _); [done|].
  by apply NoDup_keys_remove.
Qed.

Lemma get_fold_pruneStep_kept attrs L acc k :
  Js.get attrs k <> None ->
  Js.get (fold_left (pruneStep attrs) L acc) k = Js.get acc k.
Proof.
  intros Hk. revert acc. induction L as [|[k0 v0] L IH]; intros acc; [done|].
  cbn [fold_left]. rewrite IH. unfold pruneStep. cbn [fst].
  destruct (Js.get attrs k0) eqn:E; [done|].
  apply get_remove_ne. intros ->. done.
Qed.

Lemma get_fold_pruneStep_removed attrs L acc k :
  Js.get attrs k = None -> In k (Js.keys L) -> NoDup (Js.keys acc) ->
  Js.get (fold_left (pruneStep attrs) L acc) k = None.
Proof.
  intros Hk. revert acc. induction L as [|[k0 v0] L IH]; intros acc Hin Hnd; [done|].
  cbn [fold_left]. destruct (String.eqb_spec k0 k) as [->|Hne].
  - apply get_fold_pruneStep_None. unfold pruneStep. cbn [fst]. rewrite Hk.
    by apply get_remove_eq.
  - apply IH; [|by apply NoDup_pruneStep].
    destruct Hin as [Hin|Hin]; [done|done].
Qed.

Lemma NoDup_nodeMarksToAttributes marks : NoDup (Js.keys (nodeMarksToAttributes marks)).
Proof.
  unfold nodeMarksToAttributes.
  assert (forall acc, NoDup (Js.keys acc) ->
            NoDup (Js.keys (fold_left (fun pattrs mark =>
               if String.eqb (PM.markName mark) "ychange" then pattrs
               else Js.set (MarkPrefix +:+ PM.markName mark) (PM.toJSON mark) pattrs)
              marks acc))) as H.
  { induction marks as [|m marks IH]; intros acc Hacc; [done|].
    cbn [fold_left]. apply IH. destruct (String.eqb _ _); [done|].
    by apply NoDup_keys_set. }
  apply H. constructor.
Qed.

(** After "update attributes", the element carries the attributes of
    the node: under every key other than [ychange], the value that the
    node (its attributes, then its marks) has there when that is not null,
    either written now or found identical, and nothing when the node has
    null or nothing there. *)
Lemma updateAttributes_converges r i n a l p k :
  NoDup (Js.keys a) -> NoDup (Js.keys (PM.attrs p)) -> k <> "ychange" ->
  let attrs := Js.assign (PM.attrs p) (nodeMarksToAttributes (PM.marks p)) in
  let after := Y.getAttributes (updateAttributes (Y.XmlFragment r i n a l) p) in
  match Js.get attrs k with
  | Some v =>
      if Js.isNull v then Js.get after k = None
      else Js.get after k = Some v \/
           (Js.get after k = Js.get a k /\
            Js.strictEqU (Js.get a k) (Some v) = true)
  | None => Js.get after k = None
  end.
Proof.
  intros Ha Hp Hk attrs after. subst after.
  rewrite updateAttributes_fold. cbv zeta. fold attrs. cbn [Y.getAttributes].
  assert (Hattrs : NoDup (Js.keys attrs)) by by apply NoDup_keys_assign.
  destruct (Js.get attrs k) as [v|] eqn:Ev.
  - rewrite get_fold_pruneStep_kept by congruence.
    rewrite (get_fold_setStep a attrs a k v) by done.
    destruct (Js.isNull v); [done|].
    destruct (String.eqb_spec k "ychange"); [done|].
    rewrite andb_true_r.
    destruct (Js.strictEqU (Js.get a k) (Some v)); cbn; [by right | by left].
  - destruct (Js.get a k) as [w|] eqn:Ea.
    + apply get_fold_pruneStep_removed; [done| |by apply NoDup_fold_setStep].
      destruct (in_dec string_dec k (Js.keys a)) as [Hin|Hin]; [done|].
      apply get_None_keys in Hin. congruence.
    + apply get_fold_pruneStep_None.
      rewrite get_fold_setStep_other; [done|]. by apply get_None_keys.
Qed.

End Attributes.
Section Shell.
Import Sync Spec Props.
Context (schema : PM.Schema) (hashOfJSON : Js.value -> string).

Lemma shell_withItems l t : shell (Y.withItems l t) = shell t.
Proof. by destruct t. Qed.

Lemma updateStep_shell (recur : updater) yChildren pChildren s :
  shell (fragment (updateStep schema hashOfJSON recur yChildren pChildren s).2) =
  shell (fragment s).
Proof.
  unfold updateStep, putChild, Y.insert, Y.delete.
  repeat case_match; simplify_eq/=; rewrite ?shell_withItems; done.
Qed.

Lemma updateLoop_shell (recur : updater) yChildren pChildren n s :
  shell (fragment (updateLoop schema hashOfJSON recur yChildren pChildren n s).2) =
  shell (fragment s).
Proof.
  revert s. induction n as [|n IH]; intros s; cbn [updateLoop]; [done|].
  destruct (_ && _); [|done].
  pose proof (updateStep_shell recur yChildren pChildren s) as Hs.
  destruct (updateStep _ _ _ _ _ s) as [c s']. cbn [snd] in Hs.
  destruct c; cbn [snd]; [|done..]. by rewrite IH.
Qed.

Lemma updateRest_shell yChildren pChildren s :
  shell (fragment (updateRest schema hashOfJSON yChildren pChildren s)) =
  shell (fragment s).
Proof.
  unfold updateRest, putChild, Y.insert, Y.delete.
  repeat case_match; simplify_eq/=; rewrite ?shell_withItems; done.
Qed.

(** X4. Whatever [updateYFragment] does below the fragment and however it
    completes, the fragment stays the object it was: its identity, its
    item and its node name are those it had. *)
Theorem updateYFragment_keeps_fragment fuel y p st :
  let y' := (updateYFragment schema hashOfJSON fuel y p st).1.2 in
  Y.ref y' = Y.ref y /\ Y._item y' = Y._item y /\ Y.nodeName y' = Y.nodeName y.
Proof.
  destruct fuel as [|fuel]; [done|]. cbn [updateYFragment].
  destruct (_ && negb _); [done|].
  set (y0 := if Y.isXmlElement y then updateAttributes y p else y).
  assert (H0 : (Y.ref y0, Y._item y0, Y.nodeName y0) = (Y.ref y, Y._item y, Y.nodeName y)).
  { subst y0. destruct y as [r i n a l| |]; cbn [Y.isXmlElement]; try done.
    destruct n; [|done]. by rewrite updateAttributes_fold. }
  match goal with
  | |- context [updateLoop ?a ?b ?r ?yc ?pc ?k ?s] =>
      pose proof (updateLoop_shell r yc pc k s) as Hl;
      destruct (updateLoop a b r yc pc k s) as [c s']
  end.
  cbn [snd fragment] in Hl.
  assert (Hs : shell (fragment (updateRest schema hashOfJSON (Y.toArray y0)
                                  (normalizePNodeContent p) s')) = shell y0).
  { by rewrite updateRest_shell. }
  unfold shell in *. destruct c; cbn [fst snd]; simplify_eq;
    repeat split; congruence.
Qed.

(** X5. After [updateYFragment] on an element, the element carries the
    attributes of the node: under every key other than [ychange], the
    value that the node (its attributes, then its marks) has there when
    that is not null, either written now or found identical, and nothing
    when the node has null or nothing there. *)
Theorem updateYFragment_attributes fuel r i n a l p st k :
  let y := Y.XmlFragment r i (Some n) a l in
  let attrs := Js.assign (PM.attrs p) (nodeMarksToAttributes (PM.marks p)) in
  let result := updateYFragment schema hashOfJSON fuel y p st in
  let after := Y.getAttributes result.1.2 in
  NoDup (Js.keys a) -> NoDup (Js.keys (PM.attrs p)) -> k <> "ychange" ->
  result.1.1 = Normal ->
  match Js.get attrs k with
  | Some v =>
      if Js.isNull v then Js.get after k = None
      else Js.get after k = Some v \/
           (Js.get after k = Js.get a k /\
            Js.strictEqU (Js.get a k) (Some v) = true)
  | None => Js.get after k = None
  end.
Proof.
  intros y attrs result after Ha Hp Hk Hn.
  pose proof (updateAttributes_converges r i (Some n) a l p k Ha Hp Hk) as H.
  cbv zeta in H. fold attrs in H.
  assert (E : after = Y.getAttributes (updateAttributes y p)); [|by rewrite E].
  subst after result. revert Hn.
  destruct fuel as [|fuel]; [done|]. cbn [updateYFragment].
  destruct (_ && negb _); [done|].
  cbn [Y.isXmlElement y].
  match goal with
  | |- context [updateLoop ?a ?b ?r ?yc ?pc ?k ?s] =>
      pose proof (updateLoop_shell r yc pc k s) as Hl;
      destruct (updateLoop a b r yc pc k s) as [c s']
  end.
  cbn [snd fragment] in Hl. destruct c; cbn [fst snd]; try done. intros _.
  match goal with
  | |- context [updateRest ?a ?b ?yc ?pc ?s] =>
      pose proof (updateRest_shell yc pc s) as Hr
  end.
  unfold shell in *. simplify_eq. congruence.
Qed.

End Shell.
Section Completes.
Import Sync Spec.
Context (schema : PM.Schema) (hashOfJSON : Js.value -> string).

(** X3. The only way in which [updateYFragment] can fail is the name
    mismatch of the call itself: on a fragment that is no element (the
    root that the binding is attached to), and on an element of the name of
    the node, it completes normally, whatever lies below. *)
Theorem updateYFragment_completes fuel y p st :
  nameMismatch y p = false ->
  Measure.height y < fuel ->
  (updateYFragment schema hashOfJSON fuel y p st).1.1 = Normal.
Proof.
  intros Hm Hh.
  pose proof (updateYFragment_enough_fuel schema hashOfJSON fuel y p st Hh) as Hf.
  pose proof (updateYFragment_no_throw_on_match schema hashOfJSON fuel y p st) as Ht.
  destruct (updateYFragment schema hashOfJSON fuel y p st) as [[c y'] st'].
  cbn in *. destruct c as [|e|]; [done| |done].
  exfalso. by apply (Ht e Hm).
Qed.

End Completes.

Section EqualChildren.
Import Sync Spec.
Context (schema : PM.Schema) (hashOfJSON : Js.value -> string).

Lemma matchLeft_all yChildren pChildren n lft st :
  lft + n <= length yChildren -> lft + n <= length pChildren ->
  (forall i c pc, yChildren !! i = Some c -> pChildren !! i = Some pc ->
     equalYTypePNode c pc = true) ->
  fst (matchLeft yChildren pChildren n lft st) = lft + n.
Proof.
  intros Hy Hp Heq. revert lft st Hy Hp.
  induction n as [|n IH]; intros lft st Hy Hp; cbn [matchLeft]; [cbn; lia|].
  destruct (lookup_lt_is_Some_2 yChildren lft) as [c Ec]; [lia|].
  destruct (lookup_lt_is_Some_2 pChildren lft) as [pc Epc]; [lia|].
  rewrite Ec, Epc, (Heq lft c pc Ec Epc).
  destruct (negb _); rewrite IH; lia.
Qed.

(** X6. When every child of the shared fragment is structurally equal to
    the slot of the node at its position, and there are as many of the
    ones as of the others, [updateYFragment] touches no child: it
    completes normally and the fragment it leaves is the one it was given
    with its attributes updated. *)
Theorem updateYFragment_equal_children fuel y p st :
  nameMismatch y p = false ->
  length (Y.toArray y) = length (normalizePNodeContent p) ->
  (forall i c pc, Y.toArray y !! i = Some c ->
     normalizePNodeContent p !! i = Some pc -> equalYTypePNode c pc = true) ->
  exists st',
    updateYFragment schema hashOfJSON (S fuel) y p st =
    (Normal, (if Y.isXmlElement y then updateAttributes y p else y), st').
Proof.
  intros Hm Hlen Heq.
  cbn [updateYFragment]. fold (nameMismatch y p). rewrite Hm.
  set (y0 := if Y.isXmlElement y then updateAttributes y p else y).
  assert (Hy0 : Y.toArray y0 = Y.toArray y).
  { unfold Y.toArray. subst y0.
    destruct (Y.isXmlElement y); [by rewrite items_updateAttributes | done]. }
  rewrite Hy0.
  set (Y := Y.toArray y) in *. set (P := normalizePNodeContent p) in *.
  replace (Nat.min (length P) (length Y)) with (length Y) by lia.
  rewrite (matchLeft_all Y P (length Y) 0) by (done || lia).
  cbn [Nat.add]. rewrite Nat.sub_diag. cbn [matchRight fst snd].
  rewrite ?Nat.sub_diag. cbn [Nat.sub updateLoop].
  unfold updateRest. cbn [nleft nright fragment state].
  assert (Hedge : forall first, (length Y =? 1) && (length P =? 0) && Y.isXmlText first = false).
  { intros first. rewrite <- Hlen. destruct (length Y) as [|[|?]]; done. }
  repeat match goal with
  | |- context [?a <? ?b] => destruct (Nat.ltb_spec a b); [lia|]
  end.
  destruct (Y !! 0) as [first|] eqn:E0; rewrite ?Hedge; by eexists.
Qed.

End EqualChildren.

(* ===================================================================== *)
(** * Properties: [updateYText] *)
(* ===================================================================== *)

Section SimpleDiff.

Lemma commonPrefix_take (a b : list ascii) :
  take (Diff.commonPrefix a b) a = take (Diff.commonPrefix a b) b.
Proof.
  revert b. induction a as [|x a IH]; intros [|y b]; cbn; try done.
  destruct (Ascii.eqb_spec x y) as [->|]; [|done]. cbn. by rewrite IH.
Qed.

Lemma commonPrefix_le (a b : list ascii) :
  Diff.commonPrefix a b <= length a /\ Diff.commonPrefix a b <= length b.
Proof.
  revert b. induction a as [|x a IH]; intros [|y b]; cbn; try lia.
  destruct (Ascii.eqb x y); cbn; [|lia]. specialize (IH b). lia.
Qed.

(** The common suffix, read off the common prefix of the reversals. *)
Lemma commonSuffix_drop (a b : list ascii) :
  let n := Diff.commonPrefix (rev a) (rev b) in
  drop (length a - n) a = drop (length b - n) b.
Proof.
  intros n. pose proof (commonPrefix_take (rev a) (rev b)) as H. fold n in H.
  rewrite !firstn_rev in H. by apply (f_equal (@rev _)) in H; rewrite !rev_involutive in H.
Qed.

Lemma simpleDiff_lists (la lb : list ascii) :
  let left := Diff.commonPrefix la lb in
  let right := Diff.commonPrefix (rev (drop left la)) (rev (drop left lb)) in
  take left la ++ take (length lb - right - left) (drop left lb) ++
    drop (left + (length la - left - right)) la = lb.
Proof.
  intros left right.
  pose proof (commonPrefix_take la lb) as Hpre. fold left in Hpre.
  pose proof (commonPrefix_le la lb) as [Hla Hlb]. fold left in Hla, Hlb.
  pose proof (commonSuffix_drop (drop left la) (drop left lb)) as Hsuf.
  cbv zeta in Hsuf. fold right in Hsuf.
  pose proof (commonPrefix_le (rev (drop left la)) (rev (drop left lb))) as [Hra Hrb].
  fold right in Hra, Hrb. rewrite !length_rev, !length_drop in Hra, Hrb.
  rewrite !length_drop in Hsuf.
  replace (left + (length la - left - right)) with (left + (length la - left - right)) by done.
  rewrite <- (drop_drop la), Hsuf, Hpre.
  replace (length lb - right - left) with (length lb - left - right) by lia.
  rewrite take_drop. by rewrite take_drop.
Qed.

Lemma list_of_take n s :
  list_ascii_of_string (Str.take n s) = take n (list_ascii_of_string s).
Proof. revert s. induction n as [|n IH]; intros [|c s]; cbn; try done. by rewrite IH. Qed.

Lemma list_of_drop n s :
  list_ascii_of_string (Str.drop n s) = drop n (list_ascii_of_string s).
Proof. revert s. induction n as [|n IH]; intros [|c s]; cbn; try done. Qed.

Lemma list_of_app (a b : string) :
  list_ascii_of_string (a +:+ b) = list_ascii_of_string a ++ list_ascii_of_string b.
Proof. induction a as [|c a IH]; [done|]. rewrite str_app_cons. cbn. by rewrite IH. Qed.

Lemma list_of_length s : length (list_ascii_of_string s) = String.length s.
Proof. induction s as [|c s IH]; cbn; [done|]. by rewrite IH. Qed.

Lemma list_of_inj a b : list_ascii_of_string a = list_ascii_of_string b -> a = b.
Proof.
  intros H. rewrite <- (string_of_list_ascii_of_string a), H.
  apply string_of_list_ascii_of_string.
Qed.

(** [simpleDiff(a, b)] describes [b]: what [a] has before [index], then
    [insert], then what [a] has after the [remove] units that follow
    [index]. *)
Lemma simpleDiff_spec a b :
  let d := Diff.simpleDiff a b in
  Str.take (Diff.index d) a +:+ Diff.insert d +:+
    Str.drop (Diff.index d + Diff.remove d) a = b /\
  Diff.index d <= String.length a.
Proof.
  intros d. split.
  - apply list_of_inj. unfold d, Diff.simpleDiff. cbn [Diff.index Diff.insert Diff.remove].
    rewrite !list_of_app, !list_of_take, !list_of_drop, <- !list_of_length.
    apply simpleDiff_lists.
  - unfold d, Diff.simpleDiff. cbn [Diff.index]. rewrite <- list_of_length.
    apply commonPrefix_le.
Qed.

End SimpleDiff.
Section UpdateText.
Import Sync Spec Props.
Context (schema : PM.Schema) (hashOfJSON : Js.value -> string).

Lemma str_take_app_ge n (s t : string) :
  String.length s <= n -> Str.take n (s +:+ t) = s +:+ Str.take (n - String.length s) t.
Proof.
  revert n. induction s as [|c s IH]; intros n H.
  - rewrite !str_app_nil_l. by rewrite Nat.sub_0_r.
  - destruct n as [|n]; [cbn in H; lia|]. rewrite !str_app_cons. cbn.
    rewrite IH; [done|cbn in H; lia].
Qed.

Lemma str_drop_app_ge n (s t : string) :
  String.length s <= n -> Str.drop n (s +:+ t) = Str.drop (n - String.length s) t.
Proof.
  revert n. induction s as [|c s IH]; intros n H.
  - rewrite !str_app_nil_l. by rewrite Nat.sub_0_r.
  - destruct n as [|n]; [cbn in H; lia|]. rewrite !str_app_cons. cbn.
    rewrite IH; [done|cbn in H; lia].
Qed.

Lemma str_take_app_lt n (s t : string) :
  n <= String.length s -> Str.take n (s +:+ t) = Str.take n s.
Proof.
  revert n. induction s as [|c s IH]; intros n H.
  - destruct n; [|cbn in H; lia]. by destruct t.
  - destruct n as [|n]; [done|]. rewrite !str_app_cons. cbn.
    rewrite IH; [done|cbn in H; lia].
Qed.

Lemma str_drop_app_lt n (s t : string) :
  n <= String.length s -> Str.drop n (s +:+ t) = Str.drop n s +:+ t.
Proof.
  revert n. induction s as [|c s IH]; intros n H.
  - destruct n; [|cbn in H; lia]. by destruct t.
  - destruct n as [|n]; [done|]. rewrite !str_app_cons. cbn.
    rewrite IH; [done|cbn in H; lia].
Qed.

Lemma str_take_length n s : String.length (Str.take n s) = Nat.min n (String.length s).
Proof. revert s. induction n as [|n IH]; intros [|c s]; cbn; try done. by rewrite IH. Qed.

Lemma str_drop_drop n m s : Str.drop n (Str.drop m s) = Str.drop (m + n) s.
Proof.
  revert s. induction m as [|m IH]; intros s; [done|].
  destruct s as [|c s]; cbn; [by destruct n|]. apply IH.
Qed.

Lemma str_take_nil n : Str.take n "" = "".
Proof. by destruct n. Qed.

Lemma str_drop_nil n : Str.drop n "" = "".
Proof. by destruct n. Qed.

(** The runs before a position hold the text before it, the runs after it
    the text after it. *)
Lemma plain_splitAt_take n l :
  plain (YText.splitAt n l).1 = Str.take n (plain l) /\
  plain (YText.splitAt n l).2 = Str.drop n (plain l).
Proof.
  revert n. induction l as [|[s a] l IH]; intros n.
  - destruct n; done.
  - destruct n as [|n]; [done|].
    cbn [YText.splitAt]. rewrite plain_cons.
    destruct (Nat.leb_spec (String.length s) (S n)) as [Hle|Hlt].
    + destruct (IH (S n - String.length s)) as [IH1 IH2].
      destruct (YText.splitAt (S n - String.length s) l) as [before after].
      cbn [fst snd] in *. rewrite plain_cons, IH1, IH2.
      by rewrite str_take_app_ge, str_drop_app_ge.
    + cbn [fst snd]. rewrite !plain_cons. cbn [plain fold_right].
      rewrite str_app_nil_r, str_take_app_lt, str_drop_app_lt by lia. done.
Qed.

Lemma plain_map_format (f : Js.object -> Js.object) l :
  plain (map (fun sa => (fst sa, f (snd sa))) l) = plain l.
Proof. induction l as [|[s a] l IH]; [done|]. cbn [map fst]. by rewrite !plain_cons, IH. Qed.

Lemma plain_applyOps_retains ops before after :
  Forall (fun op => match op with YText.Retain _ _ => True | _ => False end) ops ->
  plain (YText.applyOps ops before after) = plain before +:+ plain after.
Proof.
  intros H. revert before after.
  induction H as [|op ops Hop Hops IH]; intros before after.
  - cbn. by rewrite plain_app.
  - destruct op as [|n a]; [done|]. cbn [YText.applyOps].
    pose proof (plain_splitAt n after) as Hs.
    destruct (YText.splitAt n after) as [passed after'].
    cbn [fst snd] in Hs. rewrite IH, plain_app.
    rewrite str_app_assoc, <- Hs. f_equal. f_equal.
    destruct a; [apply plain_map_format | done].
Qed.

Lemma textNodesContent_texts base nodes st :
  fold_right (fun c joined => fst c +:+ joined) ""
             (textNodesContent schema hashOfJSON base nodes st).1 =
  joinedText nodes /\
  mapping (meta (textNodesContent schema hashOfJSON base nodes st).2) =
  mapping (meta st).
Proof.
  revert st. induction nodes as [|n nodes IH]; intros st; [done|].
  cbn [textNodesContent].
  assert (Hm : forall marks st0,
            mapping (meta (marksToAttributes schema hashOfJSON marks st0).2) =
            mapping (meta st0)).
  { intros marks st0. unfold marksToAttributes.
    assert (forall acc, mapping (meta (fold_left
       (fun (acc : Js.object * State) mark =>
          let '(pattrs, st) := acc in
          let name := PM.markName mark in
          if String.eqb name "ychange" then (pattrs, st)
          else
            let '(isOverlapping, st) :=
              match isOMark (meta st) !! name with
              | Some b => (b, st)
              | None =>
                  let b := negb (PM.excludes schema name name) in
                  (b, {| meta := {| mapping := mapping (meta st);
                                    isOMark := <[name := b]> (isOMark (meta st)) |};
                         doc := doc st; nextNode := nextNode st |})
              end in
            (Js.set (if isOverlapping
                     then name +:+ "--" +:+ hashOfJSON (PM.toJSON mark)
                     else name)
                    (Js.Obj None (PM.markAttrs mark)) pattrs, st))
       marks acc).2) = mapping (meta acc.2)) as H.
    { induction marks as [|m marks IHm]; intros acc; [done|].
      cbn [fold_left]. rewrite IHm. destruct acc as [pattrs st1].
      destruct (String.eqb _ _); [done|].
      by destruct (isOMark (meta st1) !! PM.markName m). }
    apply H. }
  pose proof (Hm (PM.marks n) st) as Hm1.
  destruct (marksToAttributes schema hashOfJSON (PM.marks n) st) as [attributes st1].
  destruct (IH st1) as [IH1 IH2].
  destruct (textNodesContent schema hashOfJSON base nodes st1) as [rest st2].
  cbn [fst snd fold_right joinedText] in *. rewrite IH1. split; [done|]. congruence.
Qed.

(** X7. [updateYText] makes a live shared text read what the text nodes
    read, one after the other; the text stays the object it was, and the
    mapping holds the text nodes for it. *)
Theorem updateYText_text t ptexts st :
  Y.isXmlText t = true -> Y.isDeleted t = false ->
  let t' := (updateYText schema hashOfJSON t ptexts st).1 in
  let st' := (updateYText schema hashOfJSON t ptexts st).2 in
  (ytextTrans t').1 = joinedText ptexts /\
  Y.ref t' = Y.ref t /\ Y._item t' = Y._item t /\
  mapping (meta st') !! Y.ref t = Some (TextNodes ptexts).
Proof.
  destruct t as [|r i spans|]; try done. intros _ Hlive.
  unfold updateYText. cbn [ytextTrans].
  change (fold_right (fun sa str => fst sa +:+ str) "" spans) with (plain spans).
  set (str := plain spans). set (nAttrs := fold_left _ spans []).
  set (st0 := mappingSet _ _ st).
  assert (Hstr : str = plain spans) by done.
  destruct (textNodesContent_texts nAttrs ptexts st0) as [Hjoin Hmap].
  destruct (textNodesContent schema hashOfJSON nAttrs ptexts st0) as [content st1].
  cbn [fst snd] in Hjoin, Hmap. cbv zeta. cbn [fst snd].
  rewrite Hjoin.
  destruct (simpleDiff_spec str (joinedText ptexts)) as [Hd Hidx].
  set (d := Diff.simpleDiff str (joinedText ptexts)) in *. cbv zeta in Hd, Hidx.
  unfold YText.delete, YText.insert, YText.applyDelta, YText.withSpans.
  rewrite Hlive.
  assert (Hl1 : forall sp, Y.isDeleted (Y.XmlText r i sp) = false).
  { intros sp. exact Hlive. }
  rewrite !Hl1.
  split; [|split; [done|split; [done|]]].
  - rewrite ytextTrans_plain, plain_normalize.
    rewrite plain_applyOps_retains.
    2:{ apply Forall_forall. intros op Hop.
        apply list_elem_of_In, in_map_iff in Hop as (c & <- & _). done. }
    cbn [plain fold_right]. rewrite str_app_nil_l, plain_normalize.
    set (spans1 := YText.normalize _).
    assert (H1 : plain spans1 =
                 Str.take (Diff.index d) str +:+
                 Str.drop (Diff.index d + Diff.remove d) str).
    { subst spans1. rewrite plain_normalize.
      destruct (plain_splitAt_take (Diff.index d) spans) as [Hb Hr].
      destruct (YText.splitAt (Diff.index d) spans) as [before rest].
      cbn [fst snd] in Hb, Hr. rewrite plain_app, Hb.
      destruct (plain_splitAt_take (Diff.remove d) rest) as [_ Hr2].
      rewrite Hr2, Hr, str_drop_drop, Hstr. done. }
    destruct (plain_splitAt_take (Diff.index d) spans1) as [Hb Ha].
    destruct (YText.splitAt (Diff.index d) spans1) as [before after].
    cbn [fst snd] in Hb, Ha.
    rewrite plain_app, plain_cons, Hb, Ha, H1.
    assert (Hlen : String.length (Str.take (Diff.index d) str) = Diff.index d).
    { rewrite str_take_length. lia. }
    rewrite str_take_app_lt, str_drop_app_ge by lia.
    rewrite Hlen, Nat.sub_diag.
    assert (Str.take (Diff.index d) (Str.take (Diff.index d) str) =
            Str.take (Diff.index d) str) as ->.
    { rewrite <- Hlen at 1. apply str_take_all. }
    exact Hd.
  - rewrite Hmap. subst st0. cbn. apply lookup_insert_eq.
Qed.

End UpdateText.

(* ===================================================================== *)
(** * Properties: marks and attribute names *)
(* ===================================================================== *)

Section NoYChange.
Import Sync Spec Props.
Context (schema : PM.Schema) (hashOfJSON : Js.value -> string).

Lemma hashed_not_ychange (name h : string) : name +:+ "--" +:+ h <> "ychange".
Proof.
  unfold not.
  do 7 (destruct name as [|? name]; [discriminate|];
        rewrite str_app_cons; intros [= -> H]; revert H).
  destruct name; discriminate.
Qed.

Lemma markPrefix_not_ychange (name : string) : MarkPrefix +:+ name <> "ychange".
Proof. discriminate. Qed.

Lemma get_set_None k k' v o :
  k <> k' -> Js.get o k' = None -> Js.get (Js.set k v o) k' = None.
Proof. intros H1 H2. by rewrite get_set_ne. Qed.

Lemma marksToAttributes_no_ychange marks st :
  Js.get (marksToAttributes schema hashOfJSON marks st).1 "ychange" = None.
Proof.
  unfold marksToAttributes.
  assert (forall acc : Js.object * State, Js.get acc.1 "ychange" = None ->
    Js.get (fold_left
       (fun (acc : Js.object * State) mark =>
          let '(pattrs, st) := acc in
          let name := PM.markName mark in
          if String.eqb name "ychange" then (pattrs, st)
          else
            let '(isOverlapping, st) :=
              match isOMark (meta st) !! name with
              | Some b => (b, st)
              | None =>
                  let b := negb (PM.excludes schema name name) in
                  (b, {| meta := {| mapping := mapping (meta st);
                                    isOMark := <[name := b]> (isOMark (meta st)) |};
                         doc := doc st; nextNode := nextNode st |})
              end in
            (Js.set (if isOverlapping
                     then name +:+ "--" +:+ hashOfJSON (PM.toJSON mark)
                     else name)
                    (Js.Obj None (PM.markAttrs mark)) pattrs, st))
       marks acc).1 "ychange" = None) as H.
  { induction marks as [|m marks IH]; intros [pattrs st0] Hacc; [done|].
    cbn [fold_left]. apply IH.
    destruct (String.eqb_spec (PM.markName m) "ychange") as [|Hn]; [done|].
    destruct (isOMark (meta st0) !! PM.markName m) as [[|]|]; cbn [fst];
      try destruct (negb _); apply get_set_None; try done;
      apply hashed_not_ychange. }
  by apply H.
Qed.

Lemma nodeMarksToAttributes_no_ychange marks :
  Js.get (nodeMarksToAttributes marks) "ychange" = None.
Proof.
  unfold nodeMarksToAttributes.
  assert (forall acc, Js.get acc "ychange" = None ->
    Js.get (fold_left (fun pattrs mark =>
               if String.eqb (PM.markName mark) "ychange" then pattrs
               else Js.set (MarkPrefix +:+ PM.markName mark) (PM.toJSON mark) pattrs)
            marks acc) "ychange" = None) as H.
  { induction marks as [|m marks IH]; intros acc Hacc; [done|].
    cbn [fold_left]. apply IH. destruct (String.eqb _ _); [done|].
    by apply get_set_None. }
  by apply H.
Qed.

Lemma createTypeFromElementNode_no_ychange node st :
  Js.get (Y.getAttributes (createTypeFromElementNode schema hashOfJSON node st).1)
    "ychange" = None.
Proof.
  rewrite createTypeFromElementNode_eq.
  destruct (newType st) as [[ref item] st0]. cbv zeta.
  destruct (mapState _ _ _) as [children st1]. cbn [fst].
  unfold Y.insert.
  match goal with |- context [Y.withItems ?l ?t] =>
    assert (Y.getAttributes (Y.withItems l t) = Y.getAttributes t) as -> by (by destruct t)
  end.
  erewrite !fold_fragment.
  2:{ intros acc kv. cbn [Y.setAttribute]. reflexivity. }
  2:{ intros acc kv.
      instantiate (1 := fun acc kv =>
        if negb (Js.isNull (snd kv)) && negb (String.eqb (fst kv) "ychange")
        then Js.set (fst kv) (snd kv) acc else acc).
      cbn beta. by destruct (_ && _). }
  cbn [Y.getAttributes].
  assert (H1 : forall L acc, Js.get acc "ychange" = None ->
     Js.get (fold_left (fun acc (kv : string * Js.value) =>
        if negb (Js.isNull (snd kv)) && negb (String.eqb (fst kv) "ychange")
        then Js.set (fst kv) (snd kv) acc else acc) L acc) "ychange" = None).
  { induction L as [|[k v] L IH]; intros acc Hacc; [done|].
    cbn [fold_left fst snd]. apply IH.
    destruct (negb (Js.isNull v)); [|done].
    destruct (String.eqb_spec k "ychange"); [done|]. by apply get_set_None. }
  assert (H2 : forall L acc, Js.get acc "ychange" = None ->
     Js.get L "ychange" = None -> NoDup (Js.keys L) ->
     Js.get (fold_left (fun acc (kv : string * Js.value) =>
        Js.set (fst kv) (snd kv) acc) L acc) "ychange" = None).
  { intros L acc Hacc HL Hnd. change (Js.get (Js.assign acc L) "ychange" = None).
    rewrite get_assign by done. by rewrite HL. }
  apply H2; [by apply H1 | apply nodeMarksToAttributes_no_ychange
            | apply NoDup_nodeMarksToAttributes].
Qed.

(** X8. The forward synchronization never writes the attribute [ychange],
    which marks rendered changes in the editor, into the shared document:
    the attributes made of the marks of a text have no such key, a created
    element has no such attribute, and an updated element has none unless
    it had one. *)
Theorem forward_never_writes_ychange :
  (forall marks st,
     Js.get (marksToAttributes schema hashOfJSON marks st).1 "ychange" = None) /\
  (forall node st,
     Js.get (Y.getAttributes (createTypeFromElementNode schema hashOfJSON node st).1)
       "ychange" = None) /\
  (forall fuel y p st,
     Js.get (Y.getAttributes y) "ychange" = None ->
     Js.get (Y.getAttributes (updateYFragment schema hashOfJSON fuel y p st).1.2)
       "ychange" = None).
Proof.
  split; [exact marksToAttributes_no_ychange|].
  split; [exact createTypeFromElementNode_no_ychange|].
  intros fuel y p st Hy.
  destruct fuel as [|fuel]; [done|]. cbn [updateYFragment].
  destruct (_ && negb _); [done|].
  set (y0 := if Y.isXmlElement y then updateAttributes y p else y).
  assert (H0 : Js.get (Y.getAttributes y0) "ychange" = None).
  { subst y0. destruct y as [r i [n|] a l| |]; cbn [Y.isXmlElement]; try done.
    rewrite updateAttributes_fold. cbv zeta. cbn [Y.getAttributes] in *.
    apply get_fold_pruneStep_None.
    assert (forall L acc, Js.get acc "ychange" = None ->
              Js.get (fold_left (setStep a) L acc) "ychange" = None) as H.
    { induction L as [|[k v] L IH]; intros acc Hacc; [done|].
      cbn [fold_left]. apply IH. unfold setStep. cbn [fst snd].
      destruct (negb (Js.isNull v)).
      - destruct (String.eqb_spec k "ychange") as [->|Hk].
        + by rewrite andb_false_r.
        + destruct (_ && _); [by apply get_set_None | done].
      - apply get_None_keys. apply get_None_keys in Hacc. intros Hin.
        by apply Hacc, (keys_remove_sub k). }
    by apply H. }
  match goal with
  | |- context [updateLoop ?a ?b ?r ?yc ?pc ?k ?s] =>
      pose proof (updateLoop_shell a b r yc pc k s) as Hl;
      destruct (updateLoop a b r yc pc k s) as [c s']
  end.
  cbn [snd fragment] in Hl.
  match goal with
  | |- context [updateRest ?a ?b ?yc ?pc ?s] =>
      pose proof (updateRest_shell a b yc pc s) as Hr
  end.
  unfold shell in *. destruct c; cbn [fst snd]; simplify_eq; congruence.
Qed.

End NoYChange.
Section Marks.
Import Regex Sync Spec Props.
Context (schema : PM.Schema) (hashOfJSON : Js.value -> string).

Lemma afterLastLineTerminator_none s :
  Str.hasLineTerminator s = false -> afterLastLineTerminator s = s.
Proof. destruct s as [|c s]; [done|]. intros H. cbn [afterLastLineTerminator]. by rewrite H. Qed.

Lemma yattr2markname_hashed name h :
  Str.hasLineTerminator name = false -> isHashSuffix ("--" +:+ h) = true ->
  yattr2markname (name +:+ "--" +:+ h) = name.
Proof.
  intros Hn Hh. destruct (exec_hashed name _ Hh) as (caps & E & L).
  unfold yattr2markname. rewrite E, L. by apply afterLastLineTerminator_none.
Qed.

Lemma yattr2markname_plain name :
  (forall pre suf, name = pre +:+ suf -> isHashSuffix suf = false) ->
  yattr2markname name = name.
Proof. intros H. unfold yattr2markname. by rewrite exec_not_hashed. Qed.

Lemma yattr2markname_markKey mk :
  (forall v, isHashSuffix ("--" +:+ hashOfJSON v) = true) ->
  plainName (PM.markName mk) ->
  yattr2markname (markKey schema hashOfJSON mk) = PM.markName mk.
Proof.
  intros Hh [Hl Hp]. unfold markKey. destruct (negb _).
  - by apply yattr2markname_hashed.
  - by apply yattr2markname_plain.
Qed.

Lemma set_absent k v o : ~ In k (Js.keys o) -> Js.set k v o = o ++ [(k, v)].
Proof.
  induction o as [|[k0 v0] o IH]; cbn; [done|]. intros H.
  destruct (String.eqb_spec k0 k) as [->|Hk]; [exfalso; apply H; by left|].
  rewrite IH; [done|]. intros Hin. apply H. by right.
Qed.

(** [marksToAttributes], when the names it stores the marks under are
    pairwise different: one attribute per mark, in the order of the marks. *)
Lemma marksToAttributes_eq marks st :
  cacheAgrees schema (meta st) ->
  NoDup (Js.keys (markAttributes schema hashOfJSON marks)) ->
  (marksToAttributes schema hashOfJSON marks st).1 =
    markAttributes schema hashOfJSON marks /\
  cacheAgrees schema (meta (marksToAttributes schema hashOfJSON marks st).2).
Proof.
  unfold marksToAttributes.
  set (step := fun (acc : Js.object * State) (mark : PM.Mark) => _).
  assert (H : forall marks acc,
    cacheAgrees schema (meta acc.2) ->
    NoDup (Js.keys (acc.1 ++ markAttributes schema hashOfJSON marks)) ->
    (fold_left step marks acc).1 = acc.1 ++ markAttributes schema hashOfJSON marks /\
    cacheAgrees schema (meta (fold_left step marks acc).2)).
  { clear marks st. induction marks as [|mk marks IH]; intros [pattrs st] Hc Hnd.
    - cbn. by rewrite app_nil_r.
    - cbn [fold_left]. unfold markAttributes in *. cbn [List.filter] in *.
      cbn [fst snd] in *.
      destruct (step (pattrs, st) mk) as [pattrs' st'] eqn:Es.
      unfold step in Es.
      destruct (String.eqb (PM.markName mk) "ychange") eqn:Ey; cbn [negb] in *.
      { injection Es as <- <-. by apply (IH (pattrs, st)). }
      cbn [map] in Hnd.
      fold (markKey schema hashOfJSON mk) in Es.
      set (key := markKey schema hashOfJSON mk) in *.
      assert (Hkey : ~ In key (Js.keys pattrs)).
      { unfold Js.keys in *. rewrite map_app in Hnd. cbn [map fst] in Hnd.
        apply NoDup_app in Hnd as (_ & Hd & _). intros Hin.
        apply (Hd key); [by apply list_elem_of_In | left]. }
      assert (Hst' : pattrs' = pattrs ++ [(key, Js.Obj None (PM.markAttrs mk))] /\
                     cacheAgrees schema (meta st')).
      { destruct (isOMark (meta st) !! PM.markName mk) as [b|] eqn:Eb.
        - apply Hc in Eb as ->. fold (markKey schema hashOfJSON mk) in Es. fold key in Es.
          injection Es as <- <-. by rewrite set_absent.
        - cbv zeta in Es. fold (markKey schema hashOfJSON mk) in Es. fold key in Es.
          injection Es as <- <-. rewrite set_absent by done. split; [done|].
          intros name b Hb. cbn [snd meta isOMark] in Hb.
          destruct (decide (name = PM.markName mk)) as [->|Hne].
          + rewrite lookup_insert_eq in Hb. by injection Hb as <-.
          + rewrite lookup_insert_ne in Hb by done. by apply Hc. }
      destruct Hst' as [-> Hc'].
      destruct (IH (pattrs ++ [(key, Js.Obj None (PM.markAttrs mk))], st')) as [H1 H2];
        [done| cbn [fst]; by rewrite <- app_assoc |].
      cbn [fst] in H1. rewrite H1, <- app_assoc. done. }
  intros Hc Hnd. by apply (H marks ([], st)).
Qed.

(** Without a key that is an array index, [for ... in] visits the fields
    in insertion order. *)
Lemma forIn_plain (o : Js.object) :
  Forall (fun kv => Str.arrayIndex (fst kv) = None) o -> Js.forIn o = o.
Proof.
  intros H. unfold Js.forIn.
  assert (Hfold : forall acc,
            fold_left (fun acc kv =>
                         match Str.arrayIndex (fst kv) with
                         | Some n => Js.insertByIndex n kv acc
                         | None => acc
                         end) o acc = acc).
  { induction H as [|kv o Hkv _ IH]; intros acc; [done|].
    cbn [fold_left]. by rewrite Hkv. }
  rewrite Hfold. cbn [map app].
  induction H as [|kv o Hkv _ IH]; [done|].
  cbn [List.filter]. rewrite Hkv. f_equal. apply IH.
  intros acc. specialize (Hfold acc). cbn [fold_left] in Hfold.
  by rewrite Hkv in Hfold.
Qed.

(** A string that holds a dash writes no number. *)
Lemma digitsValue_dash (a b : string) acc :
  Str.digitsValue (a +:+ String "-" b) acc = None.
Proof.
  revert acc. induction a as [|c a IH]; intros acc; [done|].
  rewrite str_app_cons. cbn [Str.digitsValue]. by destruct (_ && _)%bool.
Qed.

(** The name under which an overlapping mark is stored is no array index. *)
Lemma arrayIndex_hashed (name h : string) :
  Str.arrayIndex (name +:+ "--" +:+ h) = None.
Proof.
  change ("--" +:+ h) with (String "-" (String "-" h)).
  destruct name as [|c name]; [done|].
  rewrite str_app_cons. unfold Str.arrayIndex.
  destruct (_ && _)%bool; [done|].
  change (String c (name +:+ String "-" (String "-" h)))
    with (String c name +:+ String "-" (String "-" h)).
  by rewrite digitsValue_dash.
Qed.

(** X9. The marks of a text node survive the way through the attributes of
    the shared text: [attributesToMarks], on what [marksToAttributes] made
    of them, gives the same marks in the same order. This holds for marks
    that are stored under pairwise different names (no two marks of a type
    that excludes itself, no two marks of one hash), whose type names are
    plain and no array indices (which [for ... in] would visit before the
    others), none of them [ychange], and that the schema builds again from
    their names and attributes, with a hash function that returns eight
    units of the base64 alphabet. *)
Theorem marks_roundtrip marks st :
  (forall v, isHashSuffix ("--" +:+ hashOfJSON v) = true) ->
  cacheAgrees schema (meta st) ->
  NoDup (map (markKey schema hashOfJSON) marks) ->
  Forall (fun mk =>
            PM.markName mk <> "ychange" /\ plainName (PM.markName mk) /\
            Str.arrayIndex (PM.markName mk) = None /\
            PM.mark schema (PM.markName mk) (Some (Js.Obj None (PM.markAttrs mk)))
              = Some mk) marks ->
  attributesToMarks schema (marksToAttributes schema hashOfJSON marks st).1 =
  Some marks.
Proof.
  intros Hh Hc Hnd Hm.
  assert (Hf : List.filter (fun mk => negb (String.eqb (PM.markName mk) "ychange")) marks
               = marks).
  { clear -Hm. induction Hm as [|mk marks (Hy & _) _ IH]; [done|].
    cbn. destruct (String.eqb_spec (PM.markName mk) "ychange"); [done|].
    cbn. by rewrite IH. }
  destruct (marksToAttributes_eq marks st Hc) as [-> _].
  { unfold markAttributes, Js.keys. rewrite Hf, map_map. cbn [fst].
    by rewrite (map_ext _ (markKey schema hashOfJSON)). }
  unfold markAttributes. rewrite Hf. clear Hf Hnd Hc.
  unfold attributesToMarks. rewrite forIn_plain.
  - induction Hm as [|mk marks (Hy & Hp & Hi & Hs) _ IH]; [done|].
    cbn [map marksOfAttributes].
    rewrite yattr2markname_markKey by done. rewrite Hs, IH. done.
  - apply Forall_forall. intros kv Hkv.
    apply list_elem_of_In, in_map_iff in Hkv as (mk & <- & Hmk). cbn [fst].
    apply list_elem_of_In in Hmk.
    destruct (proj1 (Forall_forall _ _) Hm mk Hmk) as (_ & _ & Hi & _).
    unfold markKey. destruct (negb _); [apply arrayIndex_hashed | exact Hi].
Qed.

End Marks.

(* ===================================================================== *)
(** * Properties: the way back to the editable tree *)
(* ===================================================================== *)

Section Backward.
Import Sync Spec.
Context (schema : PM.Schema).




(** What [createNodeFromYElement] returns is what the mapping holds for the
    element afterwards. *)
Lemma createNodeFromYElement_mapped fuel el st node el' st' :
  createNodeFromYElement schema fuel el st = (Normal, Some node, el', st') ->
  mapping (meta st') !! Y.ref el' = Some (OneNode node) /\ Y.ref el' = Y.ref el.
Proof.
  destruct fuel as [|fuel]; [done|]. cbn [createNodeFromYElement].
  destruct el as [r i n a l| |]; try done.
  destruct (forEachChild _ _ _ _) as [c b]. destruct c; try done.
  destruct (tryCreateNode _ _ _ _) as [nd|].
  - intros [= <- <- <-]. cbn. split; [|done]. apply lookup_insert_eq.
  - cbn [Y._item Y.withItems]. by destruct i.
Qed.

(** X11. A node that [createNodeFromYElement] has built is not built again:
    [createNodeIfNotExists] on the same element returns that node and
    leaves the element and the state as they are. *)
Theorem createNodeIfNotExists_reuses fuel fuel' el st node el' st' :
  createNodeFromYElement schema fuel el st = (Normal, Some node, el', st') ->
  createNodeIfNotExists schema fuel' el' st' = (Normal, Some (OneNode node), el', st').
Proof.
  intros H. apply createNodeFromYElement_mapped in H as [H _].
  unfold createNodeIfNotExists, createNodeIfNotExistsWith. by rewrite H.
Qed.

End Backward.

(* ===================================================================== *)
(** * Properties: the binding *)
(* ===================================================================== *)

Section WithoutUserData.
Import Sync Spec AtSnapshot.
Context (schema : PM.Schema).
Context {ColorDef : Type} `{EqDecision ColorDef}.
Context (rand : nat -> nat) (colorValue : option ColorDef -> Js.value).
Context (colors : list ColorDef).
Context (snapshot : YDoc.Snapshot).
Context (getAttributesAt : Y.AbstractType -> Js.object).
Context (toDeltaAt : Y.AbstractType -> gmap (option string) (option ColorDef) ->
                     Completion * list YText.Op *
                     gmap (option string) (option ColorDef)).
Context (hasContentAt : Y.AbstractType -> bool).





End WithoutUserData.

Section SelectionRoundTrip.
Import Sync Spec Binding Props.
Context {RelativePosition : Type}.
Context (toRelative : nat -> option RelativePosition).
Context (toAbsolute : RelativePosition -> option nat).

(** X14. What [restoreRelativeSelection] makes of what
    [getRelativeSelection] stored, when the two ends of the selection are
    found again (each of them, made relative and absolute again, is the
    position it was): a selection of everything is set again as one; a
    node selection is created again at the anchor it had; and a selection
    of any other kind, whether it was a text selection or not, is set as
    the text selection that [TextSelection.between] makes of the anchor
    and the head it had. *)
Theorem restoreRelativeSelection_getRelativeSelection tr selection :
  (exists r, toRelative (selAnchor selection) = Some r /\
             toAbsolute r = Some (selAnchor selection)) ->
  (exists r, toRelative (selHead selection) = Some r /\
             toAbsolute r = Some (selHead selection)) ->
  let restored :=
    restoreRelativeSelection toAbsolute tr
      (Some (getRelativeSelection toRelative selection)) in
  (jsonID selection = "all" -> restored = setSelection AllSelection tr) /\
  (jsonID selection = "node" ->
   restored = setSelection (NodeSelection (Some (selAnchor selection))) tr) /\
  (jsonID selection <> "all" -> jsonID selection <> "node" ->
   restored =
   setSelection (TextSelection (selAnchor selection) (selHead selection)) tr).
Proof.
  intros (ra & Ea & Eaa) (rh & Eh & Ehh) restored. subst restored.
  unfold restoreRelativeSelection, getRelativeSelection.
  cbn [type anchor head]. rewrite Ea, Eh, Eaa, Ehh.
  split; [|split].
  - by intros ->.
  - by intros ->.
  - intros Hall Hnode.
    destruct (String.eqb_spec (jsonID selection) "all"); [done|].
    by destruct (String.eqb_spec (jsonID selection) "node").
Qed.
End SelectionRoundTrip.

(* ===================================================================== *)
(** * Properties: the colours of the users *)
(* ===================================================================== *)

Section UserColorFacts.
Import Colors.
Context {ColorDef : Type} `{EqDecision ColorDef}.
Context {User : Type} `{EqDecision User} `{!Countable User}.

Lemma length_usedColors (m : gmap User (option ColorDef)) :
  length (usedColors m) = size m.
Proof. unfold usedColors. by rewrite length_fmap, length_map_to_list. Qed.

Lemma usedColors_spec (m : gmap User (option ColorDef)) c :
  c ∈ usedColors m <-> exists user, m !! user = Some c.
Proof.
  unfold usedColors. rewrite list_elem_of_fmap. split.
  - intros ([u c'] & -> & H). exists u. by apply elem_of_map_to_list.
  - intros (u & H). exists (u, c). split; [done|]. by apply elem_of_map_to_list.
Qed.

(** Among colours that are pairwise different, at most as many are used
    as there are users. *)
Lemma unused_colors_left (used : list (option ColorDef)) (colors : list ColorDef) :
  NoDup colors -> length used < length colors ->
  0 < length (List.filter (fun color => negb (bool_decide (Some color ∈ used))) colors).
Proof.
  intros Hnd Hlt.
  assert (Hsplit : forall l : list ColorDef,
            length l =
            length (List.filter (fun color => negb (bool_decide (Some color ∈ used))) l) +
            length (List.filter (fun color => bool_decide (Some color ∈ used)) l)).
  { induction l as [|c l IH]; [done|]. cbn [List.filter].
    destruct (bool_decide (Some c ∈ used)); cbn; lia. }
  assert (Hle : length (List.filter (fun color => bool_decide (Some color ∈ used)) colors)
                <= length used).
  { rewrite <- (length_fmap Some).
    apply submseteq_length, NoDup_submseteq.
    - apply (NoDup_fmap_2 Some). clear -Hnd.
      induction Hnd as [|c l Hc Hl IH]; cbn [List.filter]; [constructor|].
      destruct (bool_decide _); [|done]. constructor; [|done].
      intros Hin. apply Hc. apply list_elem_of_In, filter_In in Hin as [Hin _].
      by apply list_elem_of_In.
    - intros x Hx. apply list_elem_of_fmap in Hx as (c & -> & Hc).
      apply list_elem_of_In, filter_In in Hc as [_ Hc].
      by apply bool_decide_eq_true in Hc. }
  specialize (Hsplit colors). lia.
Qed.

(** X15. A user who has a colour keeps it: the call returns the colour of
    the mapping and leaves the mapping as it is. So a second call for a
    user returns what the first one returned, whatever is drawn and
    whatever colours are offered then. *)
Theorem getUserColor_stable rand rand' (colorMapping : gmap User (option ColorDef))
    colors colors' user :
  let first := getUserColor rand colorMapping colors user in
  getUserColor rand' first.2 colors' user = first.
Proof.
  unfold getUserColor. destruct (colorMapping !! user) as [c|] eqn:E; cbn.
  - by rewrite E.
  - rewrite !lookup_insert_eq. done.
Qed.

(** X16. While there are fewer users than colours, and the colours are
    pairwise different, a new user gets one of the colours, and one that no
    other user has; the other users keep theirs. *)
Theorem getUserColor_fresh rand (colorMapping : gmap User (option ColorDef))
    colors user :
  (forall n, 0 < n -> rand n < n) ->
  NoDup colors ->
  colorMapping !! user = None ->
  size colorMapping < length colors ->
  exists color,
    getUserColor rand colorMapping colors user =
      (Some color, <[user := Some color]> colorMapping) /\
    color ∈ colors /\
    forall other, colorMapping !! other <> Some (Some color).
Proof.
  intros Hrand Hnd Hnew Hsize. unfold getUserColor. rewrite Hnew.
  apply Nat.ltb_lt in Hsize as Hlt. rewrite Hlt.
  set (free := List.filter _ colors).
  assert (Hfree : 0 < length free).
  { apply unused_colors_left; [done|]. by rewrite length_usedColors. }
  unfold oneOf.
  destruct (lookup_lt_is_Some_2 free (rand (length free))) as [color Hc];
    [by apply Hrand|].
  exists color. rewrite Hc, lookup_insert_eq. cbn. split; [done|].
  apply list_elem_of_lookup_2, list_elem_of_In, filter_In in Hc as [Hin Hun].
  split; [by apply list_elem_of_In|].
  intros other Ho. apply negb_true_iff, bool_decide_eq_false in Hun.
  apply Hun, usedColors_spec. by exists other.
Qed.

End UserColorFacts.

(* ===================================================================== *)
(** * Properties: the state of the plugin *)
(* ===================================================================== *)

Section PluginStateFacts.
Import PluginState Props.

Lemma get_fold_set change acc k :
  NoDup (Js.keys change) ->
  Js.get (fold_left (fun st kv => Js.set (fst kv) (snd kv) st) change acc) k =
  match Js.get change k with Some v => Some v | None => Js.get acc k end.
Proof. intros H. by apply (get_assign acc change k). Qed.

Lemma get_assign_nil o k : NoDup (Js.keys o) -> Js.get (Js.assign [] o) k = Js.get o k.
Proof. intros H. rewrite get_assign by done. by destruct (Js.get o k). Qed.

(** X17. The state that [apply] returns. The three flags are booleans:
    [addToHistory] is false only when the transaction says so,
    [isChangeOrigin] is what the change says, false without a change, and
    [isUndoRedoOperation] is never set without [isChangeOrigin]. Every
    other field is the one of the change when the change has it, and the
    one of the state before otherwise. *)
Theorem apply_state viewAttached change addToHistory pluginState :
  NoDup (Js.keys pluginState) ->
  (forall c, change = Some c -> NoDup (Js.keys c)) ->
  let after := (apply viewAttached change addToHistory pluginState).1 in
  (exists origin undoRedo,
     Js.get after "isChangeOrigin" = Some (Js.Bool origin) /\
     Js.get after "isUndoRedoOperation" = Some (Js.Bool undoRedo) /\
     (undoRedo = true -> origin = true) /\
     (change = None -> origin = false) /\
     Js.get after "addToHistory" =
       Some (Js.Bool (negb (Js.strictEqU addToHistory (Some (Js.Bool false)))))) /\
  (forall k, isFlag k = false ->
     Js.get after k =
     match change with
     | Some c => match Js.get c k with Some v => Some v | None => Js.get pluginState k end
     | None => Js.get pluginState k
     end).
Proof.
  intros Hst Hch after. subst after. unfold apply. cbn [fst]. split.
  - eexists _, _. split; [|split; [|split; [|split]]].
    + rewrite get_set_ne by done. apply get_set_eq.
    + apply get_set_eq.
    + destruct change as [c|]; [|done]. intros H. by apply andb_prop in H as [-> _].
    + by intros ->.
    + rewrite !get_set_ne by done. apply get_set_eq.
  - intros k Hk. unfold isFlag in Hk.
    apply orb_false_elim in Hk as [Hk H3]. apply orb_false_elim in Hk as [H1 H2].
    apply String.eqb_neq in H1, H2, H3.
    rewrite !get_set_ne by done.
    destruct change as [c|]; [|done].
    rewrite get_fold_set by (by apply Hch). by rewrite get_assign_nil.
Qed.

(** What [apply] leaves of a field that is none of its flags. *)
Lemma apply_other_keys viewAttached change addToHistory pluginState k :
  NoDup (Js.keys pluginState) -> NoDup (Js.keys change) -> isFlag k = false ->
  Js.get (apply viewAttached (Some change) addToHistory pluginState).1 k =
  match Js.get change k with
  | Some v => Some v
  | None => Js.get pluginState k
  end.
Proof.
  intros Hst Hch Hk. unfold apply, isFlag in *. cbn [fst].
  apply orb_false_elim in Hk as [Hk H3]. apply orb_false_elim in Hk as [H1 H2].
  apply String.eqb_neq in H1, H2, H3.
  rewrite !get_set_ne by done.
  rewrite get_fold_set by done. by rewrite get_assign_nil.
Qed.

(** The state that [apply] returns has pairwise different keys. *)
Lemma apply_NoDup viewAttached change addToHistory pluginState :
  NoDup (Js.keys pluginState) ->
  NoDup (Js.keys (apply viewAttached (Some change) addToHistory pluginState).1).
Proof.
  intros Hst. unfold apply. cbn [fst]. do 3 apply NoDup_keys_set.
  change (fold_left _ change (Js.assign [] pluginState))
    with (Js.assign (Js.assign [] pluginState) change).
  apply NoDup_keys_assign, NoDup_keys_assign. constructor.
Qed.

Lemma showsAs_trans a b c : showsAs a b -> showsAs b c -> showsAs a c.
Proof. intros (H1 & H2 & H3) (K1 & K2 & K3). repeat split; congruence. Qed.

Lemma dispatch_change viewAttached change addToHistory ed st :
  inOrder ed st -> NoDup (Js.keys change) ->
  let ed' := dispatch viewAttached (Some change) addToHistory ed in
  inOrder ed' (apply viewAttached (Some change) addToHistory st).1 /\
  current ed' = fresh ed /\ fresh ed' = S (fresh ed) /\
  forall n, n < fresh ed -> objects ed' !! n = objects ed !! n.
Proof.
  intros (Hst & Hnd & Hfresh) Hch ed'. subst ed'. unfold dispatch. rewrite Hst.
  cbn [objects current fresh]. split; [|split; [done|split; [done|]]].
  - unfold inOrder. cbn [objects current fresh]. split; [|split].
    + apply lookup_insert_eq.
    + by apply apply_NoDup.
    + intros n Hn. rewrite lookup_insert_ne by lia. apply Hfresh. lia.
  - intros n Hn. rewrite lookup_insert_ne by lia. done.
Qed.

Lemma dispatch_renderChange ed st :
  inOrder ed st ->
  showsAs st (apply true (Some renderChange) (Some (Js.Bool false)) st).1.
Proof.
  intros (_ & Hnd & _).
  assert (Hget : forall k, isFlag k = false ->
            Js.get (apply true (Some renderChange) (Some (Js.Bool false)) st).1 k =
            Js.get st k).
  { intros k Hk. rewrite apply_other_keys; [|done| |done].
    - unfold renderChange. cbn [Js.get].
      by destruct (String.eqb_spec "isChangeOrigin" k) as [<-|].
    - apply (bool_decide_unpack _). vm_compute. reflexivity. }
  unfold showsAs, editable. by rewrite !Hget.
Qed.

Lemma typeChanged_inOrder ed st :
  inOrder ed st ->
  exists st', inOrder (typeChanged true ed) st' /\ showsAs st st' /\
    current ed <= current (typeChanged true ed) /\
    fresh ed <= fresh (typeChanged true ed) /\
    forall n, n < fresh ed -> objects (typeChanged true ed) !! n = objects ed !! n.
Proof.
  intros Hord. pose proof Hord as (Hst & Hnd & Hfresh).
  unfold typeChanged. cbn [negb]. rewrite Hst.
  destruct (negb (nullish (Js.get st "snapshot")) ||
            negb (nullish (Js.get st "prevSnapshot"))) eqn:Eactive.
  2:{ exists st. repeat split; done || lia. }
  set (snapshot := default Js.Null (Js.get st "snapshot")).
  set (prevSnapshot := if truthy (Js.get st "prevSnapshot")
                       then default Js.Null (Js.get st "prevSnapshot")
                       else Js.Obj None []).
  set (change := [("snapshot", snapshot); ("prevSnapshot", prevSnapshot)]).
  assert (Hch : NoDup (Js.keys change)).
  { unfold change, Js.keys. cbn [map fst].
    apply (bool_decide_unpack _). vm_compute. reflexivity. }
  destruct (dispatch_change true change (Some (Js.Bool false)) ed st Hord Hch)
    as (Hord' & Hcur & Hfr & Hold).
  eexists. split; [exact Hord'|]. split; [|split; [|split; [|exact Hold]]].
  - assert (Hs : forall k, isFlag k = false ->
              Js.get (apply true (Some change) (Some (Js.Bool false)) st).1 k =
              match Js.get change k with Some v => Some v | None => Js.get st k end).
    { intros k Hk. by apply apply_other_keys. }
    assert (E1 : Js.get change "restore" = None) by reflexivity.
    assert (E2 : Js.get change "snapshot" = Some snapshot) by reflexivity.
    assert (E3 : Js.get change "prevSnapshot" = Some prevSnapshot) by reflexivity.
    unfold showsAs, editable. rewrite !Hs by done. rewrite E1, E2, E3.
    assert (Hsnap : nullish (Some snapshot) = nullish (Js.get st "snapshot")).
    { subst snapshot. by destruct (Js.get st "snapshot") as [v|]. }
    assert (Hprev : nullish (Some prevSnapshot) = false).
    { subst prevSnapshot.
      destruct (Js.get st "prevSnapshot") as [v|]; [|done].
      destruct v as [|b|z|str|r f]; cbn; try done.
      - by destruct b.
      - by destruct (Z.eqb z 0).
      - by destruct (String.eqb str ""). }
    split; [done|]. split; [done|]. rewrite Hsnap, Hprev.
    apply orb_true_iff in Eactive as [E|E]; apply negb_true_iff in E; rewrite E.
    + by rewrite andb_false_l.
    + by rewrite !andb_false_r.
  - rewrite Hcur. destruct (decide (current ed < fresh ed)); [lia|].
    rewrite Hfresh in Hst by lia. done.
  - lia.
Qed.

(** The three [delete]s reach an object that the editor holds no longer. *)
Lemma alter_inOrder f pluginState ed st :
  inOrder ed st -> pluginState <> current ed ->
  inOrder {| objects := alter f pluginState (objects ed);
             current := current ed; fresh := fresh ed |} st.
Proof.
  intros (Hst & Hnd & Hfresh) Hne. unfold inOrder. cbn [objects current fresh].
  split; [|split; [done|]].
  - by rewrite lookup_alter_ne.
  - intros n Hn. destruct (decide (pluginState = n)) as [->|Hp].
    + by rewrite lookup_alter_eq, Hfresh.
    + rewrite lookup_alter_ne by done. by apply Hfresh.
Qed.

(** X18. The rerender that [apply] hands to [eventloop.timeout] does not
    change what the editor shows as the state of a snapshot, however the
    rendering goes: the state of the plugin that the editor holds
    afterwards has the [restore] that it had before, a snapshot if and
    only if it had one, and the editor is editable only if it was. For a
    change that carries [restore], the three [delete]s reach the object
    that the dispatch of [_renderSnapshot] has just replaced by a copy, so
    restoring does not end the read-only state of the editor. *)
Theorem rerender_keeps_snapshot completes changes written change pluginState ed st :
  objects ed !! current ed = Some st ->
  NoDup (Js.keys st) ->
  (forall n, fresh ed <= n -> objects ed !! n = None) ->
  is_Some (objects ed !! pluginState) ->
  let ed' := rerender true completes changes written change pluginState ed in
  exists st',
    objects ed' !! current ed' = Some st' /\
    Js.get st' "restore" = Js.get st "restore" /\
    nullish (Js.get st' "snapshot") = nullish (Js.get st "snapshot") /\
    editable st' = editable st /\
    (completes = true -> current ed' <> pluginState).
Proof.
  intros Hst Hnd Hfresh [held Hheld] ed'. subst ed'.
  assert (Hp : pluginState < fresh ed).
  { destruct (decide (pluginState < fresh ed)); [done|].
    rewrite Hfresh in Hheld by lia. done. }
  assert (Hord : inOrder ed st) by done.
  unfold rerender. cbn [negb].
  (* the transaction of [_renderSnapshot] *)
  set (ed1 := if completes then dispatch true (Some renderChange) _ ed else ed).
  assert (H1 : exists st1, inOrder ed1 st1 /\ showsAs st st1 /\
                 fresh ed <= fresh ed1 /\
                 (completes = true -> fresh ed <= current ed1)).
  { subst ed1. destruct completes.
    - destruct (dispatch_change true renderChange (Some (Js.Bool false)) ed st Hord)
        as (Ho & Hc & Hf & _).
      { apply (bool_decide_unpack _). vm_compute. reflexivity. }
      eexists. split; [exact Ho|]. split; [by eapply dispatch_renderChange|].
      split; [lia|]. intros _. lia.
    - exists st. split; [done|]. split; [done|]. split; [lia|done]. }
  destruct H1 as (st1 & Ho1 & Hs1 & Hf1 & Hc1).
  (* its end: the observer *)
  set (ed2 := if changes then typeChanged true ed1 else ed1).
  assert (H2 : exists st2, inOrder ed2 st2 /\ showsAs st st2 /\
                 fresh ed <= fresh ed2 /\
                 (completes = true -> fresh ed <= current ed2)).
  { subst ed2. destruct changes.
    - destruct (typeChanged_inOrder ed1 st1 Ho1) as (st2 & Ho & Hs & Hc & Hf & _).
      exists st2. split; [done|]. split; [by eapply showsAs_trans|].
      split; [lia|]. intros E. specialize (Hc1 E). lia.
    - by exists st1. }
  destruct H2 as (st2 & Ho2 & Hs2 & Hf2 & Hc2).
  destruct completes; cbn [negb].
  2:{ exists st2. destruct Ho2 as (? & _), Hs2 as (? & ? & ?). done. }
  specialize (Hc2 eq_refl).
  destruct (nullish (Js.get change "restore")).
  { exists st2. destruct Ho2 as (? & _), Hs2 as (? & ? & ?).
    repeat split; try done. lia. }
  (* the three deletes, and the document written from the editor *)
  set (ed3 := {| objects := alter _ pluginState (objects ed2);
                 current := current ed2; fresh := fresh ed2 |}).
  assert (Ho3 : inOrder ed3 st2) by (apply alter_inOrder; [done|lia]).
  destruct written.
  - destruct (typeChanged_inOrder ed3 st2 Ho3) as (st3 & Ho & Hs & Hc & _).
    exists st3. destruct Ho as (? & _).
    destruct (showsAs_trans _ _ _ Hs2 Hs) as (? & ? & ?).
    repeat split; try done. cbn [current ed3] in Hc. lia.
  - exists st2. destruct Ho3 as (? & _), Hs2 as (? & ? & ?).
    repeat split; try done. cbn [current ed3]. lia.
Qed.
End PluginStateFacts.

(* ===================================================================== *)
(** * Properties: the oracle accepts what the forward conversion makes *)
(* ===================================================================== *)

Section ObjectsBuilt.
Import Sync Spec Props WellFormed.

(** Setting keys that are new, one after the other, appends them. *)
Lemma fold_set_fresh (o acc : Js.object) :
  NoDup (Js.keys (acc ++ o)) ->
  fold_left (fun acc kv => Js.set (fst kv) (snd kv) acc) o acc = acc ++ o.
Proof.
  revert acc. induction o as [|[k v] o IH]; intros acc Hnd.
  - by rewrite app_nil_r.
  - cbn [fold_left fst snd]. rewrite set_absent.
    + rewrite IH; rewrite <- app_assoc; done.
    + unfold Js.keys in *. rewrite map_app in Hnd. cbn [map fst] in Hnd.
      apply NoDup_app in Hnd as (_ & Hd & _). intros Hin.
      apply (Hd k); [by apply list_elem_of_In | left].
Qed.

(** [Object.assign({}, o)] is [o] when the keys of [o] are pairwise different. *)
Lemma assign_nil (o : Js.object) : NoDup (Js.keys o) -> Js.assign [] o = o.
Proof. intros H. unfold Js.assign. by rewrite fold_set_fresh. Qed.

(** [Object.assign] appends keys that are new. *)
Lemma assign_fresh (a b : Js.object) :
  NoDup (Js.keys (a ++ b)) -> Js.assign a b = a ++ b.
Proof. intros H. unfold Js.assign. by rewrite fold_set_fresh. Qed.

(** Formatting a run that has no attributes with values that are not [null]
    gives exactly these attributes. *)
Lemma format_nil (a : Js.object) :
  NoDup (Js.keys a) -> Forall (fun kv => Js.isNull (snd kv) = false) a ->
  YText.format a [] = a.
Proof.
  intros Hnd Hv. unfold YText.format.
  assert (H : forall acc, NoDup (Js.keys (acc ++ a)) ->
            fold_left (fun acc kv => if Js.isNull (snd kv) then Js.remove (fst kv) acc
                                     else Js.set (fst kv) (snd kv) acc) a acc =
            acc ++ a).
  { clear Hnd. induction Hv as [|[k v] a Hk Ha IH]; intros acc Hnd.
    - by rewrite app_nil_r.
    - cbn [fold_left fst snd] in *. rewrite Hk, set_absent.
      + rewrite IH; rewrite <- app_assoc; done.
      + unfold Js.keys in *. rewrite map_app in Hnd. cbn [map fst] in Hnd.
        apply NoDup_app in Hnd as (_ & Hd & _). intros Hin.
        apply (Hd k); [by apply list_elem_of_In | left]. }
  by apply (H []).
Qed.

(** A settled value is identical to itself. *)
Lemma strictEq_settled v : settled v = true -> Js.strictEq v v = true.
Proof.
  destruct v as [|b|z|s|[r|] f]; cbn; try done; intros _.
  - by destruct b.
  - apply Z.eqb_refl.
  - apply String.eqb_refl.
  - apply Nat.eqb_refl.
Qed.

(** A settled value is deeply equal to itself. *)
Lemma equalityDeep_settled v : settled v = true -> Js.equalityDeep v v = true.
Proof.
  intros H. destruct v; cbn [Js.equalityDeep]; by rewrite strictEq_settled.
Qed.

(** [equalAttrs] accepts attributes that it finds again, value by value,
    among as many. *)
Lemma equalAttrs_found r (pf yf : Js.object) :
  length (List.filter notNull pf) = length (List.filter notNullNorMark yf) ->
  Forall (fun kv => Js.isNull (snd kv) = false ->
                    settled (snd kv) = true /\ Js.get yf (fst kv) = Some (snd kv)) pf ->
  equalAttrs (Js.Obj r pf) (Some yf) = true.
Proof.
  intros Hlen Hall. cbn [equalAttrs]. rewrite Hlen, Nat.eqb_refl. cbn [andb].
  clear Hlen. induction Hall as [|[k l] pf Hk Hpf IH]; [done|].
  cbn [fst snd] in Hk. destruct (Js.isNull l) eqn:El; [exact IH|].
  destruct (Hk eq_refl) as [Hs ->]. cbn [Js.strictEqU].
  rewrite (strictEq_settled l Hs), orb_true_r. cbn [orb andb]. exact IH.
Qed.

(** Among keys that do not start with the prefix of marks, the two filters
    of [equalAttrs] keep the same entries. *)
Lemma filter_notNullNorMark_plain (fields : Js.object) :
  Forall (fun kv => Str.startsWith MarkPrefix (fst kv) = false) fields ->
  List.filter notNullNorMark fields = List.filter notNull fields.
Proof.
  induction 1 as [|[k v] fields Hk _ IH]; [done|].
  cbn [List.filter]. unfold notNullNorMark, notNull in *. cbn [fst snd] in *.
  rewrite Hk, andb_true_r, IH. done.
Qed.

(** [equalAttrs] accepts the attributes of a mark against themselves. *)
Lemma equalAttrs_refl r (fields : Js.object) :
  markAttrsOk fields -> equalAttrs (Js.Obj r fields) (Some fields) = true.
Proof.
  intros [Hnd Hall]. apply equalAttrs_found.
  - rewrite filter_notNullNorMark_plain; [done|].
    eapply Forall_impl; [exact Hall|]. by intros kv [_ ?].
  - apply Forall_forall. intros [k v] Hin _. cbn [fst snd].
    split.
    + by destruct (proj1 (Forall_forall _ _) Hall _ Hin).
    + apply get_In; [done|]. by apply list_elem_of_In.
Qed.

(** Two objects of the same fields are deeply equal, whatever their
    identities. *)
Lemma equalityDeep_fields r r' (fields : Js.object) :
  NoDup (Js.keys fields) ->
  Forall (fun kv => Js.equalityDeep (snd kv) (snd kv) = true) fields ->
  Js.equalityDeep (Js.Obj r fields) (Js.Obj r' fields) = true.
Proof.
  intros Hnd Hall. cbn [Js.equalityDeep]. rewrite Nat.eqb_refl. cbn [andb].
  apply orb_true_iff. right.
  assert (H : forall l, Forall (fun kv => In kv fields) l ->
    (fix every (l : list (string * Js.value)) : bool :=
       match l with
       | [] => true
       | (k, v) :: l' =>
           match Js.get fields k with
           | Some w => Js.equalityDeep v w
           | None => false
           end && every l'
       end) l = true).
  { induction 1 as [|[k v] l Hk _ IH]; [done|].
    rewrite (get_In fields k v Hnd Hk), IH, andb_true_r.
    apply list_elem_of_In in Hk.
    exact (proj1 (Forall_forall _ _) Hall _ Hk). }
  apply H. apply Forall_forall. intros kv Hkv. by apply list_elem_of_In.
Qed.

(** [equalityDeep] accepts what [toJSON()] makes of a mark against what it
    makes of it another time. *)
Lemma equalityDeep_toJSON mk :
  markAttrsOk (PM.markAttrs mk) ->
  Js.equalityDeep (PM.toJSON mk) (PM.toJSON mk) = true.
Proof.
  intros [Hnd Hall]. unfold PM.toJSON.
  apply equalityDeep_fields.
  - destruct (PM.markAttrs mk); by apply (bool_decide_unpack _).
  - constructor; [by apply equalityDeep_settled|].
    destruct (PM.markAttrs mk) as [|kv attrs] eqn:E; [done|].
    constructor; [|done]. cbn [snd]. apply equalityDeep_fields; [done|].
    eapply Forall_impl; [exact Hall|]. intros kv' [Hs _]. by apply equalityDeep_settled.
Qed.

End ObjectsBuilt.

Section TextsAccepted.
Import Sync Spec Props WellFormed.
Context (schema : PM.Schema) (hashOfJSON : Js.value -> string).
Context (Hhash : forall v, isHashSuffix ("--" +:+ hashOfJSON v) = true).

(** Without a mark [ychange], the filter of [marksToAttributes] keeps all
    marks. *)
Lemma filter_not_ychange marks :
  Forall (fun mk => PM.markName mk <> "ychange") marks ->
  List.filter (fun mk => negb (String.eqb (PM.markName mk) "ychange")) marks = marks.
Proof.
  induction 1 as [|mk marks Hy _ IH]; [done|].
  cbn. destruct (String.eqb_spec (PM.markName mk) "ychange"); [done|].
  cbn. by rewrite IH.
Qed.

(** Marks of a well-formed text are not [ychange]. *)
Lemma textMarksOk_names marks :
  textMarksOk marks -> Forall (fun mk => PM.markName mk <> "ychange") marks.
Proof. intros [_ H]. eapply Forall_impl; [exact H|]. by intros mk [? _]. Qed.

(** The attributes of the marks of a well-formed text, entry by entry. *)
Lemma markAttributes_ok marks :
  textMarksOk marks ->
  markAttributes schema hashOfJSON marks =
  map (fun mk => (markKey schema hashOfJSON mk, Js.Obj None (PM.markAttrs mk))) marks.
Proof.
  intros H. unfold markAttributes. by rewrite filter_not_ychange by by apply textMarksOk_names.
Qed.

(** Marks of different types are stored under different names. *)
Lemma markKey_NoDup marks :
  textMarksOk marks -> NoDup (map (markKey schema hashOfJSON) marks).
Proof.
  intros [Hnd Hall]. induction Hall as [|mk marks (Hy & Hp & _) Hall IH]; [constructor|].
  cbn [map] in *. apply NoDup_cons in Hnd as [Hmk Hnd].
  apply NoDup_cons. split; [|by apply IH].
  intros Hin. apply Hmk.
  apply list_elem_of_fmap in Hin as (mk' & Hk & Hin').
  apply list_elem_of_fmap. exists mk'. split; [|done].
  rewrite <- (yattr2markname_markKey schema hashOfJSON mk Hhash Hp), Hk.
  apply yattr2markname_markKey; [done|].
  by destruct (proj1 (Forall_forall _ _) Hall mk' Hin') as (_ & ? & _).
Qed.

(** The attributes of the marks of a well-formed text have pairwise
    different keys. *)
Lemma markAttributes_keys marks :
  textMarksOk marks -> NoDup (Js.keys (markAttributes schema hashOfJSON marks)).
Proof.
  intros H. rewrite markAttributes_ok by done. unfold Js.keys. rewrite map_map.
  cbn [fst]. rewrite (map_ext _ (markKey schema hashOfJSON)) by done.
  by apply markKey_NoDup.
Qed.

(** The content that [createTypeFromTextNodes] hands to [applyDelta]. *)
Lemma textNodesContent_eq nodes st :
  cacheAgrees schema (meta st) ->
  Forall (fun n => textMarksOk (PM.marks n)) nodes ->
  (textNodesContent schema hashOfJSON [] nodes st).1 =
    textRuns schema hashOfJSON nodes /\
  cacheAgrees schema (meta (textNodesContent schema hashOfJSON [] nodes st).2).
Proof.
  intros Hc Hall. revert st Hc.
  induction Hall as [|n nodes Hn _ IH]; intros st Hc; [done|].
  cbn [textNodesContent].
  destruct (marksToAttributes_eq schema hashOfJSON (PM.marks n) st Hc) as [E1 E2];
    [by apply markAttributes_keys|].
  destruct (marksToAttributes schema hashOfJSON (PM.marks n) st) as [attributes st1].
  cbn [fst snd] in E1, E2. subst attributes.
  destruct (IH st1 E2) as [IH1 IH2].
  destruct (textNodesContent schema hashOfJSON [] nodes st1) as [rest st2].
  cbn [fst snd] in *. subst rest. split; [|done].
  cbn [textRuns map]. by rewrite assign_nil by by apply markAttributes_keys.
Qed.

(** A delta of insertions, applied at the end, appends one run for each
    insertion. *)
Lemma applyOps_inserts (content : list (string * Js.object)) before :
  YText.applyOps (map (fun c => YText.Insert (fst c) (Some (snd c))) content) before [] =
  before ++ map (fun c => (fst c, YText.format (snd c) [])) content.
Proof.
  revert before. induction content as [|[s a] content IH]; intros before.
  - cbn. by rewrite !app_nil_r.
  - cbn [map YText.applyOps fst snd default]. rewrite IH, <- app_assoc. done.
Qed.

(** The attributes of the marks of a well-formed text are kept as they
    are by an insertion. *)
Lemma format_markAttributes marks :
  textMarksOk marks ->
  YText.format (markAttributes schema hashOfJSON marks) [] =
  markAttributes schema hashOfJSON marks.
Proof.
  intros H. apply format_nil; [by apply markAttributes_keys|].
  unfold markAttributes. apply Forall_forall. intros kv Hin.
  apply list_elem_of_In, in_map_iff in Hin as (mk & <- & _). done.
Qed.

(** The runs of well-formed text nodes are as Yjs keeps them. *)
Lemma normalize_textRuns nodes :
  Forall (fun n => PM.isText n = true /\ wellFormed n) nodes ->
  separated nodes ->
  YText.normalize (textRuns schema hashOfJSON nodes) = textRuns schema hashOfJSON nodes.
Proof.
  intros Hall. induction Hall as [|n nodes [Ht Hw] Hall IH]; intros Hsep; [done|].
  destruct Hsep as [Hab Hsep]. specialize (IH Hsep).
  destruct n as [r t marks|]; [|done]. destruct Hw as [Hne Hm].
  cbn [textRuns map PM.text default from_option id PM.marks YText.normalize] in *.
  destruct (String.eqb_spec t ""); [done|].
  fold (textRuns schema hashOfJSON nodes). rewrite IH.
  destruct nodes as [|b nodes']; [done|].
  cbn [textRuns map]. fold (textRuns schema hashOfJSON nodes').
  destruct (YText.noAttributes _ && YText.noAttributes _) eqn:E; [|done].
  exfalso. apply andb_prop in E as [Ea Eb]. apply Hab.
  apply Forall_cons in Hall as [[Hbt Hbw] _].
  destruct b as [rb tb mb|]; [|done]. destruct Hbw as [_ Hmb].
  rewrite markAttributes_ok in Ea, Eb by done. cbn [PM.marks] in *.
  split; [done|]. split; [done|]. destruct marks; [|done]. by destruct mb.
Qed.

(** What [createTypeFromTextNodes] makes of well-formed text nodes: a live
    text of their runs. *)
Lemma createTypeFromTextNodes_eq nodes st :
  cacheAgrees schema (meta st) ->
  Forall (fun n => PM.isText n = true /\ wellFormed n) nodes ->
  separated nodes ->
  exists r item,
    (createTypeFromTextNodes schema hashOfJSON nodes st).1 =
      Y.XmlText r (Some item) (textRuns schema hashOfJSON nodes) /\
    Y.deleted item = false /\
    cacheAgrees schema (meta (createTypeFromTextNodes schema hashOfJSON nodes st).2).
Proof.
  intros Hc Hall Hsep. unfold createTypeFromTextNodes.
  destruct (newType st) as [[ref item] st0] eqn:En.
  assert (Hitem : Y.deleted item = false) by (unfold newType in En; by injection En as _ <- _).
  assert (Hc0 : cacheAgrees schema (meta st0)) by (unfold newType in En; by injection En as _ _ <-).
  assert (Hmarks : Forall (fun n => textMarksOk (PM.marks n)) nodes).
  { eapply Forall_impl; [exact Hall|]. intros [r t m|] [Ht Hw]; [|done]. by destruct Hw. }
  destruct (textNodesContent_eq nodes st0 Hc0 Hmarks) as [E1 E2].
  destruct (textNodesContent schema hashOfJSON [] nodes st0) as [delta st1].
  cbn [fst snd] in *. subst delta.
  exists ref, item. split; [|split; [done|done]].
  unfold YText.applyDelta, YText.withSpans, Y.isDeleted. cbn [Y._item]. rewrite Hitem.
  f_equal. rewrite applyOps_inserts. cbn [app].
  rewrite <- (normalize_textRuns nodes Hall Hsep) at 2. f_equal.
  unfold textRuns. rewrite map_map. apply map_ext_in.
  intros n Hn. cbn [fst snd]. f_equal. apply format_markAttributes.
  apply list_elem_of_In in Hn. exact (proj1 (Forall_forall _ _) Hmarks n Hn).
Qed.

End TextsAccepted.

Section TextsAccepted2.
Import Sync Spec Props WellFormed.
Context (schema : PM.Schema) (hashOfJSON : Js.value -> string).
Context (Hhash : forall v, isHashSuffix ("--" +:+ hashOfJSON v) = true).

(** [every] holds when the test holds at every index. *)
Lemma everyFrom_all {A} (f : A -> nat -> bool) i l :
  (forall j x, l !! j = Some x -> f x (i + j) = true) ->
  Arr.everyFrom f i l = true.
Proof.
  revert i. induction l as [|x l IH]; intros i H; [done|].
  cbn [Arr.everyFrom]. rewrite <- (Nat.add_0_r i) at 1.
  rewrite (H 0 x eq_refl). cbn [andb]. apply IH.
  intros j y Hj. rewrite Nat.add_succ_comm. by apply H.
Qed.

(** With at most one mark of a type, looking a mark up by its type finds
    it. *)
Lemma find_by_name marks mk :
  NoDup (map PM.markName marks) -> In mk marks ->
  List.find (fun m => String.eqb (PM.markName m) (PM.markName mk)) marks = Some mk.
Proof.
  induction marks as [|m marks IH]; [done|]. cbn [map List.find].
  intros Hnd Hin. apply NoDup_cons in Hnd as [Hm Hnd].
  destruct Hin as [->|Hin]; [by rewrite String.eqb_refl|].
  destruct (String.eqb_spec (PM.markName m) (PM.markName mk)) as [E|_]; [|by apply IH].
  exfalso. apply Hm. rewrite E. apply list_elem_of_fmap. exists mk.
  split; [done|]. by apply list_elem_of_In.
Qed.

(** [equalYTextPText] accepts the text that [createTypeFromTextNodes]
    makes of well-formed text nodes. *)
Lemma equalYTextPText_textRuns r i nodes :
  Forall (fun n => PM.isText n = true /\ wellFormed n) nodes ->
  equalYTextPText (Y.XmlText r i (textRuns schema hashOfJSON nodes)) nodes = true.
Proof.
  intros Hall. unfold equalYTextPText. cbn [YText.toDelta].
  unfold textRuns at 1. rewrite !length_map, Nat.eqb_refl. cbn [andb].
  apply everyFrom_all. intros j d Hd. cbn [Nat.add].
  unfold textRuns in Hd. rewrite !list_lookup_fmap in Hd.
  destruct (nodes !! j) as [n|] eqn:En; [|done]. cbn in Hd. injection Hd as <-.
  apply list_elem_of_lookup_2 in En as Hin.
  destruct (proj1 (Forall_forall _ _) Hall n Hin) as [Ht Hw].
  destruct n as [rn t marks|]; [|done]. destruct Hw as [Hne Hm].
  cbn [PM.text PM.marks default from_option id].
  rewrite String.eqb_refl. cbn [andb].
  set (A := markAttributes schema hashOfJSON marks).
  assert (HA : default [] (if YText.noAttributes A then None else Some A) = A).
  { by destruct A. }
  rewrite HA. subst A. rewrite markAttributes_ok by done.
  unfold Js.keys. rewrite !length_map, Nat.eqb_refl. cbn [andb].
  apply forallb_forall. intros kv Hkv.
  apply in_map_iff in Hkv as (mk & <- & Hmk). cbn [fst snd].
  destruct Hm as [Hnd Hmarks].
  destruct (proj1 (Forall_forall _ _) Hmarks mk (proj2 (list_elem_of_In _ _) Hmk))
    as (Hy & Hp & Hok).
  rewrite (yattr2markname_markKey schema hashOfJSON mk Hhash Hp).
  unfold findMarkAttrs. rewrite (find_by_name marks mk Hnd Hmk).
  by apply equalAttrs_refl.
Qed.

End TextsAccepted2.

Section ElementsAccepted.
Import Sync Spec Props WellFormed.
Context (schema : PM.Schema) (hashOfJSON : Js.value -> string).
Context (Hhash : forall v, isHashSuffix ("--" +:+ hashOfJSON v) = true).

(** A prefix can be cancelled. *)
Lemma str_app_inj_l (p a b : string) : p +:+ a = p +:+ b -> a = b.
Proof. induction p as [|c p IH]; [done|]. rewrite !str_app_cons. intros [= H]. by apply IH. Qed.

(** A string starts with its prefix. *)
Lemma startsWith_app (p s : string) : Str.startsWith p (p +:+ s) = true.
Proof.
  unfold Str.startsWith. induction p as [|c p IH]; [by destruct s|].
  rewrite str_app_cons. cbn. destruct (ascii_dec c c); [exact IH|done].
Qed.

(** The attributes of the marks of a node have pairwise different keys. *)
Lemma nodeMarkAttributes_keys marks :
  NoDup (map PM.markName marks) -> NoDup (Js.keys (nodeMarkAttributes marks)).
Proof.
  intros H. unfold nodeMarkAttributes, Js.keys. rewrite map_map. cbn [fst].
  induction marks as [|mk marks IH]; [constructor|]. cbn [map] in *.
  apply NoDup_cons in H as [Hmk Hnd]. apply NoDup_cons. split; [|by apply IH].
  intros Hin. apply Hmk. apply list_elem_of_fmap in Hin as (mk' & Hk & Hin').
  apply str_app_inj_l in Hk. rewrite Hk. apply list_elem_of_fmap. by exists mk'.
Qed.

(** [nodeMarksToAttributes] on marks of a well-formed node. *)
Lemma nodeMarksToAttributes_eq marks :
  nodeMarksOk marks -> nodeMarksToAttributes marks = nodeMarkAttributes marks.
Proof.
  intros [Hnd Hall]. unfold nodeMarksToAttributes.
  assert (H : forall acc, NoDup (Js.keys (acc ++ nodeMarkAttributes marks)) ->
    fold_left (fun pattrs mark =>
                 if String.eqb (PM.markName mark) "ychange" then pattrs
                 else Js.set (MarkPrefix +:+ PM.markName mark) (PM.toJSON mark) pattrs)
              marks acc = acc ++ nodeMarkAttributes marks).
  { clear Hnd. induction Hall as [|mk marks [Hy _] _ IH]; intros acc Hacc.
    - by rewrite app_nil_r.
    - cbn [fold_left nodeMarkAttributes map] in *.
      destruct (String.eqb_spec (PM.markName mk) "ychange"); [done|].
      rewrite set_absent.
      + rewrite IH; rewrite <- app_assoc; done.
      + unfold Js.keys in *. rewrite map_app in Hacc. cbn [map fst] in Hacc.
        apply NoDup_app in Hacc as (_ & Hd & _). intros Hin.
        apply (Hd (MarkPrefix +:+ PM.markName mk)); [by apply list_elem_of_In | left]. }
  apply (H []). by apply nodeMarkAttributes_keys.
Qed.

(** The attributes that a created element gets have pairwise different
    keys. *)
Lemma elementAttributes_keys node :
  nodeAttrsOk (PM.attrs node) -> nodeMarksOk (PM.marks node) ->
  NoDup (Js.keys (elementAttributes node)).
Proof.
  intros [Hnd Hall] [Hm _]. unfold elementAttributes, Js.keys. rewrite map_app.
  apply NoDup_app. split; [|split].
  - clear Hall. induction (PM.attrs node) as [|[k v] a IH]; [constructor|].
    cbn [map fst] in Hnd. apply NoDup_cons in Hnd as [Hk Hnd].
    cbn [List.filter]. destruct (notNull (k, v)); [|by apply IH].
    cbn [map fst]. apply NoDup_cons. split; [|by apply IH].
    intros Hin. apply Hk. apply list_elem_of_fmap in Hin as (kv & -> & Hin).
    apply list_elem_of_fmap. exists kv. split; [done|].
    by apply list_elem_of_In, filter_In in Hin as [Hin%list_elem_of_In _].
  - intros k Hk Hk'. apply list_elem_of_fmap in Hk as (kv & -> & Hin).
    apply list_elem_of_In, filter_In in Hin as [Hin _].
    apply list_elem_of_In in Hin.
    destruct (proj1 (Forall_forall _ _) Hall kv Hin) as (_ & Hp & _).
    apply list_elem_of_fmap in Hk' as (kv' & E & Hin').
    unfold nodeMarkAttributes in Hin'.
    apply list_elem_of_fmap in Hin' as (mk & -> & _). cbn [fst] in E.
    rewrite E, startsWith_app in Hp. done.
  - by apply nodeMarkAttributes_keys.
Qed.

(** The attributes of the element that [createTypeFromElementNode] makes. *)
Lemma createTypeFromElementNode_shape node st :
  nodeAttrsOk (PM.attrs node) -> nodeMarksOk (PM.marks node) ->
  let st0 := (newType st).2 in
  let made := mapState (createTypeFromTextOrElementNode schema hashOfJSON)
                       (normalizePNodeContent node) st0 in
  exists r item,
    (createTypeFromElementNode schema hashOfJSON node st).1 =
      Y.XmlFragment r (Some item) (Some (PM.typeName node))
        (elementAttributes node) made.1 /\
    Y.deleted item = false /\
    (createTypeFromElementNode schema hashOfJSON node st).2 =
      mappingSet (createTypeFromElementNode schema hashOfJSON node st).1
        (OneNode node) made.2.
Proof.
  intros Ha Hm st0 made. subst st0 made.
  rewrite createTypeFromElementNode_eq.
  destruct (newType st) as [[ref item] st0] eqn:En. cbn [snd].
  assert (Hitem : Y.deleted item = false) by (unfold newType in En; by injection En as _ <- _).
  cbv zeta. destruct (mapState _ _ st0) as [children st1]. cbn [fst snd].
  exists ref, item. split; [|split; [done|done]].
  erewrite !fold_fragment.
  2:{ intros acc kv. cbn [Y.setAttribute]. reflexivity. }
  2:{ intros acc kv.
      instantiate (1 := fun acc kv =>
        if negb (Js.isNull (snd kv)) && negb (String.eqb (fst kv) "ychange")
        then Js.set (fst kv) (snd kv) acc else acc).
      cbn beta. by destruct (_ && _). }
  unfold Y.insert. cbn [Y.withItems Y.items Y.insertItems]. rewrite app_nil_r.
  f_equal. rewrite nodeMarksToAttributes_eq by done.
  pose proof (elementAttributes_keys node Ha Hm) as Hk. unfold elementAttributes in *.
  destruct Ha as [Hnd Hall].
  assert (H1 : forall acc,
     NoDup (Js.keys (acc ++ List.filter notNull (PM.attrs node))) ->
     fold_left (fun acc (kv : string * Js.value) =>
        if negb (Js.isNull (snd kv)) && negb (String.eqb (fst kv) "ychange")
        then Js.set (fst kv) (snd kv) acc else acc) (PM.attrs node) acc =
     acc ++ List.filter notNull (PM.attrs node)).
  { clear Hnd Hk. induction Hall as [|[k v] a (Hs & Hp & Hy) _ IH]; intros acc Hacc.
    - by rewrite app_nil_r.
    - cbn [fold_left fst snd List.filter] in *.
      change (notNull (k, v)) with (negb (Js.isNull v)) in *.
      destruct (Js.isNull v); cbn [negb andb] in *; [by apply IH|].
      destruct (String.eqb_spec k "ychange"); [done|]. cbn [negb].
      rewrite set_absent.
      + rewrite IH; rewrite <- app_assoc; done.
      + unfold Js.keys in *. rewrite map_app in Hacc. cbn [map fst] in Hacc.
        apply NoDup_app in Hacc as (_ & Hd & _). intros Hin.
        apply (Hd k); [by apply list_elem_of_In | left]. }
  rewrite (H1 []).
  - cbn [app]. by apply fold_set_fresh.
  - cbn [app]. unfold Js.keys in *. rewrite map_app in Hk. by apply NoDup_app in Hk as [? _].
Qed.

End ElementsAccepted.

Section ElementsAccepted2.
Import Sync Spec Props WellFormed.
Context (schema : PM.Schema) (hashOfJSON : Js.value -> string).
Context (Hhash : forall v, isHashSuffix ("--" +:+ hashOfJSON v) = true).

(** Of the attributes of a created element, those that [equalAttrs]
    counts are the attributes of the node that are not [null]. *)
Lemma filter_elementAttributes node :
  nodeAttrsOk (PM.attrs node) ->
  List.filter notNullNorMark (elementAttributes node) =
  List.filter notNull (PM.attrs node).
Proof.
  intros [_ Hall]. unfold elementAttributes. rewrite List.filter_app.
  assert (List.filter notNullNorMark (nodeMarkAttributes (PM.marks node)) = []) as ->.
  { induction (PM.marks node) as [|mk marks IH]; [done|].
    cbn [nodeMarkAttributes map List.filter]. unfold notNullNorMark at 1.
    cbn [fst snd]. by rewrite startsWith_app, andb_false_r. }
  rewrite app_nil_r.
  induction Hall as [|[k v] a (Hs & Hp & Hy) _ IH]; [done|].
  cbn [fst snd] in Hp.
  cbn [List.filter]. change (notNull (k, v)) with (negb (Js.isNull v)).
  destruct (Js.isNull v) eqn:Ev; cbn [negb]; [exact IH|].
  cbn [List.filter]. unfold notNullNorMark at 1. cbn [fst snd].
  rewrite Ev, Hp. cbn. by rewrite IH.
Qed.

(** [equalAttrs] accepts the attributes of a node against those of the
    element made of it. *)
Lemma equalAttrs_elementAttributes node :
  nodeAttrsOk (PM.attrs node) -> nodeMarksOk (PM.marks node) ->
  equalAttrs (Js.Obj None (PM.attrs node)) (Some (elementAttributes node)) = true.
Proof.
  intros Ha Hm. apply equalAttrs_found.
  - by rewrite filter_elementAttributes.
  - pose proof (elementAttributes_keys node Ha Hm) as Hk.
    destruct Ha as [Hnd Hall]. apply Forall_forall. intros [k v] Hin Hnull.
    cbn [fst snd] in *. split.
    + by destruct (proj1 (Forall_forall _ _) Hall _ Hin).
    + apply get_In; [done|]. unfold elementAttributes. apply in_or_app. left.
      apply filter_In. split; [by apply list_elem_of_In|].
      unfold notNull. cbn [snd]. by rewrite Hnull.
Qed.

(** [equalMarks] accepts the marks of a node against the attributes of
    the element made of it. *)
Lemma equalMarks_elementAttributes node :
  nodeAttrsOk (PM.attrs node) -> nodeMarksOk (PM.marks node) ->
  equalMarks (PM.marks node) (elementAttributes node) = true.
Proof.
  intros Ha Hm. pose proof (elementAttributes_keys node Ha Hm) as Hk.
  unfold equalMarks. rewrite nodeMarksToAttributes_eq by done.
  assert (Hkeys : List.filter (Str.startsWith MarkPrefix)
                    (Js.keys (elementAttributes node)) =
                  Js.keys (nodeMarkAttributes (PM.marks node))).
  { unfold elementAttributes, Js.keys. rewrite map_app, List.filter_app.
    destruct Ha as [_ Hall].
    assert (List.filter (Str.startsWith MarkPrefix)
              (map fst (List.filter notNull (PM.attrs node))) = []) as ->.
    { induction Hall as [|[k v] a (Hs & Hp & Hy) _ IH]; [done|].
      cbn [fst snd] in Hp.
      cbn [List.filter]. destruct (notNull (k, v)); [|exact IH].
      cbn [map fst List.filter]. by rewrite Hp. }
    cbn [app]. clear. induction (PM.marks node) as [|mk marks IH]; [done|].
    cbn [nodeMarkAttributes map fst List.filter]. rewrite startsWith_app.
    f_equal. exact IH. }
  rewrite Hkeys. unfold Js.keys at 1, nodeMarkAttributes at 1.
  rewrite !length_map, Nat.eqb_refl. cbn [andb].
  apply forallb_forall. intros key Hkey.
  unfold Js.keys, nodeMarkAttributes in Hkey. rewrite map_map in Hkey.
  apply in_map_iff in Hkey as (mk & <- & Hmk). cbn [fst].
  apply orb_true_iff. right.
  destruct Hm as [Hnd Hall].
  rewrite (get_In (nodeMarkAttributes (PM.marks node)) _ (PM.toJSON mk)).
  - rewrite (get_In (elementAttributes node) _ (PM.toJSON mk)); [|done|].
    + cbn [Js.equalityDeepU]. apply equalityDeep_toJSON.
      apply list_elem_of_In in Hmk.
      by destruct (proj1 (Forall_forall _ _) Hall mk Hmk).
    + unfold elementAttributes. apply in_or_app. right.
      unfold nodeMarkAttributes. apply in_map_iff. by exists mk.
  - by apply nodeMarkAttributes_keys.
  - unfold nodeMarkAttributes. apply in_map_iff. by exists mk.
Qed.

(** Parts of a separated list are separated. *)
Lemma separated_app_l a b : separated (a ++ b) -> separated a.
Proof.
  induction a as [|x a IH]; [done|]. cbn [app separated].
  intros [H1 H2]. split; [|by apply IH]. destruct a; [done|]. exact H1.
Qed.

Lemma separated_app_r a b : separated (a ++ b) -> separated b.
Proof. induction a as [|x a IH]; [done|]. cbn [app separated]. intros [_ H]. by apply IH. Qed.

(** The slots of the content of a well-formed node. *)
Lemma slotOk_normalizeFrom c textNodes :
  Forall (fun n => PM.isText n = true /\ wellFormed n) textNodes ->
  Forall wellFormed c -> Forall (convertsWell schema hashOfJSON) c ->
  separated (textNodes ++ c) ->
  Forall (slotOk schema hashOfJSON) (normalizeFrom c textNodes).
Proof.
  intros Htn Hc Hp. revert textNodes Htn.
  induction Hc as [|n c Hn Hc IH]; intros textNodes Htn Hsep.
  - rewrite app_nil_r in Hsep. destruct textNodes as [|t ts]; [constructor|].
    cbn [normalizeFrom flushTextNodes]. constructor; [|constructor]. done.
  - apply Forall_cons in Hp as [Hpn Hp]. specialize (IH Hp).
    cbn [normalizeFrom]. destruct (PM.isText n) eqn:Et.
    + apply IH.
      * apply Forall_app. split; [done|]. by constructor.
      * by rewrite <- app_assoc.
    + apply Forall_app. split.
      * destruct textNodes as [|t ts]; [constructor|].
        constructor; [|constructor]. split; [done|]. by apply separated_app_l in Hsep.
      * constructor; [done|]. apply IH; [constructor|].
        apply separated_app_r in Hsep. cbn [app]. by destruct Hsep.
Qed.

(** What a well-formed element consists of. *)
Lemma wellFormed_content r name attrs content marks :
  wellFormed (PM.Elem r name attrs content marks) ->
  nodeAttrsOk attrs /\ nodeMarksOk marks /\ separated content /\
  Forall wellFormed content.
Proof.
  cbn [wellFormed]. intros (Ha & Hm & Hs & Hall).
  split; [done|]. split; [done|]. split; [done|].
  clear Hs. induction content as [|c content IH]; [constructor|].
  destruct Hall as [Hc Hall]. constructor; [done|]. by apply IH.
Qed.

(** The children that the forward conversion makes of slots. *)
Lemma mapState_accepted slots st :
  Forall (slotOk schema hashOfJSON) slots ->
  cacheAgrees schema (meta st) ->
  Forall2 accepted
    (mapState (createTypeFromTextOrElementNode schema hashOfJSON) slots st).1 slots /\
  cacheAgrees schema
    (meta (mapState (createTypeFromTextOrElementNode schema hashOfJSON) slots st).2).
Proof.
  intros Hall. revert st. induction Hall as [|slot slots Hs _ IH]; intros st Hc.
  - cbn. split; [constructor|done].
  - cbn [mapState].
    assert (Hone : accepted (createTypeFromTextOrElementNode schema hashOfJSON slot st).1 slot /\
                   cacheAgrees schema
                     (meta (createTypeFromTextOrElementNode schema hashOfJSON slot st).2)).
    { destruct slot as [nodes|n]; cbn [createTypeFromTextOrElementNode slotOk] in *.
      - destruct Hs as [Hn Hsep].
        destruct (createTypeFromTextNodes_eq schema hashOfJSON Hhash nodes st Hc Hn Hsep)
          as (r & item & E & Hitem & Hc').
        split; [|done]. rewrite E. split.
        + cbn [equalYTypePNode]. by apply equalYTextPText_textRuns.
        + unfold Y.live, Y.isDeleted. cbn [Y._item]. by rewrite Hitem.
      - destruct Hs as (Ht & Hw & Hp). by apply Hp. }
    destruct (createTypeFromTextOrElementNode schema hashOfJSON slot st) as [y st1].
    cbn [fst snd] in Hone. destruct Hone as [Hy Hc1].
    destruct (IH st1 Hc1) as [IH1 IH2].
    destruct (mapState _ slots st1) as [ys st2]. cbn [fst snd] in *.
    split; [by constructor | done].
Qed.

(** Of children that are all live, all are visible. *)
Lemma visible_all_live l :
  Forall (fun c => Y.live c = true) l -> Y.visible l = l.
Proof.
  induction 1 as [|c l Hc _ IH]; [done|].
  cbn [Y.visible List.filter]. rewrite Hc. fold (Y.visible l). by rewrite IH.
Qed.

(** Every node converts well, by induction on the node. *)
Lemma convertsWell_all n : convertsWell schema hashOfJSON n.
Proof.
  induction n as [r t marks | r name attrs content marks IH] using Node_nested_ind;
    [done|].
  intros _ Hw st Hc.
  destruct (wellFormed_content _ _ _ _ _ Hw) as (Ha & Hm & Hsep & Hcontent).
  set (node := PM.Elem r name attrs content marks) in *.
  destruct (createTypeFromElementNode_shape schema hashOfJSON node st Ha Hm)
    as (ref & item & E & Hitem & Est).
  cbv zeta in E, Est.
  assert (Hslots : Forall (slotOk schema hashOfJSON) (normalizePNodeContent node)).
  { apply slotOk_normalizeFrom; [constructor|done|done|done]. }
  assert (Hc0 : cacheAgrees schema (meta (newType st).2)) by done.
  destruct (mapState_accepted (normalizePNodeContent node) (newType st).2 Hslots Hc0)
    as [Hch Hc1].
  set (made := mapState _ (normalizePNodeContent node) (newType st).2) in *.
  rewrite Est. split; [|done]. rewrite E. split.
  2:{ unfold Y.live, Y.isDeleted. cbn [Y._item]. by rewrite Hitem. }
  cbn [equalYTypePNode].
  assert (Hname : matchNodeName
            (Y.XmlFragment ref (Some item) (Some (PM.typeName node))
               (elementAttributes node) made.1) (OneNode node) = true).
  { unfold matchNodeName, Y.nodeNameIs. cbn [Y.nodeName]. apply String.eqb_refl. }
  rewrite Hname.
  assert (Hlive : Forall (fun c => Y.live c = true) made.1).
  { clear -Hch. induction Hch as [|c s cs ss [_ Hl] _ IH]; by constructor. }
  rewrite equalAttrs_elementAttributes, equalMarks_elementAttributes by done.
  unfold Y._length, Y.toArray. cbn [Y.items].
  rewrite visible_all_live by done.
  rewrite (Forall2_length _ _ _ Hch), Nat.eqb_refl. cbn [andb].
  unfold Arr.everyVisible. rewrite everyVisibleFrom_visible, visible_all_live by done.
  apply everyFrom_all. intros j c Hj. cbn [Nat.add].
  destruct (Forall2_lookup_l _ _ _ _ _ Hch Hj) as (slot & Hslot & [Hacc _]).
  by rewrite Hslot.
Qed.

(** X20. The shared text that [createTypeFromTextNodes] makes of text
    nodes is accepted by the oracle against these text nodes, when no text
    is empty, each node has at most one mark of a type, none of them
    [ychange], the names of the marks are plain, and no node has the marks
    of the node before it. *)
Theorem createTypeFromTextNodes_accepted nodes st :
  cacheAgrees schema (meta st) ->
  Forall (fun n => PM.isText n = true /\ wellFormed n) nodes ->
  separated nodes ->
  equalYTypePNode (createTypeFromTextNodes schema hashOfJSON nodes st).1
    (TextNodes nodes) = true.
Proof.
  intros Hc Hn Hsep.
  destruct (createTypeFromTextNodes_eq schema hashOfJSON Hhash nodes st Hc Hn Hsep)
    as (r & item & E & _ & _).
  rewrite E. cbn [equalYTypePNode]. by apply equalYTextPText_textRuns.
Qed.

(** X19. The shared element that [createTypeFromElementNode] makes of a
    well-formed node is accepted by the oracle [equalYTypePNode] against
    that node: with at most one mark of a type on every node, the forward
    conversion is one that the oracle takes as lossless. *)
Theorem createTypeFromElementNode_accepted n st :
  PM.isText n = false -> wellFormed n -> cacheAgrees schema (meta st) ->
  equalYTypePNode (createTypeFromElementNode schema hashOfJSON n st).1
    (OneNode n) = true.
Proof.
  intros Ht Hw Hc. by destruct (convertsWell_all n Ht Hw st Hc) as [[H _] _].
Qed.

End ElementsAccepted2.

(* ===================================================================== *)
(** * Properties: a document written into an empty fragment *)
(* ===================================================================== *)

Section Populates.
Import Sync Spec Props WellFormed.
Context (schema : PM.Schema) (hashOfJSON : Js.value -> string).
Context (Hhash : forall v, isHashSuffix ("--" +:+ hashOfJSON v) = true).

(** The loop that creates the children that are left over is the map over
    the slots. *)
Lemma fold_create_mapState slots ins st :
  fold_left (fun acc pchild =>
               let '(ins, st) := acc in
               let '(new, st) :=
                 createTypeFromTextOrElementNode schema hashOfJSON pchild st in
               (ins ++ [new], st)) slots (ins, st) =
  (ins ++ (mapState (createTypeFromTextOrElementNode schema hashOfJSON) slots st).1,
   (mapState (createTypeFromTextOrElementNode schema hashOfJSON) slots st).2).
Proof.
  revert ins st. induction slots as [|slot slots IH]; intros ins st.
  - cbn. by rewrite app_nil_r.
  - cbn [fold_left mapState].
    destruct (createTypeFromTextOrElementNode schema hashOfJSON slot st) as [y st1].
    rewrite IH. destruct (mapState _ slots st1) as [ys st2]. cbn [fst snd].
    by rewrite <- app_assoc.
Qed.

(** The slots of the content of a well-formed node can all be converted. *)
Lemma slotOk_content p :
  wellFormed p -> Forall (slotOk schema hashOfJSON) (normalizePNodeContent p).
Proof.
  destruct p as [r t marks | r name attrs content marks]; intros Hw.
  - constructor.
  - destruct (wellFormed_content _ _ _ _ _ Hw) as (_ & _ & Hsep & Hcontent).
    apply (slotOk_normalizeFrom schema hashOfJSON); [constructor|done| |done].
    apply Forall_forall. intros n _. by apply convertsWell_all.
Qed.

(** X21. Written into a shared fragment that shows no child, a well-formed
    node gives children that the oracle accepts, one for each slot of its
    content. *)
Theorem updateYFragment_populates fuel r i name attrs items p st :
  let y := Y.XmlFragment r i name attrs items in
  let result := updateYFragment schema hashOfJSON (S fuel) y p st in
  nameMismatch y p = false -> Y.toArray y = [] ->
  wellFormed p -> cacheAgrees schema (meta st) ->
  result.1.1 = Normal /\
  Forall2 (fun c slot => equalYTypePNode c slot = true)
    (Y.toArray result.1.2) (normalizePNodeContent p).
Proof.
  intros y result Hname Hempty Hw Hc. subst result.
  cbn [updateYFragment]. fold (nameMismatch y p). rewrite Hname.
  set (y1 := if Y.isXmlElement y then updateAttributes y p else y).
  assert (Hy1 : exists a, y1 = Y.XmlFragment r i name a items).
  { subst y1. destruct (Y.isXmlElement y); [|by exists attrs].
    subst y. rewrite updateAttributes_fold. cbv zeta. by eexists. }
  destruct Hy1 as [a Ey1].
  assert (Harr : Y.toArray y1 = []) by (rewrite Ey1; exact Hempty).
  rewrite Harr. cbn [length]. rewrite Nat.min_0_r.
  cbn [matchLeft matchRight fst snd Nat.sub updateLoop].
  unfold updateRest. cbn [nleft nright fragment state lookup length Nat.sub Nat.add].
  rewrite ?lookup_nil. cbn [lookup list_lookup].
  set (st1 := mappingSet y (OneNode p) st).
  assert (Hc1 : cacheAgrees schema (meta st1)) by done.
  destruct (0 <? length (normalizePNodeContent p)) eqn:El.
  - rewrite !Nat.sub_0_r, drop_0, firstn_all.
    rewrite fold_create_mapState. cbn [app fst snd].
    destruct (mapState_accepted schema hashOfJSON Hhash (normalizePNodeContent p) st1
                (slotOk_content p Hw) Hc1) as [Hacc _].
    set (made := mapState _ _ st1) in *.
    split; [done|]. rewrite Ey1. unfold Y.insert, Y.toArray.
    cbn [fragment Y.items Y.withItems].
    replace (Y.insertItems 0 made.1 items) with (made.1 ++ items)
      by (by destruct items).
    unfold Y.visible.
    rewrite List.filter_app. fold (Y.visible items).
    change (Y.visible items) with (Y.toArray y). rewrite Hempty, app_nil_r.
    fold (Y.visible made.1). rewrite visible_all_live.
    + eapply Forall2_impl; [exact Hacc|]. by intros c slot [H _].
    + clear -Hacc. induction Hacc as [|c s cs ss [_ Hl] _ IH]; by constructor.
  - split; [done|]. cbn [fragment]. rewrite Harr.
    apply Nat.ltb_ge in El. destruct (normalizePNodeContent p); [constructor|].
    cbn in El. lia.
Qed.

End Populates.



(* ===================================================================== *)
(** * The properties on the examples *)
(* ===================================================================== *)

Section CoverageExamples.

Import Sync Spec Props.

(** The theorem of X3 on the shared document [a | b] and the editable
    document [x | y]. *)
Lemma updateYFragment_completes_witness :
  (updateYFragment Basic.schema Basic.hashOfJSON 4 Example.ydoc
     Example.docRewritten Basic.emptyState).1.1 = Normal.
Proof.
  apply (updateYFragment_completes Basic.schema Basic.hashOfJSON 4 Example.ydoc
           Example.docRewritten Basic.emptyState).
  - reflexivity.
  - vm_compute. lia.
Defined.

(** The theorem of X5 on a paragraph aligned to the left that becomes
    centred. *)
Lemma updateYFragment_attributes_witness :
  Js.get (Y.getAttributes
            (updateYFragment Basic.schema Basic.hashOfJSON 1 Sample.yparagraphLeft
               Sample.paragraphCentred Basic.emptyState).1.2) "align" =
    Some (Js.Str "center") \/
  (Js.get (Y.getAttributes
             (updateYFragment Basic.schema Basic.hashOfJSON 1 Sample.yparagraphLeft
                Sample.paragraphCentred Basic.emptyState).1.2) "align" =
     Js.get [("align", Js.Str "left"); ("old", Js.Num 1)] "align" /\
   Js.strictEqU (Js.get [("align", Js.Str "left"); ("old", Js.Num 1)] "align")
     (Some (Js.Str "center")) = true).
Proof.
  apply (updateYFragment_attributes Basic.schema Basic.hashOfJSON 1
           2 (Example.item 1 2) "paragraph"
           [("align", Js.Str "left"); ("old", Js.Num 1)] []
           Sample.paragraphCentred Basic.emptyState "align").
  - apply (bool_decide_unpack _). vm_compute. reflexivity.
  - apply (bool_decide_unpack _). vm_compute. reflexivity.
  - discriminate.
  - reflexivity.
Defined.

(** The theorem of X6 on the shared document [a | b] and the editable
    document [a | b]. *)
Lemma updateYFragment_equal_children_witness :
  exists st',
    updateYFragment Basic.schema Basic.hashOfJSON 1 Example.ydoc Sample.docSame
      Basic.emptyState =
    (Normal, updateAttributes Example.ydoc Sample.docSame, st').
Proof.
  apply (updateYFragment_equal_children Basic.schema Basic.hashOfJSON 0
           Example.ydoc Sample.docSame Basic.emptyState).
  - reflexivity.
  - reflexivity.
  - intros [|[|i]] c pc Hc Hp; [| |discriminate Hc];
      injection Hc as <-; injection Hp as <-; reflexivity.
Defined.

(** The theorem of X7 on the shared text [ab] and the text node [xb]. *)
Lemma updateYText_text_witness :
  (ytextTrans (updateYText Basic.schema Basic.hashOfJSON Sample.textAb
                 [Sample.nodeXb] Basic.emptyState).1).1 = "xb".
Proof.
  apply (updateYText_text Basic.schema Basic.hashOfJSON Sample.textAb
           [Sample.nodeXb] Basic.emptyState); reflexivity.
Defined.

(** The hash function of the examples returns eight units of the base64
    alphabet. *)
Lemma hashOfJSON_shape v : isHashSuffix ("--" +:+ Basic.hashOfJSON v) = true.
Proof. unfold Basic.hashOfJSON. repeat case_match; reflexivity. Qed.

(** A name of fewer than ten units does not end in a hash. *)
Lemma short_name_plain name pre suf :
  String.length name < 10 -> name = pre +:+ suf -> isHashSuffix suf = false.
Proof.
  intros Hl ->. destruct (isHashSuffix suf) eqn:E; [|done].
  apply isHashSuffix_length in E. rewrite str_length_app in Hl. lia.
Qed.

(** The theorem of X9 on a strong mark and a comment. *)
Lemma marks_roundtrip_witness :
  attributesToMarks Basic.schema
    (marksToAttributes Basic.schema Basic.hashOfJSON
       [Sample.strong; Example.comment 1] Basic.emptyState).1 =
  Some [Sample.strong; Example.comment 1].
Proof.
  apply (marks_roundtrip Basic.schema Basic.hashOfJSON
           [Sample.strong; Example.comment 1] Basic.emptyState).
  - exact hashOfJSON_shape.
  - intros name b H. discriminate H.
  - apply (bool_decide_unpack _). vm_compute. reflexivity.
  - repeat constructor; try discriminate; try reflexivity;
      intros pre suf; apply short_name_plain; vm_compute; lia.
Defined.


(** The theorem of X11 on a shared paragraph. *)
Lemma createNodeIfNotExists_reuses_witness :
  exists node el' st',
    createNodeFromYElement Basic.schema 2 (Example.yparagraph 2 1 "a")
      Basic.emptyState = (Normal, Some node, el', st') /\
    createNodeIfNotExists Basic.schema 0 el' st' =
      (Normal, Some (OneNode node), el', st').
Proof.
  eexists _, _, _. split; [vm_compute; reflexivity|].
  apply (createNodeIfNotExists_reuses Basic.schema 2 0 (Example.yparagraph 2 1 "a")
           Basic.emptyState).
  vm_compute. reflexivity.
Defined.


(** The theorem of X14 on a selection between the positions 3 and 5. *)
Lemma restoreRelativeSelection_getRelativeSelection_witness :
  restoreRelativeSelection Sample.position Example.untouched
    (Some (Binding.getRelativeSelection Sample.position Sample.textSelection)) =
  setSelection (TextSelection 3 5) Example.untouched.
Proof.
  apply (restoreRelativeSelection_getRelativeSelection Sample.position
           Sample.position Example.untouched Sample.textSelection
           ltac:(by exists 3) ltac:(by exists 5)); discriminate.
Defined.

(** The theorem of X16 on three colours, one of them taken. *)
Lemma getUserColor_fresh_witness :
  exists color : nat,
    Colors.getUserColor (fun n => n - 1) {[ "ann" := Some 7 ]} [7; 8; 9] "bob" =
      (Some color, <[ "bob" := Some color ]> {[ "ann" := Some 7 ]}) /\
    color ∈ [7; 8; 9] /\
    forall other, ({[ "ann" := Some 7 ]} : gmap string (option nat)) !! other
                  <> Some (Some color).
Proof.
  apply (getUserColor_fresh (fun n => n - 1) {[ "ann" := Some 7 ]} [7; 8; 9] "bob").
  - intros n Hn. lia.
  - apply (bool_decide_unpack _). vm_compute. reflexivity.
  - reflexivity.
  - vm_compute. lia.
Defined.

(** The theorem of X17 on the change of an undo: the flags are set, and
    the document of the state is the one it was. *)
Lemma apply_state_witness :
  Js.get (PluginState.apply true (Some Sample.undoChange) None
            Sample.snapshotShown).1 "doc" = Some (Js.Obj (Some 1) []).
Proof.
  apply (proj2 (apply_state true (Some Sample.undoChange) None Sample.snapshotShown
                  ltac:(apply (bool_decide_unpack _); vm_compute; reflexivity)
                  ltac:(intros c [= <-]; apply (bool_decide_unpack _);
                        vm_compute; reflexivity))
               "doc" eq_refl).
Defined.

(** The theorem of X18 on an editor that shows a snapshot, for the change
    that restores it, when the rendering and the writing both change the
    shared document. *)
Lemma rerender_keeps_snapshot_witness :
  exists st',
    PluginState.objects
      (PluginState.rerender true true true true Sample.restoreChange 1
         Sample.editorShown)
      !! PluginState.current
           (PluginState.rerender true true true true Sample.restoreChange 1
              Sample.editorShown) = Some st' /\
    Js.get st' "restore" = Js.get Sample.restoring "restore" /\
    PluginState.nullish (Js.get st' "snapshot") =
      PluginState.nullish (Js.get Sample.restoring "snapshot") /\
    PluginState.editable st' = PluginState.editable Sample.restoring /\
    (true = true ->
     PluginState.current
       (PluginState.rerender true true true true Sample.restoreChange 1
          Sample.editorShown) <> 1).
Proof.
  apply (rerender_keeps_snapshot true true true Sample.restoreChange 1
           Sample.editorShown Sample.restoring).
  - reflexivity.
  - apply (bool_decide_unpack _). vm_compute. reflexivity.
  - intros n Hn. apply lookup_singleton_ne. cbn in Hn. lia.
  - by eexists.
Defined.

(** There the editor is not editable, before and after. *)
Lemma rerender_restore_not_editable :
  PluginState.editable Sample.restoring = false /\
  PluginState.apply true (Some Sample.restoreChange) None Sample.snapshotShown =
    (Sample.restoring, true).
Proof. split; vm_compute; reflexivity. Qed.

(** The theorem of X13 at work: the history whose second paragraph was
    added is rendered without a previous snapshot and without user data;
    the rendering completes, shows nothing, and has deleted both
    paragraphs. *)
Lemma renderSnapshot_without_user_data_example :
  AtSnapshot.completion
    (Example.rendered None Example.snapshotAdded (Binding.renderSnapshotPrev None)
       Example.historyAdded) = Normal /\
  AtSnapshot.content
    (Example.rendered None Example.snapshotAdded (Binding.renderSnapshotPrev None)
       Example.historyAdded) = [] /\
  map (fun t => (Y.ref t, Y.isDeleted t))
    (AtSnapshot.types
       (Example.rendered None Example.snapshotAdded
          (Binding.renderSnapshotPrev None) Example.historyAdded)) =
  [(61, true); (65, true)].
Proof. repeat split; vm_compute; reflexivity. Qed.

End CoverageExamples.

Section ConversionExamples.

Import Sync Spec Props WellFormed.

(** The text nodes of [Sample.docStyled] are well formed. *)
Lemma styledTexts_wellFormed :
  Forall (fun n => PM.isText n = true /\ wellFormed n) Sample.styledTexts /\
  separated Sample.styledTexts.
Proof.
  split.
  - repeat constructor; try discriminate; try apply not_elem_of_nil;
      intros pre suf; apply short_name_plain; vm_compute; lia.
  - cbn. split; [|done]. intros (_ & _ & H). discriminate H.
Qed.

(** [Sample.docStyled] is well formed. *)
Lemma docStyled_wellFormed : wellFormed Sample.docStyled.
Proof.
  destruct styledTexts_wellFormed as [Hall Hsep].
  apply Forall_cons in Hall as [[_ Ha] Hall].
  apply Forall_cons in Hall as [[_ Hb] _].
  cbn [wellFormed Sample.docStyled].
  split; [split; constructor|]. split; [split; constructor|].
  split; [split; exact I|]. split; [|exact I].
  split; [|split; [|split; [exact Hsep|]]].
  - split; [apply (bool_decide_unpack _); vm_compute; reflexivity|].
    repeat constructor; discriminate.
  - split; [apply (bool_decide_unpack _); vm_compute; reflexivity|].
    repeat constructor; try discriminate; apply not_elem_of_nil.
  - split; [exact Ha|]. split; [exact Hb|exact I].
Qed.

(** The theorem of X19 on a document whose paragraph is centred, carries a
    comment and holds a strong [a] and a plain [b]. *)
Lemma createTypeFromElementNode_accepted_witness :
  equalYTypePNode
    (createTypeFromElementNode Basic.schema Basic.hashOfJSON Sample.docStyled
       Basic.emptyState).1 (OneNode Sample.docStyled) = true.
Proof.
  apply (createTypeFromElementNode_accepted Basic.schema Basic.hashOfJSON
           hashOfJSON_shape Sample.docStyled Basic.emptyState).
  - reflexivity.
  - exact docStyled_wellFormed.
  - intros name b H. discriminate H.
Defined.

(** The theorem of X20 on a strong [a] and a plain [b]. *)
Lemma createTypeFromTextNodes_accepted_witness :
  equalYTypePNode
    (createTypeFromTextNodes Basic.schema Basic.hashOfJSON Sample.styledTexts
       Basic.emptyState).1 (TextNodes Sample.styledTexts) = true.
Proof.
  apply (createTypeFromTextNodes_accepted Basic.schema Basic.hashOfJSON
           hashOfJSON_shape Sample.styledTexts Basic.emptyState).
  - intros name b H. discriminate H.
  - exact (proj1 styledTexts_wellFormed).
  - exact (proj2 styledTexts_wellFormed).
Defined.

(** The theorem of X21 on the same document and a root fragment without
    children. *)
Lemma updateYFragment_populates_witness :
  (updateYFragment Basic.schema Basic.hashOfJSON 1 (Y.XmlFragment 0 None None [] [])
     Sample.docStyled Basic.emptyState).1.1 = Normal /\
  Forall2 (fun c slot => equalYTypePNode c slot = true)
    (Y.toArray
       (updateYFragment Basic.schema Basic.hashOfJSON 1
          (Y.XmlFragment 0 None None [] []) Sample.docStyled Basic.emptyState).1.2)
    (normalizePNodeContent Sample.docStyled).
Proof.
  apply (updateYFragment_populates Basic.schema Basic.hashOfJSON hashOfJSON_shape
           0 0 None None [] [] Sample.docStyled Basic.emptyState).
  - reflexivity.
  - reflexivity.
  - exact docStyled_wellFormed.
  - intros name b H. discriminate H.
Defined.

End ConversionExamples.
